(** * Excel table and formula extraction: a shallow embedding of
    [table_extraction.py] and the properties of its table detection and
    formula annotation.

    Conventions.  Python integers are [Z]; loop counters produced by
    [range] and [enumerate] are [nat].  A numpy boolean matrix is a record
    holding its column count and its rows, so that a matrix with no rows
    still has a second dimension, as [ndarray.shape] does.  Text is
    restricted to ASCII: [str.isalpha], [str.strip] and the regular
    expression classes are modelled on 7-bit characters. *)

From Stdlib Require Import ZArith Lia Ascii String List Bool Sorted Permutation.
From stdpp Require Import base tactics option list strings pretty gmap.

Local Open Scope string_scope.
Local Open Scope list_scope.
Local Open Scope nat_scope.

(** ** Python and numpy primitives *)

(** Normalisation of one bound of a slice [start:stop] (step 1) on an axis
    of length [n]: negative bounds count from the end, and every bound is
    clipped to the axis. *)
Definition slice_index (n x : Z) : Z :=
  if (x <? 0)%Z then Z.max 0 (x + n) else Z.min x n.

(** Whether position [i] of an axis of length [n] is selected by
    [start:stop]. *)
Definition in_slice (n : nat) (start stop : Z) (i : nat) : bool :=
  (slice_index (Z.of_nat n) start <=? Z.of_nat i)%Z
  && (Z.of_nat i <? slice_index (Z.of_nat n) stop)%Z.

(** Number of positions selected by [start:stop]. *)
Definition slice_len (n : nat) (start stop : Z) : nat :=
  Z.to_nat (slice_index (Z.of_nat n) stop - slice_index (Z.of_nat n) start).

(** [l[start:stop]]. *)
Definition py_slice {A} (l : list A) (start stop : Z) : list A :=
  take (slice_len (length l) start stop)
       (drop (Z.to_nat (slice_index (Z.of_nat (length l)) start)) l).

(** A two-dimensional boolean [ndarray]. *)
Record Grid := mkGrid { ncols : nat; cells : list (list bool) }.

Definition nrows (g : Grid) : nat := length (cells g).

(** [np.zeros((R, C), dtype=bool)] *)
Definition zeros (R C : nat) : Grid :=
  mkGrid C (replicate R (replicate C false)).

(** [g[i, j]] for an index inside the array. *)
Definition grid_get (g : Grid) (i j : nat) : bool :=
  match cells g !! i with
  | Some row => default false (row !! j)
  | None => false
  end.

(** [g[i, j] = v] for an index inside the array (outside it numpy raises;
    every assignment of the program is inside). *)
Definition grid_set (g : Grid) (i j : nat) (v : bool) : Grid :=
  mkGrid (ncols g) (alter (<[j := v]>) i (cells g)).

(** [g[rs:re, cs:ce] = v] *)
Definition slice_fill (g : Grid) (rs re cs ce : Z) (v : bool) : Grid :=
  mkGrid (ncols g)
    (imap (fun i row =>
       imap (fun j b =>
         if in_slice (nrows g) rs re i && in_slice (ncols g) cs ce j
         then v else b) row)
     (cells g)).

(** Every row of the matrix has [ncols] entries. *)
Definition grid_wf (g : Grid) : Prop :=
  Forall (fun row => length row = ncols g) (cells g).

(** ** Worksheets *)

(** Cell values.  [VOther] stands for a value whose [str()] rendering is
    given (floats, dates). *)
Inductive CellValue :=
| VStr (s : string)
| VInt (n : Z)
| VBool (b : bool)
| VOther (shown : string).

(** [str(v)] *)
Definition py_str (v : CellValue) : string :=
  match v with
  | VStr s => s
  | VInt n => pretty n
  | VBool true => "True"
  | VBool false => "False"
  | VOther s => s
  end.

(** A declared table: [range_boundaries(t.ref)] in openpyxl's order
    [(min_col, min_row, max_col, max_row)], the display name and the
    [name] attribute of each declared column. *)
Record Table := mkTable {
  ref_bounds : Z * Z * Z * Z;
  displayName : string;
  tableColumns : list (option string)
}.

(** What the program reads from an openpyxl worksheet.  [ws_rows] is
    [list(ws.iter_rows(values_only=True))]; [column_hidden j] says that
    [column_dimensions] has an entry for column [j] (1-based) whose
    [hidden] flag is set; [row_hidden] is the corresponding flag of
    [row_dimensions]; [merged_ranges] lists the [bounds] of the merged
    ranges, [(min_col, min_row, max_col, max_row)]. *)
Record Worksheet := mkWorksheet {
  title : string;
  ws_rows : list (list (option CellValue));
  max_column : nat;
  column_hidden : nat -> bool;
  row_hidden : nat -> bool;
  merged_ranges : list (Z * Z * Z * Z);
  ws_tables : list Table
}.

(** [(min_row, min_col, max_row, max_col, table_name, table_object)] *)
Definition ExplicitRegion : Type := Z * Z * Z * Z * string * Table.

Definition get_explicit_table_regions (ws : Worksheet) : list ExplicitRegion :=
  map (fun t =>
         let '(min_col, min_row, max_col, max_row) := ref_bounds t in
         (min_row, min_col, max_row, max_col, displayName t, t))
      (ws_tables ws).

(** The mask of the cells claimed by explicit tables. *)
Definition explicit_mask_of (R C : nat) (explicit_regions : list ExplicitRegion) : Grid :=
  foldl (fun m (reg : ExplicitRegion) =>
           let '(r1, c1, r2, c2, _, _) := reg in
           slice_fill m (r1 - 1) r2 (c1 - 1) c2 true)
        (zeros R C) explicit_regions.

(** [row[j] if j < len(row) else None] *)
Definition row_value (row : list (option CellValue)) (j : nat) : option CellValue :=
  mjoin (row !! j).

(** Body of the inner loop of [build_grid_excluding_explicit]: the cell
    at row [i] and column [j] (0-based). *)
Definition mark_cell (ws : Worksheet) (explicit_mask : Grid)
    (i : nat) (row : list (option CellValue)) (g : Grid) (j : nat) : Grid :=
  if column_hidden ws (S j) then g
  else
    match row_value row j with
    | Some _ =>
        if negb (grid_get explicit_mask i j) then grid_set g i j true else g
    | None => g
    end.

Definition build_grid_excluding_explicit
    (ws : Worksheet) (explicit_regions : list ExplicitRegion) : Grid :=
  let rows := ws_rows ws in
  let R := length rows in
  let C := max_column ws in
  let grid := zeros R C in
  let explicit_mask := explicit_mask_of R C explicit_regions in
  foldl (fun g '(i, row) => foldl (mark_cell ws explicit_mask i row) g (seq 0 C))
        grid (imap pair rows).

(** [ws.cell(row=row, column=col).value] *)
Definition cell_value (ws : Worksheet) (row col : Z) : option CellValue :=
  if ((1 <=? row) && (1 <=? col))%Z then
    match ws_rows ws !! Z.to_nat (row - 1) with
    | Some r => row_value r (Z.to_nat (col - 1))
    | None => None
    end
  else None.

Definition get_merged_cell_value (ws : Worksheet) (row col : Z) : option CellValue :=
  match
    List.find (fun '(min_col, min_row, max_col, max_row) =>
                 (min_row <=? row)%Z && (row <=? max_row)%Z
                 && (min_col <=? col)%Z && (col <=? max_col)%Z)
              (merged_ranges ws)
  with
  | Some (min_col, min_row, _, _) => cell_value ws min_row min_col
  | None => cell_value ws row col
  end.

(** ** Vocabulary of the statements *)

(** A range of the data model: 1-based and inclusive. *)
Definition region_valid (reg : ExplicitRegion) : Prop :=
  let '(r1, c1, r2, c2, _, _) := reg in
  (1 <= r1 <= r2)%Z /\ (1 <= c1 <= c2)%Z.

(** The 1-based cell [(row, col)] lies in the range of [reg]. *)
Definition in_region (reg : ExplicitRegion) (row col : Z) : Prop :=
  let '(r1, c1, r2, c2, _, _) := reg in
  (r1 <= row <= r2)%Z /\ (c1 <= col <= c2)%Z.

Definition in_any_region (regs : list ExplicitRegion) (row col : Z) : Prop :=
  Exists (fun reg => in_region reg row col) regs.

(** The entry of the matrix for the 1-based cell [(row, col)]. *)
Definition grid_at (g : Grid) (row col : Z) : bool :=
  (1 <=? row)%Z && (1 <=? col)%Z
  && grid_get g (Z.to_nat (row - 1)) (Z.to_nat (col - 1)).

(** The mask entry at the 0-based position [(i, j)], read off the list of
    regions. *)
Definition masked (R C : nat) (regs : list ExplicitRegion) (i j : nat) : bool :=
  existsb (fun reg : ExplicitRegion =>
             let '(r1, c1, r2, c2, _, _) := reg in
             in_slice R (r1 - 1) r2 i && in_slice C (c1 - 1) c2 j) regs.

(** The test under which [mark_cell] sets its cell. *)
Definition cell_marked (ws : Worksheet) (explicit_mask : Grid)
    (i : nat) (row : list (option CellValue)) (j : nat) : bool :=
  negb (column_hidden ws (S j))
  && bool_decide (is_Some (row_value row j))
  && negb (grid_get explicit_mask i j).

(** The cell rule of the grid as the specification words it: the value
    is read through the merge map and hidden rows are left out too. *)
Definition grid_rule_as_specified (ws : Worksheet) (regs : list ExplicitRegion) : Prop :=
  forall row col : Z,
    (1 <= row <= Z.of_nat (length (ws_rows ws)))%Z ->
    (1 <= col <= Z.of_nat (max_column ws))%Z ->
    (grid_at (build_grid_excluding_explicit ws regs) row col = true
     <-> is_Some (get_merged_cell_value ws row col)
         /\ row_hidden ws (Z.to_nat row) = false
         /\ column_hidden ws (Z.to_nat col) = false
         /\ ~ in_any_region regs row col).

(** A sheet with the single value 1 in a hidden first row. *)
Definition sheet_hidden_row : Worksheet :=
  mkWorksheet "S" [[Some (VInt 1)]] 1 (fun _ => false) (fun r => r =? 1) [] [].

(** A sheet whose cells A1:B1 are merged; the anchor A1 holds the value. *)
Definition sheet_merged : Worksheet :=
  mkWorksheet "S" [[Some (VInt 1); None]] 2 (fun _ => false) (fun _ => false)
    [(1, 1, 2, 1)%Z] [].

(** ** Region splitting *)

(** A bounding box [(r1, r2, c1, c2)], 1-based and inclusive. *)
Definition BBox : Type := Z * Z * Z * Z.

(** [grid[r0:r1i + 1, c0:c1i + 1]] *)
Definition subgrid (grid : Grid) (r0 r1i c0 c1i : Z) : Grid :=
  mkGrid (slice_len (ncols grid) c0 (c1i + 1))
    (map (fun row => py_slice row c0 (c1i + 1))
         (py_slice (cells grid) r0 (r1i + 1))).

(** Number of [True] entries. *)
Definition bool_sum (l : list bool) : nat :=
  foldr (fun (b : bool) n => if b then S n else n) 0 l.

(** [g.sum(axis=1)] *)
Definition row_sums (g : Grid) : list nat := map bool_sum (cells g).

(** [g.sum(axis=0)] *)
Definition col_sums (g : Grid) : list nat :=
  map (fun j => bool_sum (map (fun row => default false (row !! j)) (cells g)))
      (seq 0 (ncols g)).

(** [[i for i, s in enumerate(sums) if s == 0]] *)
Definition empty_indices (sums : list nat) : list nat :=
  omap (fun '(i, s) => if s =? 0 then Some i else None) (imap pair sums).

(** The loop that collects the maximal runs of positive sums: [j] is the
    loop counter, [start] the variable of the same name and [acc] the list
    built so far.  The last line of the loop's code, after the [for], is
    the case of the empty list. *)
Fixpoint run_scan (sums : list nat) (j : nat) (start : option nat)
    (acc : list (nat * nat)) : list (nat * nat) :=
  match sums with
  | [] =>
      match start with
      | Some st => acc ++ [(st, j - 1)]
      | None => acc
      end
  | s :: rest =>
      if 0 <? s then
        match start with
        | None => run_scan rest (S j) (Some j) acc
        | Some _ => run_scan rest (S j) start acc
        end
      else
        match start with
        | Some st => run_scan rest (S j) None (acc ++ [(st, j - 1)])
        | None => run_scan rest (S j) None acc
        end
  end.

Definition non_empty_runs (sums : list nat) : list (nat * nat) :=
  run_scan sums 0 None [].

(** [out.extend(f(x))] for every [x], where [f] may run out of budget. *)
Definition extend_all {A B} (f : A -> option (list B)) (l : list A)
  : option (list B) :=
  foldr (fun x acc =>
           match f x, acc with
           | Some ys, Some rest => Some (ys ++ rest)
           | _, _ => None
           end)
        (Some []) l.

(** The two mutually recursive splitting functions.  [fuel] bounds the
    depth of the recursion; [None] means that the bound was reached. *)
Fixpoint split_bbox_on_empty_lines (fuel : nat) (grid : Grid) (bbox : BBox)
  : option (list BBox) :=
  match fuel with
  | 0 => None
  | S fuel' =>
      let '(r1, r2, c1, c2) := bbox in
      let r0 := (r1 - 1)%Z in let r1i := (r2 - 1)%Z in
      let c0 := (c1 - 1)%Z in let c1i := (c2 - 1)%Z in
      let sub := subgrid grid r0 r1i c0 c1i in
      let rsums := row_sums sub in
      let csums := col_sums sub in
      match empty_indices csums, empty_indices rsums with
      | _ :: _, _ =>
          extend_all
            (fun '(cs, ce) =>
               split_bbox_on_empty_rows fuel' grid
                 (r1, r2, c0 + Z.of_nat cs + 1, c0 + Z.of_nat ce + 1)%Z)
            (non_empty_runs csums)
      | [], _ :: _ =>
          Some (map (fun '(rs, re) =>
                       (r0 + Z.of_nat rs + 1, r0 + Z.of_nat re + 1, c1, c2)%Z)
                    (non_empty_runs rsums))
      | [], [] => Some [bbox]
      end
  end
with split_bbox_on_empty_rows (fuel : nat) (grid : Grid) (bbox : BBox)
  : option (list BBox) :=
  match fuel with
  | 0 => None
  | S fuel' =>
      let '(r1, r2, c1, c2) := bbox in
      let r0 := (r1 - 1)%Z in let r1i := (r2 - 1)%Z in
      let c0 := (c1 - 1)%Z in let c1i := (c2 - 1)%Z in
      let sub := subgrid grid r0 r1i c0 c1i in
      let rsums := row_sums sub in
      let csums := col_sums sub in
      match empty_indices rsums, empty_indices csums with
      | _ :: _, _ =>
          extend_all
            (fun '(rs, re) =>
               split_bbox_on_empty_lines fuel' grid
                 (r0 + Z.of_nat rs + 1, r0 + Z.of_nat re + 1, c1, c2)%Z)
            (non_empty_runs rsums)
      | [], _ :: _ =>
          Some (map (fun '(cs, ce) =>
                       (r1, r2, c0 + Z.of_nat cs + 1, c0 + Z.of_nat ce + 1)%Z)
                    (non_empty_runs csums))
      | [], [] => Some [bbox]
      end
  end.

(** A grid given by its rows of 0/1 entries. *)
Definition grid_of_rows (C : nat) (rows : list (list nat)) : Grid :=
  mkGrid C (map (map (fun n => negb (n =? 0))) rows).

(** Position [k] of [sums] holds a positive sum. *)
Definition positive_at (sums : list nat) (k : nat) : Prop :=
  exists v, sums !! k = Some v /\ 0 < v.

(** The run [(s, e)] lies inside [sums] and meets positive sums only. *)
Definition run_positive (sums : list nat) (run : nat * nat) : Prop :=
  run.1 <= run.2 < length sums
  /\ forall k, run.1 <= k <= run.2 -> positive_at sums k.

(** The runs are listed from left to right and do not overlap: each
    starts at [lo] or later, and after the end of the one before it. *)
Fixpoint runs_sorted (lo : nat) (rs : list (nat * nat)) : Prop :=
  match rs with
  | [] => True
  | (s, e) :: rest => lo <= s /\ s <= e /\ runs_sorted (S e) rest
  end.

(** What the loop of [run_scan] knows about its variable [start] when the
    counter is [j]. *)
Definition start_ok (sums : list nat) (j : nat) (start : option nat) : Prop :=
  match start with
  | Some st => st < j /\ forall k, st <= k < j -> positive_at sums k
  | None => True
  end.

(** A box of the data model. *)
Definition bbox_valid (b : BBox) : Prop :=
  let '(r1, r2, c1, c2) := b in (1 <= r1 <= r2)%Z /\ (1 <= c1 <= c2)%Z.

(** The 1-based cell [(r, c)] lies in the box. *)
Definition cell_in (b : BBox) (r c : Z) : Prop :=
  let '(r1, r2, c1, c2) := b in (r1 <= r <= r2)%Z /\ (c1 <= c <= c2)%Z.

(** [inner] lies inside [outer]: row range in row range, column range in
    column range. *)
Definition bbox_within (outer inner : BBox) : Prop :=
  let '(r1, r2, c1, c2) := outer in
  let '(r1', r2', c1', c2') := inner in
  (r1 <= r1' /\ r2' <= r2)%Z /\ (c1 <= c1' /\ c2' <= c2)%Z.

(** The two boxes share no cell. *)
Definition bbox_disjoint (a b : BBox) : Prop :=
  forall r c, cell_in a r c -> ~ cell_in b r c.

Fixpoint pairwise_disjoint (l : list BBox) : Prop :=
  match l with
  | [] => True
  | b :: rest => Forall (bbox_disjoint b) rest /\ pairwise_disjoint rest
  end.

(** Every non-empty cell of [b] lies in one of the boxes [out]. *)
Definition covers (grid : Grid) (b : BBox) (out : list BBox) : Prop :=
  forall r c, cell_in b r c -> grid_at grid r c = true ->
              Exists (fun o => cell_in o r c) out.

(** The box holds a non-empty cell. *)
Definition has_cell (grid : Grid) (b : BBox) : Prop :=
  exists r c, cell_in b r c /\ grid_at grid r c = true.

(** No row and no column of the box is empty in the grid. *)
Definition no_empty_line (grid : Grid) (b : BBox) : Prop :=
  let '(r1, r2, c1, c2) := b in
  (forall r, (r1 <= r <= r2)%Z ->
             exists c, (c1 <= c <= c2)%Z /\ grid_at grid r c = true)
  /\ (forall c, (c1 <= c <= c2)%Z ->
                exists r, (r1 <= r <= r2)%Z /\ grid_at grid r c = true).

(** Height plus width: what decreases along the recursion. *)
Definition box_measure (b : BBox) : nat :=
  let '(r1, r2, c1, c2) := b in
  Z.to_nat (r2 - r1 + 1) + Z.to_nat (c2 - c1 + 1).

(** The sub-matrix the splitting functions look at. *)
Definition box_subgrid (grid : Grid) (b : BBox) : Grid :=
  let '(r1, r2, c1, c2) := b in
  subgrid grid (r1 - 1) (r2 - 1) (c1 - 1) (c2 - 1).

(** The box cut out of [b] by a run of columns, and by a run of rows. *)
Definition col_box (b : BBox) (run : nat * nat) : BBox :=
  let '(r1, r2, c1, c2) := b in
  (r1, r2, c1 - 1 + Z.of_nat run.1 + 1, c1 - 1 + Z.of_nat run.2 + 1)%Z.

Definition row_box (b : BBox) (run : nat * nat) : BBox :=
  let '(r1, r2, c1, c2) := b in
  (r1 - 1 + Z.of_nat run.1 + 1, r1 - 1 + Z.of_nat run.2 + 1, c1, c2)%Z.

(** What the splitting of [b] into [out] is shown to satisfy: the boxes
    lie inside [b], are boxes of the data model, share no cell, keep every
    non-empty cell of [b] and, when [b] holds a non-empty cell, each holds
    one. *)
Definition split_good (grid : Grid) (b : BBox) (out : list BBox) : Prop :=
  Forall (bbox_within b) out
  /\ Forall bbox_valid out
  /\ pairwise_disjoint out
  /\ covers grid b out
  /\ (has_cell grid b -> Forall (has_cell grid) out).


(** A full two-by-two block. *)
Definition grid_block : Grid := grid_of_rows 2 [[1; 1]; [1; 1]].

(** Two cells in opposite corners of a three-by-three box. *)
Definition grid_corners : Grid :=
  grid_of_rows 3 [[1; 0; 0]; [0; 0; 0]; [0; 0; 1]].

(** ** Text *)

(** [ch.isalpha()] on ASCII. *)
Definition isalpha (c : ascii) : bool :=
  let n := nat_of_ascii c in
  (65 <=? n) && (n <=? 90) || (97 <=? n) && (n <=? 122).

(** [ch.isspace()] on ASCII: tab to carriage return, the four separators
    28-31, and the space. *)
Definition isspace (c : ascii) : bool :=
  let n := nat_of_ascii c in
  (9 <=? n) && (n <=? 13) || (28 <=? n) && (n <=? 32).

Definition isdigit (c : ascii) : bool :=
  let n := nat_of_ascii c in (48 <=? n) && (n <=? 57).

(** [any(p(ch) for ch in s)] *)
Fixpoint any_char (p : ascii -> bool) (s : string) : bool :=
  match s with
  | EmptyString => false
  | String c rest => p c || any_char p rest
  end.

Fixpoint lstrip (s : string) : string :=
  match s with
  | EmptyString => EmptyString
  | String c rest => if isspace c then lstrip rest else s
  end.

Fixpoint rstrip (s : string) : string :=
  match s with
  | EmptyString => EmptyString
  | String c rest =>
      match rstrip rest with
      | EmptyString => if isspace c then EmptyString else String c EmptyString
      | rest' => String c rest'
      end
  end.

(** [s.strip()] *)
Definition strip (s : string) : string := rstrip (lstrip s).

(** [s.startswith("[")] *)
Definition starts_with_bracket (s : string) : bool :=
  match s with
  | String "["%char _ => true
  | _ => false
  end.

(** Truth value of a string: it is not empty. *)
Definition truthy (s : string) : bool :=
  match s with EmptyString => false | _ => true end.

(** ** Header detection *)

(** [looks_text], the local function of [detect_header_and_body]. *)
Definition looks_text (s : string) : bool := any_char isalpha s.

(** [sum(1 for cell in row if cell and looks_text(cell))] *)
Definition text_count (row : list string) : nat :=
  length (List.filter (fun cell => truthy cell && looks_text cell) row).

(** [sum(1 for cell in next_row if cell and not looks_text(cell))] *)
Definition numericish_count (row : list string) : nat :=
  length (List.filter (fun cell => truthy cell && negb (looks_text cell)) row).

(** The test of the loop,
    [text_count >= len(rows[idx]) / 2 and numericish_next >= len(next_row) / 3].
    The two quotients are floats in the program; an integer is at least
    [n / 2], or [n / 3], exactly when twice, or three times, the integer
    is at least [n], and the float comparison agrees with that for every
    row shorter than 2^52 cells. *)
Definition header_test (row next_row : list string) : bool :=
  (length row <=? 2 * text_count row)
  && (length next_row <=? 3 * numericish_count next_row).

(** The loop [for idx in range(len(rows) - 1)], over the indices still to
    visit, returning the index at which the function returns. *)
Fixpoint header_loop (rows : list (list string)) (idxs : list nat) : option nat :=
  match idxs with
  | [] => None
  | idx :: rest =>
      if header_test (nth idx rows []) (nth (S idx) rows [])
      then Some idx
      else header_loop rows rest
  end.

(** [detect_header_and_body] on the matrix of cell texts.  [None] is the
    [IndexError] of [rows[0]] on a matrix with no row. *)
Definition detect_header_rows (rows : list (list string))
  : option (list string * list (list string)) :=
  match header_loop rows (seq 0 (length rows - 1)) with
  | Some idx => Some (nth idx rows [], drop (S idx) rows)
  | None =>
      match rows with
      | first :: rest => Some (first, rest)
      | [] => None
      end
  end.

(** [range(a, b + 1)] *)
Definition py_range_incl (a b : Z) : list Z := seqZ a (b + 1 - a).

(** The text of one cell of the matrix:
    ["" if v is None else str(v).strip()]. *)
Definition cell_text (v : option CellValue) : string :=
  match v with
  | None => ""
  | Some v => strip (py_str v)
  end.

(** The matrix built by the first loop of [detect_header_and_body]. *)
Definition region_rows (ws : Worksheet) (r1 r2 c1 c2 : Z) : list (list string) :=
  map (fun i => map (fun j => cell_text (get_merged_cell_value ws i j))
                    (py_range_incl c1 c2))
      (py_range_incl r1 r2).

Definition detect_header_and_body (ws : Worksheet) (r1 r2 c1 c2 : Z)
  : option (list string * list (list string)) :=
  detect_header_rows (region_rows ws r1 r2 c1 c2).

(** The condition on a header row in the words of the specification: the
    text-like cells of row [idx] are at least half of its cells, and the
    numeric-like cells of the next row at least a third of its cells. *)
Definition header_condition (rows : list (list string)) (idx : nat) : Prop :=
  exists row next_row,
    rows !! idx = Some row /\ rows !! S idx = Some next_row
    /\ length row <= 2 * text_count row
    /\ length next_row <= 3 * numericish_count next_row.

(** ** Formula references *)

(** The longest prefix of [s] whose characters satisfy [p], and the rest. *)
Fixpoint span (p : ascii -> bool) (s : string) : string * string :=
  match s with
  | EmptyString => (EmptyString, EmptyString)
  | String c rest =>
      if p c then let '(m, r) := span p rest in (String c m, r)
      else (EmptyString, s)
  end.

(** The same with at most [n] characters taken. *)
Fixpoint span_max (p : ascii -> bool) (n : nat) (s : string) : string * string :=
  match n, s with
  | S n', String c rest =>
      if p c then let '(m, r) := span_max p n' rest in (String c m, r)
      else (EmptyString, s)
  | _, _ => (EmptyString, s)
  end.

(** An optional dollar sign at the start of [s]. *)
Definition opt_dollar (s : string) : string * string :=
  match s with
  | String "$"%char rest => ("$", rest)
  | _ => (EmptyString, s)
  end.

(** A match of [[A-Za-z]{1,3}\$?\d+] at the start of [s]: the matched text
    and what follows it.  The greedy choices are the only ones that can
    succeed: after fewer letters the next character is a letter, and
    without the dollar sign the next character is the dollar sign. *)
Definition match_letters_digits (s : string) : option (string * string) :=
  let '(letters, r1) := span_max isalpha 3 s in
  if truthy letters then
    let '(dollar, r2) := opt_dollar r1 in
    let '(digits, r3) := span isdigit r2 in
    if truthy digits then Some ((letters ++ dollar ++ digits)%string, r3) else None
  else None.

(** A match of [\$?[A-Za-z]{1,3}\$?\d+] at the start of [s]. *)
Definition match_reference (s : string) : option (string * string) :=
  let '(dollar, r) := opt_dollar s in
  match match_letters_digits r with
  | Some (m, rest) => Some ((dollar ++ m)%string, rest)
  | None => None
  end.

(** [re.findall] for the pattern of [extract_references]: the scan moves
    from left to right and resumes after each match; [skip] counts the
    characters of the last match that are still to be passed. *)
Fixpoint findall_references (skip : nat) (s : string) : list string :=
  match s with
  | EmptyString => []
  | String c rest =>
      match skip with
      | S k => findall_references k rest
      | 0 =>
          match match_reference s with
          | Some (m, _) => m :: findall_references (String.length m - 1) rest
          | None => findall_references 0 rest
          end
      end
  end.

Definition extract_references (formula : string) : list string :=
  findall_references 0 formula.

(** ** Dependencies *)

(** [list(dict.fromkeys(l))]: a dictionary keeps its keys in the order of
    their first insertion, and setting a key that is present leaves its
    place unchanged. *)
Definition dict_fromkeys (l : list string) : list string :=
  foldl (fun keys k => if bool_decide (k ∈ keys) then keys else keys ++ [k]) [] l.

(** A match of [[A-Za-z]{1,3}\$?\d+:[A-Za-z]{1,3}\$?\d+] at the start. *)
Definition match_range (s : string) : option string :=
  match match_letters_digits s with
  | Some (a, String ":"%char rest) =>
      match match_letters_digits rest with
      | Some (b, _) => Some (a ++ ":" ++ b)%string
      | None => None
      end
  | _ => None
  end.

(** [re.search] for the range pattern: the leftmost match. *)
Fixpoint search_range (s : string) : option string :=
  match s with
  | EmptyString => None
  | String _ rest =>
      match match_range s with
      | Some m => Some m
      | None => search_range rest
      end
  end.

(** The dependency list of one formula cell.  [inputs] is the key list of
    [cell_obj.inputs] when the formula model has the cell and the list is
    not empty, and [None] otherwise. *)
Definition formula_dependencies (inputs : option (list string)) (formula : string)
  : list string :=
  match inputs with
  | Some deps =>
      dict_fromkeys
        (map (fun d => match search_range d with Some m => m | None => d end) deps)
  | None => dict_fromkeys (extract_references formula)
  end.

(** The list without its repeats, each entry at the place of its first
    occurrence: the words of the specification. *)
Fixpoint first_occurrences (l : list string) : list string :=
  match l with
  | [] => []
  | x :: rest => x :: List.filter (fun y => negb (String.eqb x y)) (first_occurrences rest)
  end.

(** A sheet whose four cells A1:B2 form the declared table [Sales]. *)
Definition sales_table : Table :=
  mkTable (1, 1, 2, 2)%Z "Sales" [Some "Date"; Some "Amount"].

Definition sheet_sales : Worksheet :=
  mkWorksheet "S"
    [[Some (VStr "Date"); Some (VStr "Amount")];
     [Some (VStr "Mon"); Some (VInt 3)]]
    2 (fun _ => false) (fun _ => false) [] [sales_table].

(** ** Table registry *)

(** One entry of the table report as the annotator reads it back: the
    bounds and the header list (key [headers] of an explicit entry, key
    [header] of an implicit one). *)
Record TableEntry := mkTableEntry {
  t_r1 : Z; t_c1 : Z; t_r2 : Z; t_c2 : Z;
  t_headers : list string
}.

(** The report of one sheet. *)
Record SheetTables := mkSheetTables {
  explicit_tables : list TableEntry;
  implicit_tables : list TableEntry
}.

(** The report: sheet name to tables. *)
Abbreviation TableInfo := (gmap string SheetTables).

(** [s.replace("$", "")] *)
Fixpoint remove_dollars (s : string) : string :=
  match s with
  | EmptyString => EmptyString
  | String c rest =>
      if Ascii.eqb c "$" then remove_dollars rest else String c (remove_dollars rest)
  end.

(** [int(digits)].  CPython from version 3.11 on refuses, by default, a
    text of more than 4300 digits; this definition has no such limit, and
    is [int] on the texts of at most 4300 digits. *)
Definition int_of_digits (digits : string) : Z :=
  (fix go (acc : Z) (s : string) : Z :=
     match s with
     | EmptyString => acc
     | String c rest => go (10 * acc + (Z.of_nat (nat_of_ascii c) - 48))%Z rest
     end) 0%Z digits.

(** [ch.upper()] on ASCII. *)
Definition upper (c : ascii) : ascii :=
  let n := nat_of_ascii c in
  if (97 <=? n) && (n <=? 122) then ascii_of_nat (n - 32) else c.

(** openpyxl's [column_index_from_string]: the letters, upper-cased, read
    as a number in the base-26 system without zero.  Every word of one to
    three letters has a column. *)
Definition column_index_from_string (col : string) : Z :=
  (fix go (acc : Z) (s : string) : Z :=
     match s with
     | EmptyString => acc
     | String c rest =>
         go (26 * acc + (Z.of_nat (nat_of_ascii (upper c)) - 64))%Z rest
     end) 0%Z col.

(** openpyxl's [coordinate_from_string]: the text must match
    [^[$]?([A-Za-z]{1,3})[$]?(\d+)$] and the row must not be 0; [None] is
    the exception raised otherwise.  This definition is the library's
    function on the texts that do not end with a line feed, which the
    pattern lets pass, and whose row has at most 4300 digits (see
    [int_of_digits]). *)
Definition coordinate_from_string (coord : string) : option (string * Z) :=
  let '(_, r0) := opt_dollar coord in
  let '(letters, r1) := span_max isalpha 3 r0 in
  let '(_, r2) := opt_dollar r1 in
  let '(digits, r3) := span isdigit r2 in
  if truthy letters && truthy digits && negb (truthy r3) then
    let row := int_of_digits digits in
    if (row =? 0)%Z then None else Some (letters, row)
  else None.

(** One of the two loops of [find_header_for_cell]: the first table that
    holds the cell and has a header at the cell's column. *)
Fixpoint header_among (tables : list TableEntry) (row_idx col_idx : Z)
  : option string :=
  match tables with
  | [] => None
  | t :: rest =>
      if (t_r1 t <=? row_idx)%Z && (row_idx <=? t_r2 t)%Z
         && (t_c1 t <=? col_idx)%Z && (col_idx <=? t_c2 t)%Z
      then
        match t_headers t !! Z.to_nat (col_idx - t_c1 t) with
        | Some h => Some h
        | None => header_among rest row_idx col_idx
        end
      else header_among rest row_idx col_idx
  end.

Definition find_header_for_cell (sheet_name cell_ref : string)
    (table_info : TableInfo) : option string :=
  match coordinate_from_string (remove_dollars cell_ref) with
  | None => None
  | Some (col, row_idx) =>
      let col_idx := column_index_from_string col in
      match table_info !! sheet_name with
      | None => None
      | Some tables =>
          match header_among (explicit_tables tables) row_idx col_idx with
          | Some h => Some h
          | None => header_among (implicit_tables tables) row_idx col_idx
          end
      end
  end.

(** ** Formula annotation *)

(** A character of the class [[A-Za-z0-9_]]. *)
Definition word_char (c : ascii) : bool :=
  isalpha c || isdigit c || Ascii.eqb c "_".

(** The tests [(?<![A-Za-z0-9_])] and [(?![A-Za-z0-9_])] on the character
    next to the match, if there is one. *)
Definition boundary (c : option ascii) : bool :=
  match c with
  | None => true
  | Some c => negb (word_char c)
  end.

Definition first_char (s : string) : option ascii :=
  match s with
  | EmptyString => None
  | String c _ => Some c
  end.

(** What follows [p] in [s] when [s] starts with [p]. *)
Fixpoint strip_prefix (p s : string) : option string :=
  match p, s with
  | EmptyString, _ => Some s
  | String a p', String b s' =>
      if Ascii.eqb a b then strip_prefix p' s' else None
  | String _ _, EmptyString => None
  end.

(** The pattern of [annotate_formula] matches at the start of [s], where
    [prev] is the character before [s]. *)
Definition matches_here (ref : string) (prev : option ascii) (s : string) : bool :=
  boundary prev
  && match strip_prefix ref s with
     | Some rest => boundary (first_char rest)
     | None => false
     end.

(** [re.sub] with that pattern and a replacement text without backslash:
    the scan goes from left to right and resumes after each match;
    [skip] counts the characters of the last match still to be passed. *)
Fixpoint sub_scan (ref repl : string) (prev : option ascii) (skip : nat)
    (s : string) : string :=
  match s with
  | EmptyString => EmptyString
  | String c rest =>
      match skip with
      | S k => sub_scan ref repl (Some c) k rest
      | 0 =>
          if matches_here ref prev s
          then (repl ++ sub_scan ref repl (Some c) (String.length ref - 1) rest)%string
          else String c (sub_scan ref repl (Some c) 0 rest)
      end
  end.

Definition sub_bounded (ref repl text : string) : string :=
  sub_scan ref repl None 0 text.

(** [sorted(refs, key=len, reverse=True)]: the sort is stable, so that a
    reference stays before the later ones of its length. *)
Fixpoint insert_by_length (x : string) (l : list string) : list string :=
  match l with
  | [] => [x]
  | y :: rest =>
      if String.length y <=? String.length x then x :: l
      else y :: insert_by_length x rest
  end.

Definition sort_by_length_desc (l : list string) : list string :=
  foldr insert_by_length [] l.

Definition has_backslash (s : string) : bool :=
  any_char (fun c => Ascii.eqb c "\"%char) s.

(** One turn of the loop of [annotate_formula].  [re.sub] reads a
    backslash in its replacement as an escape; a header with a backslash
    is outside this model, and the result is then [None]. *)
Definition annotate_step (sheet_name : string) (table_info : TableInfo)
    (annotated : option string) (ref : string) : option string :=
  match annotated with
  | None => None
  | Some text =>
      match find_header_for_cell sheet_name ref table_info with
      | Some header =>
          if truthy header then
            if has_backslash header then None
            else Some (sub_bounded ref ("[" ++ header ++ "]")%string text)
          else Some text
      | None => Some text
      end
  end.

(** [set_order l] is the order in which Python iterates over [set(l)];
    the language leaves it open, and only asks for each member once. *)
Definition annotate_formula (set_order : list string -> list string)
    (formula sheet_name : string) (table_info : TableInfo) : option string :=
  let refs := set_order (extract_references formula) in
  let refs_sorted := sort_by_length_desc refs in
  foldl (annotate_step sheet_name table_info) (Some formula) refs_sorted.

(** An iteration order of sets. *)
Definition set_iteration (set_order : list string -> list string) : Prop :=
  forall l, set_order l ≡ₚ remove_dups l.

(** Every character is of the class [[A-Za-z0-9_]]. *)
Fixpoint all_word (s : string) : bool :=
  match s with
  | EmptyString => true
  | String c rest => word_char c && all_word rest
  end.

(** The text is not empty and its last character is outside the class. *)
Fixpoint ends_nonword (s : string) : bool :=
  match s with
  | EmptyString => false
  | String c EmptyString => negb (word_char c)
  | String _ rest => ends_nonword rest
  end.

(** The last character of [s], or [prev] for the empty text. *)
Fixpoint last_char (prev : option ascii) (s : string) : option ascii :=
  match s with
  | EmptyString => prev
  | String c rest => last_char (Some c) rest
  end.

(** A registry with one table on A1:AA10 whose header for column A is
    [Qty] and for column AA is [Total]. *)
Definition registry_qty_total : TableInfo :=
  {[ "Sheet1" :=
       mkSheetTables
         [mkTableEntry 1 1 10 27 ("Qty" :: replicate 25 "x" ++ ["Total"])] [] ]}.

(** [a] may come before [b] in an order of decreasing length. *)
Definition longer_first (a b : string) : Prop :=
  String.length b <= String.length a.

(** ** Island segmentation *)

(** The [while stack:] loop of the local function [flood].  The stack is
    kept with its top first, so that [stack.extend([a, b, c, d])] puts
    [d; c; b; a] in front.  [fuel] bounds the number of turns. *)
Fixpoint flood_loop (fuel : nat) (grid : Grid) (stack : list (Z * Z))
    (visited : Grid) (box : BBox) : option (Grid * BBox) :=
  match stack with
  | [] => Some (visited, box)
  | (i, j) :: rest =>
      match fuel with
      | 0 => None
      | S fuel' =>
          if ((i <? 0) || (Z.of_nat (nrows grid) <=? i)
              || (j <? 0) || (Z.of_nat (ncols grid) <=? j))%Z
          then flood_loop fuel' grid rest visited box
          else if grid_get visited (Z.to_nat i) (Z.to_nat j)
                  || negb (grid_get grid (Z.to_nat i) (Z.to_nat j))
          then flood_loop fuel' grid rest visited box
          else
            let '(min_r, max_r, min_c, max_c) := box in
            flood_loop fuel' grid
              ((i, j - 1) :: (i, j + 1) :: (i - 1, j) :: (i + 1, j) :: rest)%Z
              (grid_set visited (Z.to_nat i) (Z.to_nat j) true)
              (Z.min min_r i, Z.max max_r i, Z.min min_c j, Z.max max_c j)
      end
  end.

(** A bound on the turns of the loop: every turn pops one entry, and four
    entries are pushed for each cell visited. *)
Definition flood_budget (grid : Grid) : nat :=
  4 * (nrows grid * ncols grid) + 1.

(** [flood(r, c)]: the new [visited] and [(min_r, max_r, min_c, max_c)]. *)
Definition flood (grid visited : Grid) (r c : Z) : option (Grid * BBox) :=
  flood_loop (flood_budget grid) grid [(r, c)] visited (r, r, c, c).

(** Body of the two [for] loops of [flood_fill_islands]. *)
Definition island_step (grid : Grid) (min_rows min_cols : Z) (i : nat)
    (st : option (Grid * list BBox)) (j : nat) : option (Grid * list BBox) :=
  match st with
  | None => None
  | Some (visited, islands) =>
      if grid_get grid i j && negb (grid_get visited i j) then
        match flood grid visited (Z.of_nat i) (Z.of_nat j) with
        | None => None
        | Some (visited', (min_r, max_r, min_c, max_c)) =>
            let height := (max_r - min_r + 1)%Z in
            let width := (max_c - min_c + 1)%Z in
            if ((min_rows <=? height) && (min_cols <=? width))%Z
            then Some (visited',
                       islands ++ [(min_r + 1, max_r + 1, min_c + 1, max_c + 1)%Z])
            else Some (visited', islands)
        end
      else st
  end.

Definition flood_fill_state (grid : Grid) (min_rows min_cols : Z)
  : option (Grid * list BBox) :=
  foldl (fun st i =>
           foldl (island_step grid min_rows min_cols i) st (seq 0 (ncols grid)))
        (Some (zeros (nrows grid) (ncols grid), []))
        (seq 0 (nrows grid)).

Definition flood_fill_islands (grid : Grid) (min_rows min_cols : Z)
  : option (list BBox) :=
  snd <$> flood_fill_state grid min_rows min_cols.

(** ** The table report *)

Definition header_rejected (s : string) : bool :=
  negb (truthy s) || starts_with_bracket s || negb (any_char isalpha s).

(** The first loop of [sanitize_table_headers_from_tableobj], over the
    declared columns. *)
Definition declared_headers (cols : list (option string)) : list string :=
  omap (fun name : option string =>
          match name with
          | None => None
          | Some name =>
              if truthy name then
                let s := strip name in
                if header_rejected s then None else Some s
              else None
          end) cols.

(** The second loop, over the first row of the range. *)
Definition first_row_headers (ws : Worksheet) (r1 c1 c2 : Z) : list string :=
  omap (fun j =>
          if column_hidden ws (Z.to_nat j) then None
          else
            let s := cell_text (get_merged_cell_value ws r1 j) in
            if header_rejected s then None else Some s)
       (py_range_incl c1 c2).

Definition sanitize_table_headers_from_tableobj (ws : Worksheet)
    (table_obj : Table) (r1 c1 r2 c2 : Z) : list string :=
  match declared_headers (tableColumns table_obj) with
  | (_ :: _) as headers => headers
  | [] => first_row_headers ws r1 c1 c2
  end.

(** openpyxl's [get_column_letter] on the columns 1 to 18278, the ones it
    can name; a sheet has no other. *)
Fixpoint column_letter_loop (fuel : nat) (col_idx : Z) (letters : string) : string :=
  match fuel with
  | 0 => letters
  | S fuel' =>
      if (col_idx <=? 0)%Z then letters
      else
        let q := (col_idx / 26)%Z in
        let r := (col_idx mod 26)%Z in
        let '(q, r) := if (r =? 0)%Z then ((q - 1)%Z, 26%Z) else (q, r) in
        column_letter_loop fuel' q
          (String (ascii_of_nat (Z.to_nat (r + 64))) letters)
  end.

Definition get_column_letter (col_idx : Z) : string :=
  column_letter_loop 3 col_idx EmptyString.

Definition bbox_to_range_str (r1 r2 c1 c2 : Z) : string :=
  (get_column_letter c1 ++ pretty r1 ++ ":" ++ get_column_letter c2 ++ pretty r2)%string.

(** An entry of [explicit_tables]. *)
Record ExplicitTable := mkExplicitTable {
  et_name : string;
  et_table_name : string;
  et_range : string;
  et_headers : list string;
  et_r1 : Z; et_c1 : Z; et_r2 : Z; et_c2 : Z
}.

(** An entry of [implicit_tables]. *)
Record ImplicitTable := mkImplicitTable {
  it_table_name : string;
  it_range : string;
  it_r1 : Z; it_c1 : Z; it_r2 : Z; it_c2 : Z;
  it_header : list string
}.

Record SheetReport := mkSheetReport {
  rep_explicit : list ExplicitTable;
  rep_implicit : list ImplicitTable
}.

(** [f"Table {table_counter}"] *)
Definition table_label (table_counter : nat) : string :=
  ("Table " ++ pretty table_counter)%string.

(** The loop over the explicit regions; the counter starts at 1. *)
Definition explicit_entries (ws : Worksheet) (explicit : list ExplicitRegion)
  : list ExplicitTable :=
  imap (fun k (reg : ExplicitRegion) =>
          let '(r1, c1, r2, c2, name, table_obj) := reg in
          let headers := sanitize_table_headers_from_tableobj ws table_obj r1 c1 r2 c2 in
          let effective_name := if truthy name then name else table_label (S k) in
          mkExplicitTable name effective_name (bbox_to_range_str r1 r2 c1 c2)
            headers r1 c1 r2 c2)
       explicit.

(** [[h for h in header if h and not str(h).startswith("[")]] *)
Definition filter_implicit_header (header : list string) : list string :=
  List.filter (fun h => truthy h && negb (starts_with_bracket h)) header.

(** One turn of the loop over the implicit boxes; [None] is the
    [IndexError] of a box with no row. *)
Definition implicit_entry (ws : Worksheet) (table_counter : nat) (box : BBox)
  : option ImplicitTable :=
  let '(r1, r2, c1, c2) := box in
  match detect_header_and_body ws r1 r2 c1 c2 with
  | None => None
  | Some (header, _) =>
      Some (mkImplicitTable (table_label table_counter)
              (bbox_to_range_str r1 r2 c1 c2) r1 c1 r2 c2
              (filter_implicit_header header))
  end.

(** All the turns: the counter goes on from [first]. *)
Fixpoint implicit_entries (ws : Worksheet) (first : nat) (boxes : list BBox)
  : option (list ImplicitTable) :=
  match boxes with
  | [] => Some []
  | box :: rest =>
      match implicit_entry ws first box, implicit_entries ws (S first) rest with
      | Some e, Some es => Some (e :: es)
      | _, _ => None
      end
  end.

(** The boxes of the implicit tables of a sheet. *)
Definition implicit_boxes (fuel : nat) (ws : Worksheet) : option (list BBox) :=
  let explicit := get_explicit_table_regions ws in
  let grid := build_grid_excluding_explicit ws explicit in
  match flood_fill_islands grid 2 2 with
  | None => None
  | Some islands => extend_all (split_bbox_on_empty_lines fuel grid) islands
  end.

(** The part of [generate_table_report] for one sheet.  [fuel] is the
    recursion budget of the splitting. *)
Definition sheet_report (fuel : nat) (ws : Worksheet) : option SheetReport :=
  let explicit := get_explicit_table_regions ws in
  match implicit_boxes fuel ws with
  | None => None
  | Some boxes =>
      match implicit_entries ws (S (length explicit)) boxes with
      | None => None
      | Some implicit =>
          Some (mkSheetReport (explicit_entries ws explicit) implicit)
      end
  end.

(** What the annotator reads back from the report of a sheet. *)
Definition tables_of_report (rep : SheetReport) : SheetTables :=
  mkSheetTables
    (map (fun e => mkTableEntry (et_r1 e) (et_c1 e) (et_r2 e) (et_c2 e) (et_headers e))
         (rep_explicit rep))
    (map (fun t => mkTableEntry (it_r1 t) (it_c1 t) (it_r2 t) (it_c2 t) (it_header t))
         (rep_implicit rep)).

(** A header entry that passes the three tests of the header filter. *)
Definition header_ok (h : string) : Prop :=
  h <> EmptyString /\ starts_with_bracket h = false /\ any_char isalpha h = true.

(** The header filter in the words of the specification: it holds of the
    header list of every region, explicit or implicit. *)
Definition header_filter_as_specified (rep : SheetReport) : Prop :=
  (forall e, e ∈ rep_explicit rep -> forall h, h ∈ et_headers e -> header_ok h)
  /\ (forall t, t ∈ rep_implicit rep -> forall h, h ∈ it_header t -> header_ok h).

(** A sheet holding a two-by-two block of numbers and nothing else. *)
Definition sheet_numbers : Worksheet :=
  mkWorksheet "S"
    [[Some (VInt 1); Some (VInt 2)]; [Some (VInt 3); Some (VInt 4)]]
    2 (fun _ => false) (fun _ => false) [] [].

(** A sheet with the declared table [Sales] on A1:B2 and, below an empty
    row, an undeclared two-by-two block. *)
Definition sheet_mixed : Worksheet :=
  mkWorksheet "S"
    [[Some (VStr "Date"); Some (VStr "Amount")];
     [Some (VStr "Mon"); Some (VInt 3)];
     [None; None];
     [Some (VStr "Item"); Some (VStr "Qty")];
     [Some (VStr "Bolt"); Some (VInt 7)]]
    2 (fun _ => false) (fun _ => false) [] [sales_table].

(** The box of an entry of the report. *)
Definition explicit_box (e : ExplicitTable) : BBox :=
  (et_r1 e, et_r2 e, et_c1 e, et_c2 e).

Definition implicit_box (t : ImplicitTable) : BBox :=
  (it_r1 t, it_r2 t, it_c1 t, it_c2 t).

(** All the regions of a sheet's report, explicit ones first. *)
Definition report_regions (rep : SheetReport) : list BBox :=
  map explicit_box (rep_explicit rep) ++ map implicit_box (rep_implicit rep).

(** The non-overlap invariant in the words of the specification. *)
Definition regions_disjoint_as_specified (rep : SheetReport) : Prop :=
  (forall e t, e ∈ rep_explicit rep -> t ∈ rep_implicit rep ->
               bbox_disjoint (implicit_box t) (explicit_box e))
  /\ (forall i j a b, i <> j ->
        report_regions rep !! i = Some a -> report_regions rep !! j = Some b ->
        bbox_disjoint a b).

(** A sheet filled on A1:C4 whose cells B2:B3 are a declared table: the
    cells left to the grid form a ring around the table. *)
Definition sheet_ring : Worksheet :=
  mkWorksheet "S"
    [[Some (VStr "a"); Some (VStr "b"); Some (VStr "c")];
     [Some (VInt 1); Some (VStr "Name"); Some (VInt 2)];
     [Some (VInt 3); Some (VStr "Ann"); Some (VInt 4)];
     [Some (VInt 5); Some (VInt 6); Some (VInt 7)]]
    3 (fun _ => false) (fun _ => false) []
    [mkTable (2, 2, 2, 3)%Z "People" [Some "Name"]].

(** Number of [True] entries of a matrix. *)
Definition true_count (g : Grid) : nat := sum_list (map bool_sum (cells g)).

(** What every island collected by the flood fill satisfies. *)
(** The box ends on the sheet of [R] rows and [C] columns. *)
Definition bbox_on_sheet (R C : nat) (b : BBox) : Prop :=
  let '(r1, r2, c1, c2) := b in
  (r2 <= Z.of_nat R)%Z /\ (c2 <= Z.of_nat C)%Z.

(** What every island collected by the flood fill satisfies. *)
Definition island_ok (grid : Grid) (b : BBox) : Prop :=
  bbox_valid b /\ has_cell grid b /\ bbox_on_sheet (nrows grid) (ncols grid) b.

(** A sheet with two hooks of three cells each, touching only at a
    corner: A1, B1, A2 and C2, B3, C3. *)
Definition sheet_hooks : Worksheet :=
  mkWorksheet "S"
    [[Some (VStr "a"); Some (VStr "b"); None];
     [Some (VInt 1); None; Some (VStr "c")];
     [None; Some (VInt 2); Some (VInt 3)]]
    3 (fun _ => false) (fun _ => false) [] [].

(** No row of the box is empty in the grid; no column is. *)
Definition rows_full (grid : Grid) (b : BBox) : Prop :=
  let '(r1, r2, c1, c2) := b in
  forall r, (r1 <= r <= r2)%Z ->
            exists c, (c1 <= c <= c2)%Z /\ grid_at grid r c = true.

Definition cols_full (grid : Grid) (b : BBox) : Prop :=
  let '(r1, r2, c1, c2) := b in
  forall c, (c1 <= c <= c2)%Z ->
            exists r, (r1 <= r <= r2)%Z /\ grid_at grid r c = true.

(** ** Vocabulary of the flood fill *)

(** What the loop of [flood] keeps, in 0-based coordinates: every row and
    every column of the box so far holds a marked cell of the box, and
    every entry of the stack is within one step of the box. *)
Definition flood_inv (grid : Grid) (stack : list (Z * Z)) (box : BBox) : Prop :=
  let '(min_r, max_r, min_c, max_c) := box in
  (forall i, (min_r <= i <= max_r)%Z ->
             exists j, (min_c <= j <= max_c)%Z /\ grid_at grid (i + 1) (j + 1) = true)
  /\ (forall j, (min_c <= j <= max_c)%Z ->
                exists i, (min_r <= i <= max_r)%Z /\ grid_at grid (i + 1) (j + 1) = true)
  /\ Forall (fun p : Z * Z =>
               (min_r - 1 <= p.1 <= max_r + 1)%Z /\ (min_c - 1 <= p.2 <= max_c + 1)%Z)
            stack.

(** The size test of [flood_fill_islands] on a 1-based box. *)
Definition island_size_ok (min_rows min_cols : Z) (b : BBox) : Prop :=
  let '(r1, r2, c1, c2) := b in
  (min_rows <= r2 - r1 + 1)%Z /\ (min_cols <= c2 - c1 + 1)%Z.

(** ** Vocabulary of the lookups *)

(** The 1-based cell [(row, col)] lies in the merged range of bounds [m],
    given as [(min_col, min_row, max_col, max_row)]. *)
Definition in_merge (m : Z * Z * Z * Z) (row col : Z) : Prop :=
  let '(min_col, min_row, max_col, max_row) := m in
  (min_row <= row <= max_row)%Z /\ (min_col <= col <= max_col)%Z.

(** [all(p(ch) for ch in s)] *)
Fixpoint all_char (p : ascii -> bool) (s : string) : bool :=
  match s with
  | EmptyString => true
  | String c rest => p c && all_char p rest
  end.

(** The table holds the cell and its header list has an entry at the
    cell's column offset: what each loop of [find_header_for_cell] looks
    for. *)
Definition header_found (t : TableEntry) (row_idx col_idx : Z) (h : string) : Prop :=
  (t_r1 t <= row_idx <= t_r2 t)%Z /\ (t_c1 t <= col_idx <= t_c2 t)%Z
  /\ t_headers t !! Z.to_nat (col_idx - t_c1 t) = Some h.

(** A registry with one table on A1:Q5 whose header for column B reads
    like a cell reference. *)
Definition registry_quarters : TableInfo :=
  {[ "Sheet1" :=
       mkSheetTables
         [mkTableEntry 1 1 5 17 ("Region" :: "Q1" :: replicate 14 "x" ++ ["Total"])]
         [] ]}.

(** The character after a run stops the run. *)
Definition stops (p : ascii -> bool) (r : string) : Prop :=
  match r with
  | EmptyString => True
  | String c _ => p c = false
  end.

(** Two iteration orders of sets: first occurrences first, and the
    reverse of that. *)
Definition order_forward (l : list string) : list string := remove_dups l.

Definition order_backward (l : list string) : list string := rev (remove_dups l).

(** The loop of [int]: the value of the digits read after [acc]. *)
Fixpoint digits_value (acc : Z) (s : string) : Z :=
  match s with
  | EmptyString => acc
  | String c rest => digits_value (10 * acc + (Z.of_nat (nat_of_ascii c) - 48))%Z rest
  end.

(** The columns [get_column_letter] can name. *)
Definition column_range : list Z := seqZ 1 18278.

(** ** Storing table data (data_store.py) *)

(** A Python [dict] with text keys, as the list of its items in the order
    of insertion.  [dict_get] is [d.get(k)]; [dict_set] is [d[k] = v],
    which keeps the place of a key that is present. *)
Fixpoint dict_get {V} (k : string) (d : list (string * V)) : option V :=
  match d with
  | [] => None
  | (k', v) :: rest => if String.eqb k' k then Some v else dict_get k rest
  end.

Fixpoint dict_set {V} (k : string) (v : V) (d : list (string * V))
  : list (string * V) :=
  match d with
  | [] => [(k, v)]
  | (k', v') :: rest =>
      if String.eqb k' k then (k', v) :: rest else (k', v') :: dict_set k v rest
  end.

Section DataRows.

(** What lines 291-295 of [extract_data_from_excel] make of a value that
    is not [None]: a date becomes its [isoformat()] text, a value of a
    type other than [str], [int], [float] and [bool] its [str()] text, and
    the others stay. *)
Variable serializable : CellValue -> CellValue.

(** The inner loop, [for col_offset, header in enumerate(headers)]:
    [row_dict] and [is_empty] after it.  The merge lookup is the local
    copy of [get_merged_cell_value], which reads as the one of
    table_extraction.py. *)
Definition data_row (ws : Worksheet) (row_idx c1 : Z) (headers : list string)
  : list (string * option CellValue) * bool :=
  foldl (fun (st : list (string * option CellValue) * bool) '(col_offset, header) =>
           let '(row_dict, is_empty) := st in
           let col_idx := (c1 + Z.of_nat col_offset)%Z in
           match get_merged_cell_value ws row_idx col_idx with
           | Some value => (dict_set header (Some (serializable value)) row_dict, false)
           | None => (dict_set header None row_dict, is_empty)
           end)
        ([], true) (imap pair headers).

(** [extract_data_from_excel(ws, r1, r2, c1, c2, headers)], for the ranges
    of a table report, whose rows and columns start at 1. *)
Definition extract_data_from_excel (ws : Worksheet) (r1 r2 c1 c2 : Z)
    (headers : list string) : list (list (string * option CellValue)) :=
  foldl (fun data_rows row_idx =>
           if row_hidden ws (Z.to_nat row_idx) then data_rows
           else
             let '(row_dict, is_empty) := data_row ws row_idx c1 headers in
             if is_empty then data_rows else data_rows ++ [row_dict])
        [] (seqZ (r1 + 1) (r2 + 1 - (r1 + 1))).

End DataRows.

(** Some cell of the row, among the first [n] columns from [c1], holds a
    value. *)
Definition row_has_value (ws : Worksheet) (row_idx c1 : Z) (n : nat) : Prop :=
  exists k, k < n /\ is_Some (get_merged_cell_value ws row_idx (c1 + Z.of_nat k)).

(** The header at place [k] does not come again after [k]. *)
Definition last_place (headers : list string) (k : nat) (h : string) : Prop :=
  headers !! k = Some h /\ forall k', k < k' -> headers !! k' <> Some h.

(** ** Storing formulas (data_store.py) *)

(** [s.replace(c, repl)] for a pattern of one character. *)
Fixpoint replace_char (c : ascii) (repl s : string) : string :=
  match s with
  | EmptyString => EmptyString
  | String x rest =>
      if Ascii.eqb x c then (repl ++ replace_char c repl rest)%string
      else String x (replace_char c repl rest)
  end.

(** The line feed. *)
Definition newline : ascii := "010"%char.

(** [escape_csv(val)], the local function of
    [extract_and_store_formulas_from_json], on a text or [None]. *)
Definition escape_csv (val : option string) : string :=
  match val with
  | None => "\N"
  | Some v =>
      replace_char "|" "\|"
        (replace_char newline "\n" (replace_char "\" "\\" v))
  end.

(** How the text format of [COPY] with the separator [|] reads the first
    field of a line: a backslash takes the next character with it, [\n]
    standing for the line feed and [\\], [\|] for the second character; a
    bar outside such a pair ends the field.  The result is the text of
    the field and what follows its bar, if there is one.  The other pairs
    of the format ([\t], [\r] and the like) are read here as their second
    character: [escape_csv] writes none of them.  A carriage return, which
    [escape_csv] leaves as it is, is an ordinary character here. *)
Fixpoint copy_read_field (s : string) : string * option string :=
  match s with
  | EmptyString => (EmptyString, None)
  | String c rest =>
      if Ascii.eqb c "\" then
        match rest with
        | EmptyString => (String c EmptyString, None)
        | String e rest' =>
            let '(field, after) := copy_read_field rest' in
            (String (if Ascii.eqb e "n" then newline else e) field, after)
        end
      else if Ascii.eqb c "|" then (EmptyString, Some rest)
      else
        let '(field, after) := copy_read_field rest in
        (String c field, after)
  end.

(** What the three replacements of [escape_csv] make of one character. *)
Definition escape_char (c : ascii) : string :=
  if Ascii.eqb c "\" then "\\"
  else if Ascii.eqb c newline then "\n"
  else if Ascii.eqb c "|" then "\|"
  else String c EmptyString.

(** ** Grouping formulas (doc_llm_unique.py) *)

(** The [context] of a formula object. *)
Record Context := mkContext {
  ctx_sheet : option string;
  ctx_cell_address : option string;
  ctx_value : option CellValue
}.

(** A formula object of the formulas report, as [json.load] returns it;
    a field is [None] when the object has no such key.  The objects that
    [extract_formulas] writes have them all, with texts under [cell],
    [formula] and [readable_formula]. *)
Record FormulaObj := mkFormulaObj {
  fo_cell : option string;
  fo_formula : option string;
  fo_readable_formula : option string;
  fo_dependencies : option (list string);
  fo_context : option Context
}.

(** The key under which [group_formulas_by_pattern] files an object. *)
Definition pattern_key (formula_obj : FormulaObj) : string :=
  let formula := default "" (fo_formula formula_obj) in
  let readable := default "" (fo_readable_formula formula_obj) in
  if truthy readable && negb (String.eqb readable formula) then readable
  else formula.

(** [group_formulas_by_pattern]: [pattern_groups] is a [defaultdict(list)],
    so that [pattern_groups[k].append(x)] starts from the empty list when
    the key is new. *)
Definition group_formulas_by_pattern (formulas : list FormulaObj)
  : list (string * list FormulaObj) :=
  foldl (fun pattern_groups formula_obj =>
           let k := pattern_key formula_obj in
           dict_set k (default [] (dict_get k pattern_groups) ++ [formula_obj])
                    pattern_groups)
        [] formulas.

(** An entry of the list of [create_unique_formula_summary]. *)
Record UniqueFormula := mkUniqueFormula {
  uf_pattern : string;
  uf_formula_example : string;
  uf_readable_formula : string;
  uf_cells : list string;
  uf_occurrence_count : nat;
  uf_dependencies : list string;
  uf_context : option Context
}.

(** One turn of the loop of [create_unique_formula_summary]; [None] is
    the [IndexError] of [instances[0]] or the [KeyError] of [inst['cell']]
    or [representative['formula']]. *)
Definition unique_formula (pattern : string) (instances : list FormulaObj)
  : option UniqueFormula :=
  match instances with
  | [] => None
  | representative :: _ =>
      match mapM fo_cell instances with
      | None => None
      | Some cells =>
          match fo_formula representative with
          | None => None
          | Some formula =>
              Some (mkUniqueFormula pattern formula
                      (default pattern (fo_readable_formula representative))
                      cells (length instances)
                      (default [] (fo_dependencies representative))
                      (fo_context representative))
          end
      end
  end.

Definition create_unique_formula_summary
    (pattern_groups : list (string * list FormulaObj))
  : option (list UniqueFormula) :=
  mapM (fun '(pattern, instances) => unique_formula pattern instances)
       pattern_groups.

(** [formula.get('context', {}).get('sheet', 'Unknown')] *)
Definition sheet_key (formula : FormulaObj) : string :=
  match fo_context formula with
  | Some context => default "Unknown" (ctx_sheet context)
  | None => "Unknown"
  end.

Definition group_by_sheet (formulas : list FormulaObj)
  : list (string * list FormulaObj) :=
  foldl (fun sheets formula =>
           let sheet_name := sheet_key formula in
           let sheets :=
             if bool_decide (sheet_name ∈ map fst sheets) then sheets
             else dict_set sheet_name [] sheets in
           dict_set sheet_name (default [] (dict_get sheet_name sheets) ++ [formula])
                    sheets)
        [] formulas.

(** The grouping of a list by a key, said without a loop: one group for
    each key, the keys in the order of their first occurrence, and in each
    group the entries of that key in the order of the list. *)
Definition groups_of {A} (key : A -> string) (l : list A) : list (string * list A) :=
  map (fun k => (k, List.filter (fun x => String.eqb (key x) k) l))
      (dict_fromkeys (map key l)).

(** Three formula objects, two of them with the same readable formula. *)
Definition formulas_three : list FormulaObj :=
  [mkFormulaObj (Some "C2") (Some "=A2-B2") (Some "=[Actual]-[Budget]")
     (Some ["A2"; "B2"]) (Some (mkContext (Some "P&L") (Some "C2") (Some (VInt 4))));
   mkFormulaObj (Some "D9") (Some "=SUM(D2:D8)") (Some "=SUM(D2:D8)")
     (Some ["D2:D8"]) (Some (mkContext (Some "P&L") (Some "D9") (Some (VInt 9))));
   mkFormulaObj (Some "C3") (Some "=A3-B3") (Some "=[Actual]-[Budget]")
     (Some ["A3"; "B3"]) (Some (mkContext (Some "P&L") (Some "C3") (Some (VInt 5))))].

(** ** Vocabulary of the two counterexamples *)

(** The quotation mark. *)
Definition quotation_mark : ascii := "034"%char.

(** The formula that joins the text constant [cost$A1] to the cell A1:
    an equals sign, the constant between quotation marks, [&A1]. *)
Definition formula_cost : string :=
  ("=" ++ String quotation_mark "cost$A1" ++ String quotation_mark "&A1")%string.

(** The same with [A1] replaced by [[Qty]] at both places. *)
Definition formula_cost_annotated : string :=
  ("=" ++ String quotation_mark "cost$[Qty]"
       ++ String quotation_mark "&[Qty]")%string.


(** * Properties *)

(** ** Matrices *)

Lemma grid_get_zeros R C i j : grid_get (zeros R C) i j = false.
Proof.
  unfold grid_get, zeros; simpl.
  destruct (replicate R (replicate C false) !! i) as [row|] eqn:E; [|done].
  apply lookup_replicate in E as [-> _].
  destruct (replicate C false !! j) as [b|] eqn:E'; [|done].
  by apply lookup_replicate in E' as [-> _].
Qed.

Lemma grid_wf_zeros R C : grid_wf (zeros R C).
Proof.
  unfold grid_wf, zeros; simpl. apply Forall_forall. intros row Hin.
  apply elem_of_replicate in Hin as [-> _]. apply length_replicate.
Qed.

Lemma nrows_zeros R C : nrows (zeros R C) = R.
Proof. unfold nrows, zeros; simpl. apply length_replicate. Qed.

Lemma nrows_grid_set g i j v : nrows (grid_set g i j v) = nrows g.
Proof. unfold nrows, grid_set; simpl. apply length_alter. Qed.

Lemma grid_wf_set g i j v : grid_wf g -> grid_wf (grid_set g i j v).
Proof.
  unfold grid_wf, grid_set; simpl. intros Hwf.
  apply Forall_lookup. intros k row Hk.
  destruct (decide (i = k)) as [->|Hne].
  - rewrite list_lookup_alter_eq in Hk.
    destruct (cells g !! k) as [r|] eqn:E; simplify_eq/=.
    rewrite length_insert. eapply Forall_lookup_1 in Hwf; eauto.
  - rewrite list_lookup_alter_ne in Hk by done.
    eapply Forall_lookup_1 in Hwf; eauto.
Qed.

Lemma grid_get_set g i j v i' j' :
  grid_wf g -> i < nrows g -> j < ncols g ->
  grid_get (grid_set g i j v) i' j'
  = if bool_decide (i' = i /\ j' = j) then v else grid_get g i' j'.
Proof.
  intros Hwf Hi Hj. unfold grid_get, grid_set; simpl.
  destruct (decide (i = i')) as [<-|Hne].
  - rewrite list_lookup_alter_eq.
    destruct (lookup_lt_is_Some_2 (cells g) i Hi) as [row Hrow].
    rewrite Hrow; simpl.
    assert (length row = ncols g) as Hlen
      by (eapply Forall_lookup_1 in Hwf; eauto).
    destruct (decide (j = j')) as [<-|Hnej].
    + rewrite list_lookup_insert_eq by lia.
      by rewrite bool_decide_eq_true_2.
    + rewrite list_lookup_insert_ne by done.
      rewrite bool_decide_eq_false_2; [done | intros [_ ?]; congruence].
  - rewrite list_lookup_alter_ne by done.
    rewrite bool_decide_eq_false_2; [done | intros [? _]; congruence].
Qed.

Lemma nrows_slice_fill g rs re cs ce v : nrows (slice_fill g rs re cs ce v) = nrows g.
Proof. unfold nrows, slice_fill; simpl. apply length_imap. Qed.

Lemma grid_wf_slice_fill g rs re cs ce v :
  grid_wf g -> grid_wf (slice_fill g rs re cs ce v).
Proof.
  unfold grid_wf, slice_fill; simpl. intros Hwf.
  apply Forall_lookup. intros k row Hk.
  rewrite list_lookup_imap in Hk.
  destruct (cells g !! k) as [r|] eqn:E; simplify_eq/=.
  rewrite length_imap. eapply Forall_lookup_1 in Hwf; eauto.
Qed.

Lemma grid_get_slice_fill g rs re cs ce v i j :
  grid_wf g -> i < nrows g -> j < ncols g ->
  grid_get (slice_fill g rs re cs ce v) i j
  = if in_slice (nrows g) rs re i && in_slice (ncols g) cs ce j
    then v else grid_get g i j.
Proof.
  intros Hwf Hi Hj. unfold grid_get, slice_fill; simpl.
  rewrite list_lookup_imap.
  destruct (lookup_lt_is_Some_2 (cells g) i Hi) as [row Hrow].
  rewrite Hrow; simpl. rewrite list_lookup_imap.
  assert (length row = ncols g) as Hlen
    by (eapply Forall_lookup_1 in Hwf; eauto).
  destruct (lookup_lt_is_Some_2 row j ltac:(lia)) as [b Hb].
  rewrite Hb; simpl. by destruct (_ && _).
Qed.

(** ** Grid construction *)

Lemma explicit_mask_fold regs : forall m i j,
  grid_wf m -> i < nrows m -> j < ncols m ->
  let m' := foldl (fun m (reg : ExplicitRegion) =>
                     let '(r1, c1, r2, c2, _, _) := reg in
                     slice_fill m (r1 - 1) r2 (c1 - 1) c2 true) m regs in
  grid_wf m' /\ nrows m' = nrows m /\ ncols m' = ncols m
  /\ grid_get m' i j = grid_get m i j || masked (nrows m) (ncols m) regs i j.
Proof.
  induction regs as [|reg regs IH]; intros m i j Hwf Hi Hj; simpl.
  - rewrite orb_false_r. auto.
  - destruct reg as [[[[[r1 c1] r2] c2] name] t].
    set (m1 := slice_fill m (r1 - 1) r2 (c1 - 1) c2 true).
    assert (grid_wf m1) as Hwf1 by by apply grid_wf_slice_fill.
    assert (nrows m1 = nrows m) as Hn1 by apply nrows_slice_fill.
    assert (ncols m1 = ncols m) as Hc1 by done.
    destruct (IH m1 i j Hwf1 ltac:(lia) ltac:(lia)) as (Hw & Hn & Hc & Hg).
    repeat split; try congruence.
    rewrite Hg, Hn1, Hc1. unfold m1.
    rewrite grid_get_slice_fill by done.
    destruct (in_slice (nrows m) _ _ i && in_slice (ncols m) _ _ j); simpl;
      rewrite ?orb_true_r; done.
Qed.

Lemma explicit_mask_get R C regs i j :
  i < R -> j < C ->
  grid_get (explicit_mask_of R C regs) i j = masked R C regs i j.
Proof.
  intros Hi Hj. unfold explicit_mask_of.
  pose proof (explicit_mask_fold regs (zeros R C) i j (grid_wf_zeros R C)) as H.
  rewrite nrows_zeros in H. simpl in H.
  destruct (H Hi Hj) as (_ & _ & _ & ->).
  by rewrite grid_get_zeros.
Qed.

Lemma mark_cell_eq ws mask i row g j :
  mark_cell ws mask i row g j
  = if cell_marked ws mask i row j then grid_set g i j true else g.
Proof.
  unfold mark_cell, cell_marked.
  destruct (column_hidden ws (S j)); simpl; [done|].
  destruct (row_value row j) as [v|]; simpl; done.
Qed.

(** One pass of the inner loop over the columns [js] of row [i]. *)
Lemma mark_row_spec ws mask i row js : forall g i' j',
  grid_wf g -> i < nrows g -> Forall (fun j => j < ncols g) js ->
  let g' := foldl (mark_cell ws mask i row) g js in
  grid_wf g' /\ nrows g' = nrows g /\ ncols g' = ncols g
  /\ grid_get g' i' j'
     = grid_get g i' j'
       || (bool_decide (i' = i) && bool_decide (j' ∈ js)
           && cell_marked ws mask i row j').
Proof.
  induction js as [|j js IH]; intros g i' j' Hwf Hi Hjs; simpl.
  - rewrite andb_false_r, orb_false_r. auto.
  - apply Forall_cons in Hjs as [Hj Hjs].
    set (g1 := mark_cell ws mask i row g j).
    assert (grid_wf g1 /\ nrows g1 = nrows g /\ ncols g1 = ncols g
            /\ grid_get g1 i' j'
               = grid_get g i' j'
                 || (bool_decide (i' = i /\ j' = j) && cell_marked ws mask i row j))
      as (Hwf1 & Hn1 & Hc1 & Hg1).
    { unfold g1. rewrite mark_cell_eq.
      destruct (cell_marked ws mask i row j).
      - repeat split; [by apply grid_wf_set | apply nrows_grid_set |].
        rewrite grid_get_set by done.
        case_bool_decide; simpl; [by rewrite orb_true_r | by rewrite orb_false_r].
      - repeat split; try done. by rewrite andb_false_r, orb_false_r. }
    destruct (IH g1 i' j' Hwf1 ltac:(lia)) as (Hw & Hn & Hc & Hg).
    { rewrite Hc1. done. }
    repeat split; try congruence.
    rewrite Hg, Hg1.
    destruct (grid_get g i' j'); simpl; [done|].
    destruct (decide (i' = i)) as [->|Hne].
    + rewrite !(bool_decide_eq_true_2 (i = i)) by done. simpl.
      destruct (decide (j' = j)) as [->|Hnej].
      * rewrite (bool_decide_eq_true_2 (i = i /\ j = j)) by done.
        rewrite (bool_decide_eq_true_2 (j ∈ j :: js)) by apply list_elem_of_here.
        simpl. by destruct (cell_marked ws mask i row j), (bool_decide (j ∈ js)).
      * rewrite (bool_decide_eq_false_2 (i = i /\ j' = j)) by (intros [_ ?]; done).
        simpl. f_equal. apply bool_decide_ext.
        rewrite elem_of_cons. split; [tauto | by intros [?|?]].
    + rewrite (bool_decide_eq_false_2 (i' = i /\ j' = j)) by (intros [? _]; done).
      rewrite !(bool_decide_eq_false_2 (i' = i)) by done. done.
Qed.

(** The outer loop over the enumerated rows, started at row number [k]. *)
Lemma mark_rows_spec ws mask C rows : forall k g i j,
  grid_wf g -> ncols g = C -> k + length rows <= nrows g -> j < C ->
  let g' := foldl (fun g '(i, row) => foldl (mark_cell ws mask i row) g (seq 0 C))
                  g (imap (fun n => pair (k + n)) rows) in
  grid_wf g' /\ nrows g' = nrows g /\ ncols g' = ncols g
  /\ grid_get g' i j
     = grid_get g i j
       || match rows !! (i - k) with
          | Some row => bool_decide (k <= i) && cell_marked ws mask i row j
          | None => false
          end.
Proof.
  induction rows as [|row rows IH]; intros k g i j Hwf HC Hk Hj; simpl.
  - rewrite orb_false_r. auto.
  - simpl in Hk.
    pose proof (mark_row_spec ws mask (k + 0) row (seq 0 C) g i j Hwf
                  ltac:(lia)) as H1.
    destruct H1 as (Hwf1 & Hn1 & Hc1 & Hg1).
    { apply Forall_forall. intros x Hx. apply elem_of_seq in Hx. lia. }
    set (g1 := foldl (mark_cell ws mask (k + 0) row) g (seq 0 C)) in *.
    pose proof (IH (S k) g1 i j Hwf1 ltac:(congruence) ltac:(lia) Hj) as H2.
    simpl in H2.
    assert (imap ((fun n => pair (k + n)) ∘ S) rows
            = imap (fun n => pair (S (k + n))) rows) as Hext.
    { apply imap_ext. intros n x _. simpl. f_equal. lia. }
    rewrite Hext.
    destruct H2 as (Hw & Hn & Hc & Hg).
    repeat split; try congruence.
    rewrite Hg, Hg1. rewrite <- orb_assoc. f_equal.
    replace (k + 0) with k by lia.
    destruct (decide (i = k)) as [->|Hne].
    + replace (k - k) with 0 by lia. simpl.
      replace (k - S k) with 0 by lia.
      rewrite (bool_decide_eq_true_2 (k = k)) by done.
      assert (bool_decide (j ∈ seq 0 C) = true) as ->.
      { apply bool_decide_eq_true_2, elem_of_seq. lia. }
      rewrite (bool_decide_eq_true_2 (k <= k)) by lia. simpl.
      destruct (rows !! 0); [|by rewrite orb_false_r].
      rewrite (bool_decide_eq_false_2 (S k <= k)) by lia. simpl.
      by rewrite orb_false_r.
    + rewrite (bool_decide_eq_false_2 (i = k)) by done. simpl.
      destruct (decide (k < i)) as [Hlt|Hge].
      * replace (i - k) with (S (i - S k)) by lia. simpl.
        destruct (rows !! (i - S k)); [|done].
        f_equal. apply bool_decide_ext. lia.
      * replace (i - k) with 0 by lia. replace (i - S k) with 0 by lia. simpl.
        rewrite (bool_decide_eq_false_2 (k <= i)) by lia. simpl.
        destruct (rows !! 0); [|done].
        rewrite (bool_decide_eq_false_2 (S k <= i)) by lia. done.
Qed.

Lemma build_grid_get ws regs i j :
  i < length (ws_rows ws) -> j < max_column ws ->
  grid_get (build_grid_excluding_explicit ws regs) i j
  = match ws_rows ws !! i with
    | Some row =>
        cell_marked ws
          (explicit_mask_of (length (ws_rows ws)) (max_column ws) regs) i row j
    | None => false
    end.
Proof.
  intros Hi Hj. unfold build_grid_excluding_explicit.
  pose proof (mark_rows_spec ws
                (explicit_mask_of (length (ws_rows ws)) (max_column ws) regs)
                (max_column ws) (ws_rows ws) 0
                (zeros (length (ws_rows ws)) (max_column ws)) i j
                (grid_wf_zeros _ _) eq_refl) as H.
  rewrite nrows_zeros in H. simpl in H.
  destruct (H ltac:(lia) Hj) as (_ & _ & _ & Hg).
  refine (eq_trans Hg _). rewrite grid_get_zeros. simpl.
  replace (i - 0) with i by lia.
  by destruct (ws_rows ws !! i).
Qed.

Lemma in_slice_valid n lo hi i :
  (1 <= lo)%Z -> (0 <= hi)%Z -> i < n ->
  in_slice n (lo - 1) hi i = true <-> (lo <= Z.of_nat i + 1 <= hi)%Z.
Proof.
  intros Hlo Hhi Hi. unfold in_slice, slice_index.
  destruct (Z.ltb_spec (lo - 1) 0), (Z.ltb_spec hi 0); lia.
Qed.

Lemma masked_in_any_region R C regs i j :
  Forall region_valid regs -> i < R -> j < C ->
  masked R C regs i j = true
  <-> in_any_region regs (Z.of_nat i + 1) (Z.of_nat j + 1).
Proof.
  intros Hv Hi Hj. unfold masked, in_any_region.
  rewrite existsb_exists, Exists_exists.
  split; intros (reg & Hin & H); exists reg;
    (split; [by (apply list_elem_of_In || apply list_elem_of_In in Hin)|]).
  - apply list_elem_of_In in Hin.
    eapply Forall_forall in Hv; [|exact Hin].
    destruct reg as [[[[[r1 c1] r2] c2] name] t]. simpl in *.
    apply andb_true_iff in H as [H1 H2].
    apply in_slice_valid in H1; [|lia..]. apply in_slice_valid in H2; [|lia..].
    done.
  - eapply Forall_forall in Hv; [|exact Hin].
    destruct reg as [[[[[r1 c1] r2] c2] name] t]. simpl in *.
    apply andb_true_iff. split; apply in_slice_valid; lia.
Qed.

Lemma cell_value_row ws i j :
  cell_value ws (Z.of_nat i + 1) (Z.of_nat j + 1)
  = match ws_rows ws !! i with Some row => row_value row j | None => None end.
Proof.
  unfold cell_value.
  destruct (Z.leb_spec 1 (Z.of_nat i + 1)), (Z.leb_spec 1 (Z.of_nat j + 1)); try lia.
  simpl. by replace (Z.to_nat (Z.of_nat i + 1 - 1)) with i by lia;
    replace (Z.to_nat (Z.of_nat j + 1 - 1)) with j by lia.
Qed.

Lemma grid_at_get g row col :
  (1 <= row)%Z -> (1 <= col)%Z ->
  grid_at g row col = grid_get g (Z.to_nat (row - 1)) (Z.to_nat (col - 1)).
Proof.
  intros Hr Hc. unfold grid_at.
  by destruct (Z.leb_spec 1 row), (Z.leb_spec 1 col); try lia.
Qed.

(** C1 (as the code has it).  Inside the sheet's extent, the grid marks a
    cell exactly when the cell's own stored value is not null, its column
    is not hidden and the cell lies in no explicit-table range.  Neither
    the merge map nor the hidden-row flags take part. *)
Theorem grid_marks_stored_value_visible_column_unclaimed
    ws regs (row col : Z) :
  Forall region_valid regs ->
  (1 <= row <= Z.of_nat (length (ws_rows ws)))%Z ->
  (1 <= col <= Z.of_nat (max_column ws))%Z ->
  grid_at (build_grid_excluding_explicit ws regs) row col = true
  <-> is_Some (cell_value ws row col)
      /\ column_hidden ws (Z.to_nat col) = false
      /\ ~ in_any_region regs row col.
Proof.
  intros Hv Hr Hc. rewrite grid_at_get by lia.
  set (i := Z.to_nat (row - 1)). set (j := Z.to_nat (col - 1)).
  assert (row = (Z.of_nat i + 1)%Z) as Hrow by lia.
  assert (col = (Z.of_nat j + 1)%Z) as Hcol by lia.
  assert (i < length (ws_rows ws)) as Hi by lia.
  assert (j < max_column ws) as Hj by lia.
  clearbody i j. subst row col.
  rewrite build_grid_get, cell_value_row by done.
  replace (Z.to_nat (Z.of_nat j + 1)) with (S j) by lia.
  rewrite <- (masked_in_any_region (length (ws_rows ws)) (max_column ws)) by done.
  rewrite <- explicit_mask_get by done.
  destruct (lookup_lt_is_Some_2 (ws_rows ws) i Hi) as [r Hrow]. rewrite Hrow.
  unfold cell_marked.
  rewrite !andb_true_iff, !negb_true_iff, bool_decide_eq_true.
  destruct (grid_get _ i j); split; intros H; destruct_and?; try done;
    repeat split; auto.
Qed.

Lemma grid_marks_stored_value_witness :
  Forall region_valid (get_explicit_table_regions sheet_sales)
  /\ (1 <= 2 <= Z.of_nat (length (ws_rows sheet_sales)))%Z
  /\ (1 <= 1 <= Z.of_nat (max_column sheet_sales))%Z
  /\ (grid_at (build_grid_excluding_explicit sheet_sales
                 (get_explicit_table_regions sheet_sales)) 2 1 = true
       <-> is_Some (cell_value sheet_sales 2 1)
           /\ column_hidden sheet_sales (Z.to_nat 1) = false
           /\ ~ in_any_region (get_explicit_table_regions sheet_sales) 2 1).
Proof.
  assert (Forall region_valid (get_explicit_table_regions sheet_sales)) as Hv.
  { constructor; [simpl; lia | constructor]. }
  assert (1 <= 2 <= Z.of_nat (length (ws_rows sheet_sales)))%Z as Hr
    by (simpl; lia).
  assert (1 <= 1 <= Z.of_nat (max_column sheet_sales))%Z as Hc
    by (simpl; lia).
  repeat (split; [assumption|]).
  exact (grid_marks_stored_value_visible_column_unclaimed sheet_sales
           (get_explicit_table_regions sheet_sales) 2 1 Hv Hr Hc).
Defined.

(** C1 (as stated) fails on the code: a value in a hidden row is marked,
    and a merged cell away from its anchor is not. *)
Lemma grid_rule_as_specified_fails :
  ~ grid_rule_as_specified sheet_hidden_row []
  /\ ~ grid_rule_as_specified sheet_merged [].
Proof.
  split; intros H.
  - destruct (H 1%Z 1%Z ltac:(simpl; lia) ltac:(simpl; lia)) as [H1 _].
    destruct (H1 eq_refl) as (_ & Hhid & _). discriminate Hhid.
  - destruct (H 1%Z 2%Z ltac:(simpl; lia) ltac:(simpl; lia)) as [_ H2].
    assert (grid_at (build_grid_excluding_explicit sheet_merged []) 1 2 = true)
      as Hg; [|discriminate Hg].
    apply H2. split; [by eexists|].
    split; [done|]. split; [done|].
    intros Hin. by apply Exists_nil in Hin.
Qed.

(** C2.  A cell of the sheet that lies inside a declared explicit-table
    range is never marked in the grid, whatever value it holds. *)
Theorem grid_exclusion_invariant ws regs (row col : Z) :
  Forall region_valid regs ->
  (1 <= row <= Z.of_nat (length (ws_rows ws)))%Z ->
  (1 <= col <= Z.of_nat (max_column ws))%Z ->
  in_any_region regs row col ->
  grid_at (build_grid_excluding_explicit ws regs) row col = false.
Proof.
  intros Hv Hr Hc Hin. rewrite grid_at_get by lia.
  set (i := Z.to_nat (row - 1)). set (j := Z.to_nat (col - 1)).
  assert (i < length (ws_rows ws)) as Hi by lia.
  assert (j < max_column ws) as Hj by lia.
  rewrite build_grid_get by done.
  destruct (ws_rows ws !! i) as [r|]; [|done].
  unfold cell_marked. rewrite explicit_mask_get by done.
  assert (masked (length (ws_rows ws)) (max_column ws) regs i j = true) as ->.
  { apply masked_in_any_region; try done.
    by replace (Z.of_nat i + 1)%Z with row by lia;
       replace (Z.of_nat j + 1)%Z with col by lia. }
  simpl. apply andb_false_r.
Qed.

Lemma grid_exclusion_invariant_witness :
  Forall region_valid (get_explicit_table_regions sheet_sales)
  /\ (1 <= 2 <= Z.of_nat (length (ws_rows sheet_sales)))%Z
  /\ (1 <= 2 <= Z.of_nat (max_column sheet_sales))%Z
  /\ in_any_region (get_explicit_table_regions sheet_sales) 2 2
  /\ grid_at (build_grid_excluding_explicit sheet_sales
                (get_explicit_table_regions sheet_sales)) 2 2 = false.
Proof.
  assert (Forall region_valid (get_explicit_table_regions sheet_sales)) as Hv.
  { constructor; [simpl; lia | constructor]. }
  assert (1 <= 2 <= Z.of_nat (length (ws_rows sheet_sales)))%Z as Hr
    by (simpl; lia).
  assert (1 <= 2 <= Z.of_nat (max_column sheet_sales))%Z as Hc
    by (simpl; lia).
  assert (in_any_region (get_explicit_table_regions sheet_sales) 2 2) as Hin.
  { constructor. simpl. lia. }
  repeat (split; [assumption|]).
  exact (grid_exclusion_invariant sheet_sales
           (get_explicit_table_regions sheet_sales) 2 2 Hv Hr Hc Hin).
Defined.

(** ** Region splitting: examples *)

Example split_staircase :
  split_bbox_on_empty_lines 10
    (grid_of_rows 3 [[1;0;0]; [0;0;0]; [0;0;1]]) (1, 3, 1, 3)%Z
  = Some [(1, 1, 1, 1)%Z; (3, 3, 3, 3)%Z].
Proof. vm_compute. reflexivity. Qed.

Example split_rows_only :
  split_bbox_on_empty_lines 10
    (grid_of_rows 2 [[1;0]; [0;0]; [0;1]]) (1, 3, 1, 2)%Z
  = Some [(1, 1, 1, 2)%Z; (3, 3, 1, 2)%Z].
Proof. vm_compute. reflexivity. Qed.

(** ** Runs of non-empty lines *)

Lemma run_scan_acc sums : forall j start acc,
  run_scan sums j start acc = acc ++ run_scan sums j start [].
Proof.
  induction sums as [|s rest IH]; intros j start acc; simpl.
  - destruct start; [done | by rewrite app_nil_r].
  - destruct (0 <? s), start; try apply IH.
    rewrite IH, (IH _ _ [_]). by rewrite <- app_assoc.
Qed.

Lemma runs_sorted_weaken lo lo' rs :
  lo' <= lo -> runs_sorted lo rs -> runs_sorted lo' rs.
Proof. destruct rs as [|[s e] rest]; simpl; [done|]. intros ? (? & ? & ?). repeat split; [lia|done..]. Qed.

Lemma run_scan_spec sums : forall pre start,
  start_ok (pre ++ sums) (length pre) start ->
  let all := pre ++ sums in
  let j := length pre in
  let rs := run_scan sums j start [] in
  Forall (run_positive all) rs
  /\ (forall k, j <= k -> positive_at all k -> Exists (fun run => run.1 <= k <= run.2) rs)
  /\ (forall st, start = Some st -> exists e rest, rs = (st, e) :: rest /\ j - 1 <= e)
  /\ runs_sorted (match start with Some st => st | None => j end) rs.
Proof.
  induction sums as [|s rest IH]; intros pre start Hst; simpl.
  - rewrite app_nil_r in *. destruct start as [st|]; simpl in *.
    + destruct Hst as [Hlt Hpos]. repeat split.
      * constructor; [|constructor]. split; simpl; [lia|].
        intros k Hk. apply Hpos. lia.
      * intros k Hk [v [Hv _]]. apply lookup_lt_Some in Hv. lia.
      * intros st' [= <-]. eauto.
      * lia.
      * lia.
    + repeat split; [constructor | | done].
      intros k Hk [v [Hv _]]. apply lookup_lt_Some in Hv. lia.
  - assert (pre ++ s :: rest = (pre ++ [s]) ++ rest) as Heq
      by by rewrite <- app_assoc.
    assert (length (pre ++ [s]) = S (length pre)) as Hlen
      by (rewrite length_app; simpl; lia).
    assert ((pre ++ s :: rest) !! length pre = Some s) as Hs
      by (rewrite lookup_app_r by lia; by rewrite Nat.sub_diag).
    destruct (Nat.ltb_spec 0 s) as [Hpos|Hzero].
    + (* a non-empty line: the run goes on, or starts here *)
      set (start' := match start with None => Some (length pre) | Some _ => start end).
      assert (run_scan rest (S (length pre)) start' []
              = match start with
                | None => run_scan rest (S (length pre)) (Some (length pre)) []
                | Some _ => run_scan rest (S (length pre)) start []
                end) as <- by by destruct start.
      assert (start_ok ((pre ++ [s]) ++ rest) (length (pre ++ [s])) start') as Hst'.
      { rewrite <- Heq, Hlen. unfold start'. destruct start as [st|]; simpl in *.
        - destruct Hst as [Hlt Hp]. split; [lia|]. intros k Hk.
          destruct (decide (k = length pre)) as [->|]; [by exists s | apply Hp; lia].
        - split; [lia|]. intros k Hk. assert (k = length pre) as -> by lia.
          by exists s. }
      specialize (IH (pre ++ [s]) start' Hst'). simpl in IH.
      rewrite <- Heq, Hlen in IH. destruct IH as (IH1 & IH2 & IH3 & IH4).
      repeat split; [done | | |].
      * intros k Hk Hp. destruct (decide (k = length pre)) as [->|]; [|apply IH2; [lia|done]].
        assert (exists st', start' = Some st' /\ st' <= length pre) as (st' & Hs' & Hle).
        { unfold start'. destruct start as [st|]; simpl in *; [|eauto].
          exists st. split; [done|]. lia. }
        destruct (IH3 st' Hs') as (e & rest' & -> & He).
        apply Exists_cons_hd. simpl. lia.
      * intros st ->. destruct (IH3 st eq_refl) as (e & rest' & -> & He).
        exists e, rest'. split; [done|lia].
      * unfold start' in IH4. by destruct start.
    + (* an empty line: the open run, if any, is closed *)
      assert (s = 0) as -> by lia.
      assert (start_ok ((pre ++ [0]) ++ rest) (length (pre ++ [0])) None) as Hst' by done.
      specialize (IH (pre ++ [0]) None Hst'). simpl in IH.
      rewrite <- Heq, Hlen in IH. destruct IH as (IH1 & IH2 & _ & IH4).
      assert (forall k, length pre <= k -> positive_at (pre ++ 0 :: rest) k ->
              S (length pre) <= k) as Hskip.
      { intros k Hk [v [Hv Hvp]]. destruct (decide (k = length pre)) as [->|]; [|lia].
        rewrite Hs in Hv. simplify_eq. lia. }
      destruct start as [st|]; simpl in *.
      * destruct Hst as [Hlt Hp]. rewrite run_scan_acc. simpl.
        repeat split.
        -- constructor; [|done]. split; simpl.
           ++ rewrite length_app. simpl. lia.
           ++ intros k Hk. apply Hp. lia.
        -- intros k Hk Hpk. apply Exists_cons_tl, IH2; [|done]. by apply Hskip.
        -- intros st' [= <-]. eauto.
        -- lia.
        -- lia.
        -- eapply runs_sorted_weaken; [|exact IH4]. lia.
      * repeat split; [done | | done |].
        -- intros k Hk Hpk. apply IH2; [|done]. by apply Hskip.
        -- eapply runs_sorted_weaken; [|exact IH4]. lia.
Qed.

Lemma non_empty_runs_spec sums :
  let rs := non_empty_runs sums in
  Forall (run_positive sums) rs
  /\ (forall k, positive_at sums k -> Exists (fun run => run.1 <= k <= run.2) rs)
  /\ runs_sorted 0 rs.
Proof.
  destruct (run_scan_spec sums [] None I) as (H1 & H2 & _ & H4).
  simpl in *. repeat split; [done | | done].
  intros k Hk. apply H2; [lia | done].
Qed.

Lemma empty_indices_nil sums :
  empty_indices sums = [] <-> forall k, positive_at sums k \/ sums !! k = None.
Proof.
  unfold empty_indices. split.
  - intros Hnil k. destruct (sums !! k) as [v|] eqn:Hv; [left | by right].
    exists v. split; [done|]. destruct v; [|lia]. exfalso.
    assert ((k : nat) ∈ omap (fun '(i, s) => if s =? 0 then Some i else None)
                            (imap pair sums)) as Hin.
    { apply list_elem_of_omap. exists (k, 0). split; [|done].
      apply list_elem_of_lookup. exists k. by rewrite list_lookup_imap, Hv. }
    rewrite Hnil in Hin. by apply not_elem_of_nil in Hin.
  - intros Hall.
    destruct (omap _ _) as [|i l] eqn:E; [done|]. exfalso.
    assert (i ∈ i :: l) as Hin by apply list_elem_of_here.
    rewrite <- E in Hin. apply list_elem_of_omap in Hin as ([i' s] & Hin & Hs).
    apply list_elem_of_lookup in Hin as [k Hk].
    rewrite list_lookup_imap in Hk.
    destruct (sums !! k) as [v|] eqn:Hv; simplify_eq/=.
    destruct (Nat.eqb_spec s 0); [|done]. subst.
    destruct (Hall i') as [[v [Hv' Hp]]|Hn]; [|congruence].
    rewrite Hv in Hv'. simplify_eq. lia.
Qed.

Lemma empty_indices_cons sums i l :
  empty_indices sums = i :: l -> exists k, sums !! k = Some 0.
Proof.
  unfold empty_indices. intros E.
  assert (i ∈ i :: l) as Hin by apply list_elem_of_here.
  rewrite <- E in Hin. apply list_elem_of_omap in Hin as ([i' s] & Hin & Hs).
  apply list_elem_of_lookup in Hin as [k Hk].
  rewrite list_lookup_imap in Hk.
  destruct (sums !! k) as [v|] eqn:Hv; simplify_eq/=.
  destruct (Nat.eqb_spec s 0); [|done]. subst. eauto.
Qed.

(** A run in a list that has an empty line is shorter than the list. *)
Lemma run_shorter sums run k :
  run_positive sums run -> sums !! k = Some 0 ->
  run.2 - run.1 + 1 < length sums.
Proof.
  intros [Hb Hp] Hk. apply lookup_lt_Some in Hk as Hlt.
  destruct (decide (run.1 <= k <= run.2)) as [Hin|Hout]; [|lia].
  destruct (Hp k Hin) as [v [Hv Hpos]]. rewrite Hk in Hv. simplify_eq. lia.
Qed.

(** ** Slices and sums *)

Lemma py_slice_lookup {A} (l : list A) (lo hi : Z) i :
  (0 <= lo)%Z -> (0 <= hi)%Z ->
  py_slice l lo hi !! i
  = if (lo + Z.of_nat i <? hi)%Z then l !! (Z.to_nat lo + i) else None.
Proof.
  intros Hlo Hhi. unfold py_slice, slice_len, slice_index.
  destruct (Z.ltb_spec lo 0), (Z.ltb_spec hi 0); try lia.
  destruct (Z.ltb_spec (lo + Z.of_nat i) hi) as [Hlt|Hge].
  - destruct (decide (Z.to_nat lo + i < length l)) as [Hin|Hout].
    + rewrite lookup_take_lt by lia. rewrite lookup_drop. f_equal. lia.
    + rewrite (proj2 (lookup_ge_None l (Z.to_nat lo + i))) by lia.
      apply lookup_ge_None. rewrite length_take, length_drop. lia.
  - apply lookup_ge_None. rewrite length_take, length_drop. lia.
Qed.

Lemma py_slice_length {A} (l : list A) (lo hi : Z) :
  (0 <= lo)%Z -> (0 <= hi)%Z ->
  Z.of_nat (length (py_slice l lo hi)) = Z.max 0 (Z.min hi (Z.of_nat (length l)) - lo).
Proof.
  intros Hlo Hhi. unfold py_slice, slice_len, slice_index.
  destruct (Z.ltb_spec lo 0), (Z.ltb_spec hi 0); try lia.
  rewrite length_take, length_drop. lia.
Qed.

Lemma slice_len_bound n (lo hi : Z) :
  (0 <= lo)%Z -> (0 <= hi)%Z ->
  Z.of_nat (slice_len n lo hi) = Z.max 0 (Z.min hi (Z.of_nat n) - lo).
Proof.
  intros Hlo Hhi. unfold slice_len, slice_index.
  destruct (Z.ltb_spec lo 0), (Z.ltb_spec hi 0); lia.
Qed.

Lemma bool_sum_pos l : 0 < bool_sum l <-> exists j, l !! j = Some true.
Proof.
  induction l as [|b l IH]; simpl.
  - split; [lia | by intros [j ?]].
  - destruct b.
    + split; [by exists 0 | lia].
    + rewrite IH. split.
      * intros [j Hj]. by exists (S j).
      * intros [[|j] Hj]; [done | by exists j].
Qed.

Lemma grid_at_true g r c :
  grid_at g r c = true
  <-> (1 <= r)%Z /\ (1 <= c)%Z
      /\ exists row, cells g !! Z.to_nat (r - 1) = Some row
                     /\ row !! Z.to_nat (c - 1) = Some true.
Proof.
  unfold grid_at, grid_get.
  rewrite !andb_true_iff, !Z.leb_le.
  split.
  - intros [[Hr Hc] H]. repeat split; try done.
    destruct (cells g !! _) as [row|]; [|done].
    exists row. split; [done|]. by destruct (row !! _) as [[]|].
  - intros (Hr & Hc & row & -> & ->). done.
Qed.

Section Sums.
Variable grid : Grid.
Variables r1 r2 c1 c2 : Z.
Hypothesis Hvalid : bbox_valid (r1, r2, c1, c2).

Let sub := box_subgrid grid (r1, r2, c1, c2).

Lemma sub_row_lookup i :
  cells sub !! i
  = if (r1 + Z.of_nat i <=? r2)%Z
    then (fun row => py_slice row (c1 - 1) (c2 - 1 + 1))
           <$> cells grid !! (Z.to_nat (r1 - 1) + i)
    else None.
Proof.
  destruct Hvalid as [Hr Hc].
  unfold sub, box_subgrid, subgrid; simpl.
  rewrite list_lookup_fmap, py_slice_lookup by lia.
  destruct (Z.ltb_spec (r1 - 1 + Z.of_nat i) (r2 - 1 + 1)),
           (Z.leb_spec (r1 + Z.of_nat i) r2); try lia; done.
Qed.

Lemma row_sums_positive i :
  positive_at (row_sums sub) i
  <-> (r1 + Z.of_nat i <= r2)%Z
      /\ exists c, (c1 <= c <= c2)%Z
                   /\ grid_at grid (r1 + Z.of_nat i) c = true.
Proof.
  destruct Hvalid as [Hr Hc].
  unfold positive_at, row_sums. rewrite list_lookup_fmap, sub_row_lookup.
  destruct (Z.leb_spec (r1 + Z.of_nat i) r2) as [Hle|Hgt].
  - split.
    + intros (v & Hv & Hpos).
      destruct (cells grid !! _) as [row|] eqn:Hrow; simplify_eq/=.
      apply bool_sum_pos in Hpos as [j Hj].
      rewrite py_slice_lookup in Hj by lia.
      destruct (Z.ltb_spec (c1 - 1 + Z.of_nat j) (c2 - 1 + 1)); [|done].
      split; [done|]. exists (c1 + Z.of_nat j)%Z. split; [lia|].
      apply grid_at_true. split; [lia|]. split; [lia|].
      exists row. split.
      * rewrite <- Hrow. f_equal. lia.
      * rewrite <- Hj. f_equal. lia.
    + intros (_ & c & Hc' & Hg).
      apply grid_at_true in Hg as (_ & _ & row & Hrow & Hcell).
      replace (Z.to_nat (r1 + Z.of_nat i - 1)) with (Z.to_nat (r1 - 1) + i)
        in Hrow by lia.
      rewrite Hrow. simpl. eexists. split; [done|].
      apply bool_sum_pos. exists (Z.to_nat (c - c1)).
      rewrite py_slice_lookup by lia.
      destruct (Z.ltb_spec (c1 - 1 + Z.of_nat (Z.to_nat (c - c1))) (c2 - 1 + 1));
        [|lia].
      rewrite <- Hcell. f_equal. lia.
  - split; [by intros (v & Hv & _) | lia].
Qed.

Lemma row_sums_length : (Z.of_nat (length (row_sums sub)) <= r2 - r1 + 1)%Z.
Proof.
  destruct Hvalid as [Hr Hc].
  unfold row_sums, sub, box_subgrid, subgrid; simpl.
  rewrite !length_fmap.
  pose proof (py_slice_length (cells grid) (r1 - 1) (r2 - 1 + 1)). lia.
Qed.

Lemma col_sums_length : (Z.of_nat (length (col_sums sub)) <= c2 - c1 + 1)%Z.
Proof.
  destruct Hvalid as [Hr Hc].
  unfold col_sums, sub, box_subgrid, subgrid; simpl.
  rewrite length_fmap, length_seq.
  pose proof (slice_len_bound (ncols grid) (c1 - 1) (c2 - 1 + 1)). lia.
Qed.

Hypothesis Hwf : grid_wf grid.

Lemma col_sums_positive j :
  positive_at (col_sums sub) j
  <-> (c1 + Z.of_nat j <= c2)%Z
      /\ exists r, (r1 <= r <= r2)%Z
                   /\ grid_at grid r (c1 + Z.of_nat j) = true.
Proof.
  destruct Hvalid as [Hr Hc].
  unfold positive_at, col_sums. rewrite list_lookup_fmap.
  pose proof (slice_len_bound (ncols grid) (c1 - 1) (c2 - 1 + 1)
                ltac:(lia) ltac:(lia)) as Hn.
  assert (ncols sub = slice_len (ncols grid) (c1 - 1) (c2 - 1 + 1)) as Hnc by done.
  split.
  - intros (v & Hv & Hpos).
    destruct (seq 0 (ncols sub) !! j) as [j'|] eqn:Hseq; simplify_eq/=.
    apply lookup_seq in Hseq as [-> Hj]. simpl in Hpos.
    apply bool_sum_pos in Hpos as [i Hi].
    rewrite list_lookup_fmap, sub_row_lookup in Hi.
    destruct (Z.leb_spec (r1 + Z.of_nat i) r2) as [Hle|]; [|done].
    destruct (cells grid !! _) as [row|] eqn:Hrow; simplify_eq/=.
    rewrite py_slice_lookup in Hi by lia.
    destruct (Z.ltb_spec (c1 - 1 + Z.of_nat j) (c2 - 1 + 1)); [|done].
    destruct (row !! _) as [b|] eqn:Hcell; simplify_eq/=.
    split; [lia|]. exists (r1 + Z.of_nat i)%Z. split; [lia|].
    apply grid_at_true. split; [lia|]. split; [lia|].
    exists row. split.
    + rewrite <- Hrow. f_equal. lia.
    + rewrite <- Hcell. f_equal. lia.
  - intros (Hle & r & Hr' & Hg).
    apply grid_at_true in Hg as (_ & _ & row & Hrow & Hcell).
    assert (length row = ncols grid) as Hlen
      by (eapply Forall_lookup_1 in Hwf; eauto).
    apply lookup_lt_Some in Hcell as Hlt.
    assert (j < ncols sub) as Hj by lia.
    rewrite lookup_seq_lt by done. simpl. eexists. split; [done|].
    apply bool_sum_pos. exists (Z.to_nat (r - r1)).
    rewrite list_lookup_fmap, sub_row_lookup.
    destruct (Z.leb_spec (r1 + Z.of_nat (Z.to_nat (r - r1))) r2); [|lia].
    replace (Z.to_nat (r1 - 1) + Z.to_nat (r - r1)) with (Z.to_nat (r - 1)) by lia.
    rewrite Hrow. simpl. rewrite py_slice_lookup by lia.
    destruct (Z.ltb_spec (c1 - 1 + Z.of_nat j) (c2 - 1 + 1)); [|lia].
    replace (Z.to_nat (c1 - 1) + j) with (Z.to_nat (c1 + Z.of_nat j - 1)) by lia.
    by rewrite Hcell.
Qed.
End Sums.

(** ** Boxes *)

Lemma cell_in_within a b r c : bbox_within a b -> cell_in b r c -> cell_in a r c.
Proof.
  destruct a as [[[? ?] ?] ?], b as [[[? ?] ?] ?]. simpl. lia.
Qed.

Lemma bbox_within_trans a b c : bbox_within a b -> bbox_within b c -> bbox_within a c.
Proof.
  destruct a as [[[? ?] ?] ?], b as [[[? ?] ?] ?], c as [[[? ?] ?] ?]. simpl. lia.
Qed.

Lemma bbox_within_refl a : bbox_within a a.
Proof. destruct a as [[[? ?] ?] ?]. simpl. lia. Qed.

Lemma bbox_disjoint_within a b a' b' :
  bbox_disjoint a b -> bbox_within a a' -> bbox_within b b' -> bbox_disjoint a' b'.
Proof.
  intros Hd Ha Hb r c Hin Hin'.
  eapply Hd; eauto using cell_in_within.
Qed.

Lemma pairwise_disjoint_app l1 l2 :
  pairwise_disjoint l1 -> pairwise_disjoint l2 ->
  Forall (fun a => Forall (bbox_disjoint a) l2) l1 ->
  pairwise_disjoint (l1 ++ l2).
Proof.
  induction l1 as [|a l1 IH]; simpl; [done|].
  intros [Ha Hl1] Hl2 Hc. apply Forall_cons in Hc as [Hc1 Hc2].
  split; [by apply Forall_app | by apply IH].
Qed.

Lemma pairwise_disjoint_lookup l i j a b :
  pairwise_disjoint l -> i <> j -> l !! i = Some a -> l !! j = Some b ->
  forall r c, cell_in a r c -> ~ cell_in b r c.
Proof.
  revert i j. induction l as [|x l IH]; intros i j Hpd Hne Hi Hj; [done|].
  destruct Hpd as [Hx Hl]. destruct i as [|i], j as [|j]; simpl in *.
  - done.
  - injection Hi as ->. eapply Forall_lookup_1 in Hx; [exact Hx | exact Hj].
  - injection Hj as ->. eapply Forall_lookup_1 in Hx; [|exact Hi].
    intros r c Ha Hb. by apply (Hx r c).
  - apply (IH i j); auto.
Qed.

(** ** One level of splitting *)

Lemma runs_sorted_lower lo rs :
  runs_sorted lo rs -> Forall (fun run => lo <= run.1 /\ run.1 <= run.2) rs.
Proof.
  revert lo. induction rs as [|[s e] rs IH]; intros lo; simpl; [constructor|].
  intros (Hlo & Hse & Hrest). constructor; [done|].
  eapply Forall_impl; [by apply IH|]. simpl. intros run. lia.
Qed.

Section OneLevel.
Variable grid : Grid.
Hypothesis Hwf : grid_wf grid.
Variables r1 r2 c1 c2 : Z.
Let b : BBox := (r1, r2, c1, c2).
Hypothesis Hvalid : bbox_valid b.
Let sub := box_subgrid grid b.

Lemma col_boxes_disjoint rs lo :
  runs_sorted lo rs -> pairwise_disjoint (map (col_box b) rs).
Proof.
  revert lo. induction rs as [|[s e] rs IH]; intros lo; simpl; [done|].
  intros (Hlo & Hse & Hrest). split; [|by eapply IH].
  apply Forall_fmap. eapply Forall_impl; [by apply runs_sorted_lower|].
  intros [s' e'] [Hs' _] r c. simpl in *. lia.
Qed.

Lemma row_boxes_disjoint rs lo :
  runs_sorted lo rs -> pairwise_disjoint (map (row_box b) rs).
Proof.
  revert lo. induction rs as [|[s e] rs IH]; intros lo; simpl; [done|].
  intros (Hlo & Hse & Hrest). split; [|by eapply IH].
  apply Forall_fmap. eapply Forall_impl; [by apply runs_sorted_lower|].
  intros [s' e'] [Hs' _] r c. simpl in *. lia.
Qed.

Lemma col_runs_split :
  let bs := map (col_box b) (non_empty_runs (col_sums sub)) in
  split_good grid b bs
  /\ Forall (has_cell grid) bs
  /\ (forall k, col_sums sub !! k = Some 0 ->
                Forall (fun x => box_measure x < box_measure b) bs).
Proof.
  destruct (non_empty_runs_spec (col_sums sub)) as (Hpos & Hcov & Hsorted).
  pose proof (col_sums_length grid r1 r2 c1 c2 Hvalid) as Hlen.
  fold b sub in Hlen. destruct Hvalid as [Hr Hc].
  assert (Forall (has_cell grid) (map (col_box b) (non_empty_runs (col_sums sub))))
    as Hcells.
  { apply Forall_fmap. eapply Forall_impl; [exact Hpos|].
    intros [s e] [Hb Hp]. simpl in *.
    destruct (proj1 (col_sums_positive grid r1 r2 c1 c2 Hvalid Hwf s)
                (Hp s ltac:(lia))) as (_ & r & Hr' & Hg).
    exists r, (c1 + Z.of_nat s)%Z. split; [simpl; lia | done]. }
  split; [|split; [done|]].
  - repeat split.
    + apply Forall_fmap. eapply Forall_impl; [exact Hpos|].
      intros [s e] [Hb _]. simpl in *. lia.
    + apply Forall_fmap. eapply Forall_impl; [exact Hpos|].
      intros [s e] [Hb _]. simpl in *. lia.
    + by eapply col_boxes_disjoint.
    + intros r c [Hr' Hc'] Hg.
      assert (positive_at (col_sums sub) (Z.to_nat (c - c1))) as Hp.
      { apply (col_sums_positive grid r1 r2 c1 c2 Hvalid Hwf).
        replace (c1 + Z.of_nat (Z.to_nat (c - c1)))%Z with c by lia.
        split; [lia|]. by exists r. }
      apply Hcov in Hp. apply Exists_fmap.
      eapply Exists_impl; [exact Hp|].
      intros [s e]. simpl. lia.
    + done.
  - intros k Hk. apply Forall_fmap. eapply Forall_impl; [exact Hpos|].
    intros [s e] Hrun. pose proof (run_shorter _ _ _ Hrun Hk) as Hsh.
    destruct Hrun as [Hb _]. simpl in *. lia.
Qed.

Lemma row_runs_split :
  let bs := map (row_box b) (non_empty_runs (row_sums sub)) in
  split_good grid b bs
  /\ Forall (has_cell grid) bs
  /\ (forall k, row_sums sub !! k = Some 0 ->
                Forall (fun x => box_measure x < box_measure b) bs).
Proof.
  destruct (non_empty_runs_spec (row_sums sub)) as (Hpos & Hcov & Hsorted).
  pose proof (row_sums_length grid r1 r2 c1 c2 Hvalid) as Hlen.
  fold b sub in Hlen. destruct Hvalid as [Hr Hc].
  assert (Forall (has_cell grid) (map (row_box b) (non_empty_runs (row_sums sub))))
    as Hcells.
  { apply Forall_fmap. eapply Forall_impl; [exact Hpos|].
    intros [s e] [Hb Hp]. simpl in *.
    destruct (proj1 (row_sums_positive grid r1 r2 c1 c2 Hvalid s)
                (Hp s ltac:(lia))) as (_ & c & Hc' & Hg).
    exists (r1 + Z.of_nat s)%Z, c. split; [simpl; lia | done]. }
  split; [|split; [done|]].
  - repeat split.
    + apply Forall_fmap. eapply Forall_impl; [exact Hpos|].
      intros [s e] [Hb _]. simpl in *. lia.
    + apply Forall_fmap. eapply Forall_impl; [exact Hpos|].
      intros [s e] [Hb _]. simpl in *. lia.
    + by eapply row_boxes_disjoint.
    + intros r c [Hr' Hc'] Hg.
      assert (positive_at (row_sums sub) (Z.to_nat (r - r1))) as Hp.
      { apply (row_sums_positive grid r1 r2 c1 c2 Hvalid).
        replace (r1 + Z.of_nat (Z.to_nat (r - r1)))%Z with r by lia.
        split; [lia|]. by exists c. }
      apply Hcov in Hp. apply Exists_fmap.
      eapply Exists_impl; [exact Hp|].
      intros [s e]. simpl. lia.
    + done.
  - intros k Hk. apply Forall_fmap. eapply Forall_impl; [exact Hpos|].
    intros [s e] Hrun. pose proof (run_shorter _ _ _ Hrun Hk) as Hsh.
    destruct Hrun as [Hb _]. simpl in *. lia.
Qed.
End OneLevel.

(** ** The recursion *)

Lemma Forall_map_inv {A B} (P : B -> Prop) (f : A -> B) l :
  Forall P (map f l) -> Forall (fun x => P (f x)) l.
Proof.
  induction l as [|x l IH]; simpl; intros H; [constructor|].
  apply Forall_cons in H as [? ?]. constructor; auto.
Qed.

Lemma extend_all_ext {A B} (f g : A -> option (list B)) l :
  (forall x, f x = g x) -> extend_all f l = extend_all g l.
Proof.
  intros Hfg. induction l as [|x l IH]; simpl; [done|]. by rewrite Hfg, IH.
Qed.

Lemma extend_all_Some {A B} (f : A -> option (list B)) (P : A -> list B -> Prop) l :
  Forall (fun x => exists ys, f x = Some ys /\ P x ys) l ->
  exists yss, extend_all f l = Some (concat yss) /\ Forall2 P l yss.
Proof.
  induction 1 as [|x l (ys & Hf & HP) _ (yss & He & H2)]; simpl.
  - exists []. by split; [|constructor].
  - exists (ys :: yss). rewrite Hf, He. by split; [|constructor].
Qed.

Lemma split_lines_unfold fuel grid b :
  split_bbox_on_empty_lines (S fuel) grid b
  = match empty_indices (col_sums (box_subgrid grid b)),
          empty_indices (row_sums (box_subgrid grid b)) with
    | _ :: _, _ =>
        extend_all (fun run => split_bbox_on_empty_rows fuel grid (col_box b run))
                   (non_empty_runs (col_sums (box_subgrid grid b)))
    | [], _ :: _ =>
        Some (map (row_box b) (non_empty_runs (row_sums (box_subgrid grid b))))
    | [], [] => Some [b]
    end.
Proof.
  destruct b as [[[r1 r2] c1] c2]. simpl.
  destruct (empty_indices (col_sums _)).
  - destruct (empty_indices (row_sums _)); [done|].
    f_equal. apply map_ext. by intros [rs re].
  - apply extend_all_ext. by intros [cs ce].
Qed.

Lemma split_rows_unfold fuel grid b :
  split_bbox_on_empty_rows (S fuel) grid b
  = match empty_indices (row_sums (box_subgrid grid b)),
          empty_indices (col_sums (box_subgrid grid b)) with
    | _ :: _, _ =>
        extend_all (fun run => split_bbox_on_empty_lines fuel grid (row_box b run))
                   (non_empty_runs (row_sums (box_subgrid grid b)))
    | [], _ :: _ =>
        Some (map (col_box b) (non_empty_runs (col_sums (box_subgrid grid b))))
    | [], [] => Some [b]
    end.
Proof.
  destruct b as [[[r1 r2] c1] c2]. simpl.
  destruct (empty_indices (row_sums _)).
  - destruct (empty_indices (col_sums _)); [done|].
    f_equal. apply map_ext. by intros [cs ce].
  - apply extend_all_ext. by intros [rs re].
Qed.

Lemma split_good_self grid b : bbox_valid b -> split_good grid b [b].
Proof.
  intros Hv. repeat split.
  - constructor; [apply bbox_within_refl | constructor].
  - by constructor.
  - constructor.
  - intros r c Hin _. by constructor.
  - intros Hc. by constructor.
Qed.

Lemma concat_disjoint_from grid a bx bs yss :
  Forall2 (split_good grid) bs yss ->
  Forall (bbox_disjoint bx) bs -> bbox_within bx a ->
  Forall (bbox_disjoint a) (concat yss).
Proof.
  intros H2 Hd Ha. induction H2 as [|b ys bs yss Hg _ IH]; simpl; [constructor|].
  apply Forall_cons in Hd as [Hb Hd]. apply Forall_app. split; [|by apply IH].
  destruct Hg as (Hw & _). eapply Forall_impl; [exact Hw|].
  intros y Hy. by eapply bbox_disjoint_within.
Qed.

Lemma split_good_concat grid b bs yss :
  split_good grid b bs -> Forall (has_cell grid) bs ->
  Forall2 (split_good grid) bs yss ->
  split_good grid b (concat yss).
Proof.
  intros (Hw & Hv & Hpd & Hcov & _) Hcells H2.
  repeat split.
  - clear Hpd Hcov Hv Hcells.
    induction H2 as [|bx ys bs yss Hg _ IH]; simpl; [constructor|].
    apply Forall_cons in Hw as [Hbx Hw]. apply Forall_app. split; [|by apply IH].
    destruct Hg as (Hwx & _). eapply Forall_impl; [exact Hwx|].
    intros y Hy. by eapply bbox_within_trans.
  - clear Hw Hpd Hcov Hv Hcells.
    induction H2 as [|bx ys bs yss Hg _ IH]; simpl; [constructor|].
    apply Forall_app. split; [|done]. by destruct Hg as (_ & ? & _).
  - clear Hw Hcov Hv Hcells.
    induction H2 as [|bx ys bs yss Hg H2 IH]; simpl; [done|].
    destruct Hpd as [Hbx Hpd].
    apply pairwise_disjoint_app; [by destruct Hg as (_ & _ & ? & _) | by apply IH |].
    destruct Hg as (Hwx & _). eapply Forall_impl; [exact Hwx|].
    intros y Hy. by eapply concat_disjoint_from.
  - intros r c Hin Hg. specialize (Hcov r c Hin Hg).
    clear Hw Hpd Hv Hcells.
    induction H2 as [|bx ys bs yss Hgood _ IH]; simpl; [by apply Exists_nil in Hcov|].
    apply Exists_app. apply Exists_cons in Hcov as [Hhere|Hlater]; [left|right; by apply IH].
    destruct Hgood as (_ & _ & _ & Hc & _). by apply Hc.
  - intros _. clear Hw Hpd Hv Hcov.
    induction H2 as [|bx ys bs yss Hgood _ IH]; simpl; [constructor|].
    apply Forall_cons in Hcells as [Hbx Hcells].
    apply Forall_app. split; [|by apply IH].
    destruct Hgood as (_ & _ & _ & _ & Hc). by apply Hc.
Qed.

(** With a budget above the height plus the width of the box, both
    functions return, and what they return is a good splitting. *)
Lemma split_returns_good grid :
  grid_wf grid ->
  forall fuel,
    (forall b, bbox_valid b -> box_measure b < fuel ->
       exists out, split_bbox_on_empty_lines fuel grid b = Some out
                   /\ split_good grid b out)
    /\ (forall b, bbox_valid b -> box_measure b < fuel ->
          exists out, split_bbox_on_empty_rows fuel grid b = Some out
                      /\ split_good grid b out).
Proof.
  intros Hwf. induction fuel as [|fuel [IHl IHr]]; [split; intros; lia|].
  split; intros b Hv Hm.
  - rewrite split_lines_unfold. destruct b as [[[r1 r2] c1] c2].
    destruct (col_runs_split grid Hwf r1 r2 c1 c2 Hv) as (Hcg & Hcc & Hcm).
    destruct (row_runs_split grid r1 r2 c1 c2 Hv) as (Hrg & Hrc & Hrm).
    destruct (empty_indices (col_sums _)) as [|i l] eqn:Ec.
    + destruct (empty_indices (row_sums _)) as [|i l] eqn:Er.
      * eexists. split; [done | by apply split_good_self].
      * eexists. split; [done | exact Hrg].
    + apply empty_indices_cons in Ec as [k Hk]. specialize (Hcm k Hk).
      destruct (extend_all_Some
                  (fun run => split_bbox_on_empty_rows fuel grid
                                (col_box (r1, r2, c1, c2) run))
                  (fun run ys => split_good grid (col_box (r1, r2, c1, c2) run) ys)
                  (non_empty_runs (col_sums (box_subgrid grid (r1, r2, c1, c2)))))
        as (yss & He & H2).
      { apply Forall_map_inv in Hcm. destruct Hcg as (_ & Hvs & _).
        apply Forall_map_inv in Hvs.
        eapply Forall_impl; [apply Forall_and; split; [exact Hcm | exact Hvs]|].
        intros run [Hmr Hvr]. apply IHr; [done | lia]. }
      exists (concat yss). split; [done|].
      eapply split_good_concat; [exact Hcg | exact Hcc |].
      by apply Forall2_fmap_l.
  - rewrite split_rows_unfold. destruct b as [[[r1 r2] c1] c2].
    destruct (col_runs_split grid Hwf r1 r2 c1 c2 Hv) as (Hcg & Hcc & Hcm).
    destruct (row_runs_split grid r1 r2 c1 c2 Hv) as (Hrg & Hrc & Hrm).
    destruct (empty_indices (row_sums _)) as [|i l] eqn:Er.
    + destruct (empty_indices (col_sums _)) as [|i l] eqn:Ec.
      * eexists. split; [done | by apply split_good_self].
      * eexists. split; [done | exact Hcg].
    + apply empty_indices_cons in Er as [k Hk]. specialize (Hrm k Hk).
      destruct (extend_all_Some
                  (fun run => split_bbox_on_empty_lines fuel grid
                                (row_box (r1, r2, c1, c2) run))
                  (fun run ys => split_good grid (row_box (r1, r2, c1, c2) run) ys)
                  (non_empty_runs (row_sums (box_subgrid grid (r1, r2, c1, c2)))))
        as (yss & He & H2).
      { apply Forall_map_inv in Hrm. destruct Hrg as (_ & Hvs & _).
        apply Forall_map_inv in Hvs.
        eapply Forall_impl; [apply Forall_and; split; [exact Hrm | exact Hvs]|].
        intros run [Hmr Hvr]. apply IHl; [done | lia]. }
      exists (concat yss). split; [done|].
      eapply split_good_concat; [exact Hrg | exact Hrc |].
      by apply Forall2_fmap_l.
Qed.

(** ** The region splitter *)

(** Every non-empty cell of the box is kept by the splitting. *)
Lemma split_keeps_non_empty_cells grid b fuel :
  grid_wf grid -> bbox_valid b -> box_measure b < fuel ->
  exists out, split_bbox_on_empty_lines fuel grid b = Some out
              /\ covers grid b out.
Proof.
  intros Hwf Hv Hm.
  destruct (proj1 (split_returns_good grid Hwf fuel) b Hv Hm)
    as (out & He & _ & _ & _ & Hc & _).
  eauto.
Qed.


(** C7.  A box of the data model with no empty row and no empty column
    comes back unchanged, as the only element of the result. *)
Theorem split_of_unsplittable_box grid b fuel :
  grid_wf grid -> bbox_valid b -> no_empty_line grid b ->
  split_bbox_on_empty_lines (S fuel) grid b = Some [b].
Proof.
  intros Hwf Hv Hne. rewrite split_lines_unfold.
  destruct b as [[[r1 r2] c1] c2]. destruct Hne as [Hrows Hcols].
  assert (empty_indices (col_sums (box_subgrid grid (r1, r2, c1, c2))) = []) as ->.
  { apply empty_indices_nil. intros k.
    destruct (col_sums _ !! k) as [v|] eqn:Hk; [left | by right].
    apply lookup_lt_Some in Hk.
    pose proof (col_sums_length grid r1 r2 c1 c2 Hv) as Hlen.
    apply (col_sums_positive grid r1 r2 c1 c2 Hv Hwf).
    split; [lia|]. apply Hcols. destruct Hv. lia. }
  assert (empty_indices (row_sums (box_subgrid grid (r1, r2, c1, c2))) = []) as ->.
  { apply empty_indices_nil. intros k.
    destruct (row_sums _ !! k) as [v|] eqn:Hk; [left | by right].
    apply lookup_lt_Some in Hk.
    pose proof (row_sums_length grid r1 r2 c1 c2 Hv) as Hlen.
    apply (row_sums_positive grid r1 r2 c1 c2 Hv).
    split; [lia|]. apply Hrows. destruct Hv. lia. }
  done.
Qed.

Lemma grid_block_wf : grid_wf grid_block.
Proof. repeat constructor. Defined.

Lemma grid_corners_wf : grid_wf grid_corners.
Proof. repeat constructor. Defined.

Lemma split_of_unsplittable_box_witness :
  grid_wf grid_block /\ bbox_valid (1, 2, 1, 2)%Z
  /\ no_empty_line grid_block (1, 2, 1, 2)%Z
  /\ split_bbox_on_empty_lines 5 grid_block (1, 2, 1, 2)%Z
     = Some [(1, 2, 1, 2)%Z].
Proof.
  assert (no_empty_line grid_block (1, 2, 1, 2)%Z) as Hne.
  { split.
    - intros r Hr. exists 1%Z. split; [lia|].
      assert (r = 1 \/ r = 2)%Z as [-> | ->] by lia; reflexivity.
    - intros c Hc. exists 1%Z. split; [lia|].
      assert (c = 1 \/ c = 2)%Z as [-> | ->] by lia; reflexivity. }
  assert (bbox_valid (1, 2, 1, 2)%Z) as Hv by (simpl; lia).
  split; [exact grid_block_wf|]. split; [exact Hv|]. split; [exact Hne|].
  exact (split_of_unsplittable_box grid_block (1, 2, 1, 2)%Z 4
           grid_block_wf Hv Hne).
Defined.

(** C10.  With a recursion budget above the height plus the width of the
    box, both splitting functions return, every box they return lies
    inside the input box, and two boxes at different places of the result
    share no cell. *)
Theorem split_outputs_inside_and_disjoint grid b fuel :
  grid_wf grid -> bbox_valid b -> box_measure b < fuel ->
  (exists out, split_bbox_on_empty_lines fuel grid b = Some out
     /\ Forall (bbox_within b) out
     /\ forall i j x y, i <> j -> out !! i = Some x -> out !! j = Some y ->
                        bbox_disjoint x y)
  /\ (exists out, split_bbox_on_empty_rows fuel grid b = Some out
        /\ Forall (bbox_within b) out
        /\ forall i j x y, i <> j -> out !! i = Some x -> out !! j = Some y ->
                           bbox_disjoint x y).
Proof.
  intros Hwf Hv Hm.
  destruct (split_returns_good grid Hwf fuel) as [Hl Hr].
  split.
  - destruct (Hl b Hv Hm) as (out & He & Hw & _ & Hpd & _).
    exists out. repeat split; [done..|].
    intros i j x y Hne Hi Hj.
    exact (pairwise_disjoint_lookup out i j x y Hpd Hne Hi Hj).
  - destruct (Hr b Hv Hm) as (out & He & Hw & _ & Hpd & _).
    exists out. repeat split; [done..|].
    intros i j x y Hne Hi Hj.
    exact (pairwise_disjoint_lookup out i j x y Hpd Hne Hi Hj).
Qed.

Lemma split_outputs_inside_and_disjoint_witness :
  grid_wf grid_corners /\ bbox_valid (1, 3, 1, 3)%Z
  /\ box_measure (1, 3, 1, 3)%Z < 10
  /\ (exists out,
        split_bbox_on_empty_lines 10 grid_corners (1, 3, 1, 3)%Z = Some out
        /\ Forall (bbox_within (1, 3, 1, 3)%Z) out
        /\ forall i j x y, i <> j -> out !! i = Some x -> out !! j = Some y ->
                           bbox_disjoint x y).
Proof.
  assert (bbox_valid (1, 3, 1, 3)%Z) as Hv by (simpl; lia).
  assert (box_measure (1, 3, 1, 3)%Z < 10) as Hm by (vm_compute; lia).
  split; [exact grid_corners_wf|]. split; [exact Hv|]. split; [exact Hm|].
  exact (proj1 (split_outputs_inside_and_disjoint grid_corners (1, 3, 1, 3)%Z 10
                  grid_corners_wf Hv Hm)).
Defined.

(** ** Header detection *)

Example strip_example : strip "  Unit Price 	" = "Unit Price".
Proof. reflexivity. Qed.

Example detect_textual_header :
  detect_header_rows [["Item"; "Qty"]; ["Bolt"; "3"]; ["Nut"; "4"]]
  = Some (["Item"; "Qty"], [["Bolt"; "3"]; ["Nut"; "4"]]).
Proof. reflexivity. Qed.

Example detect_fallback_header :
  detect_header_rows [["1"; "2"]; ["3"; "4"]] = Some (["1"; "2"], [["3"; "4"]]).
Proof. reflexivity. Qed.

Lemma header_test_condition rows idx :
  S idx < length rows ->
  header_test (nth idx rows []) (nth (S idx) rows []) = true
  <-> header_condition rows idx.
Proof.
  intros Hlt. unfold header_test, header_condition.
  destruct (lookup_lt_is_Some_2 rows idx ltac:(lia)) as [row Hrow].
  destruct (lookup_lt_is_Some_2 rows (S idx) Hlt) as [nxt Hnxt].
  rewrite (nth_lookup_Some _ _ _ _ Hrow), (nth_lookup_Some _ _ _ _ Hnxt).
  rewrite andb_true_iff, !Nat.leb_le. split.
  - intros [? ?]. by exists row, nxt.
  - intros (row' & nxt' & ? & ? & ? & ?). by simplify_eq.
Qed.

Lemma header_loop_spec rows n : forall k,
  k + n < length rows ->
  match header_loop rows (seq k n) with
  | Some idx =>
      k <= idx < k + n /\ header_condition rows idx
      /\ forall i, k <= i < idx -> ~ header_condition rows i
  | None => forall i, k <= i < k + n -> ~ header_condition rows i
  end.
Proof.
  induction n as [|n IH]; intros k Hk; simpl.
  - intros i Hi. lia.
  - destruct (header_test _ _) eqn:Ht.
    + split; [lia|]. split; [|intros i Hi; lia].
      apply header_test_condition; [lia | done].
    + assert (~ header_condition rows k) as Hnot.
      { intros Hc. apply header_test_condition in Hc; [congruence | lia]. }
      specialize (IH (S k) ltac:(lia)).
      destruct (header_loop rows (seq (S k) n)) as [idx|].
      * destruct IH as (Hr & Hc & Hmin). split; [lia|]. split; [done|].
        intros i Hi. destruct (decide (i = k)) as [->|]; [done | apply Hmin; lia].
      * intros i Hi. destruct (decide (i = k)) as [->|]; [done | apply IH; lia].
Qed.



(** ** References and dependencies *)

Example extract_references_example :
  extract_references "=SUM($A$1,B2)+AA10*ABCD1" = ["$A$1"; "B2"; "AA10"; "BCD1"].
Proof. vm_compute. reflexivity. Qed.

Example search_range_example :
  search_range "'[book.xlsx]SHEET1'!A1:B$3" = Some "A1:B$3".
Proof. vm_compute. reflexivity. Qed.

Lemma list_filter_filter {A} (p q : A -> bool) l :
  List.filter p (List.filter q l) = List.filter (fun y => q y && p y) l.
Proof.
  induction l as [|x l IH]; simpl; [done|].
  destruct (q x); simpl; [|done]. destruct (p x); by rewrite IH.
Qed.

Lemma list_filter_In {A} (p : A -> bool) l x :
  x ∈ List.filter p l <-> x ∈ l /\ p x = true.
Proof. rewrite !list_elem_of_In. apply filter_In. Qed.

Lemma first_occurrences_elem l x : x ∈ first_occurrences l <-> x ∈ l.
Proof.
  induction l as [|y l IH]; simpl; [done|].
  rewrite !elem_of_cons, list_filter_In, IH, negb_true_iff, String.eqb_neq.
  destruct (decide (x = y)) as [->|Hne]; [tauto|].
  split; [tauto | intros [?|?]; [done | by right]].
Qed.

Lemma first_occurrences_NoDup l : NoDup (first_occurrences l).
Proof.
  induction l as [|y l IH]; simpl; constructor.
  - rewrite list_filter_In, negb_true_iff, String.eqb_neq. by intros [_ ?].
  - apply NoDup_ListNoDup, List.NoDup_filter, NoDup_ListNoDup, IH.
Qed.

(** The loop of [dict.fromkeys] started with the keys [acc]. *)
Lemma dict_fromkeys_fold l : forall acc,
  foldl (fun keys k => if bool_decide (k ∈ keys) then keys else keys ++ [k]) acc l
  = acc ++ List.filter (fun y => negb (bool_decide (y ∈ acc))) (first_occurrences l).
Proof.
  induction l as [|x l IH]; intros acc; simpl.
  - by rewrite app_nil_r.
  - rewrite IH. case_bool_decide as Hx; simpl.
    + f_equal. rewrite list_filter_filter. apply List.filter_ext_in.
      intros y _. case_bool_decide as Hy; simpl; [by rewrite andb_false_r|].
      rewrite andb_true_r. symmetry. apply negb_true_iff, String.eqb_neq. congruence.
    + rewrite <- app_assoc. simpl. do 2 f_equal.
      rewrite list_filter_filter. apply List.filter_ext_in.
      intros y _. destruct (String.eqb_spec x y) as [->|Hne]; simpl.
      * rewrite bool_decide_eq_true_2; [done|].
        apply elem_of_app. right. apply list_elem_of_here.
      * f_equal. apply bool_decide_ext.
        rewrite elem_of_app, list_elem_of_singleton.
        split; [intros [?|?]; [done | congruence] | tauto].
Qed.

(** C5.  The dependency list of a list of raw references is that list
    without its repeats, every entry at the place of its first occurrence;
    it holds the same entries as the input, each once; the list B2, A1, B2
    gives B2, A1.  The result is a function of the input alone. *)
Theorem dependencies_keep_first_occurrence_order :
  (forall refs,
      dict_fromkeys refs = first_occurrences refs
      /\ NoDup (dict_fromkeys refs)
      /\ (forall x, x ∈ dict_fromkeys refs <-> x ∈ refs))
  /\ (forall formula,
        formula_dependencies None formula
        = first_occurrences (extract_references formula))
  /\ dict_fromkeys ["B2"; "A1"; "B2"] = ["B2"; "A1"].
Proof.
  assert (forall refs, dict_fromkeys refs = first_occurrences refs) as Heq.
  { intros refs. unfold dict_fromkeys. rewrite dict_fromkeys_fold. simpl.
    induction (first_occurrences refs) as [|x l IH]; simpl; [done | by rewrite IH]. }
  split; [|split].
  - intros refs. rewrite Heq. split; [done|].
    split; [apply first_occurrences_NoDup | apply first_occurrences_elem].
  - intros formula. apply Heq.
  - reflexivity.
Qed.

(** ** Formula annotation *)

Example find_header_qty :
  find_header_for_cell "Sheet1" "$A$1" registry_qty_total = Some "Qty".
Proof. vm_compute. reflexivity. Qed.

Example find_header_total :
  find_header_for_cell "Sheet1" "AA1" registry_qty_total = Some "Total".
Proof. vm_compute. reflexivity. Qed.

Example annotate_example :
  annotate_formula remove_dups "=AA1+A1*XA1" "Sheet1" registry_qty_total
  = Some "=[Total]+[Qty]*XA1".
Proof. vm_compute. reflexivity. Qed.

Lemma string_app_cons x (a b : string) :
  (String x a ++ b)%string = String x (a ++ b).
Proof. reflexivity. Qed.

Lemma string_app_nil (b : string) : ("" ++ b)%string = b.
Proof. reflexivity. Qed.

Lemma string_app_assoc (a b c : string) :
  ((a ++ b) ++ c)%string = (a ++ (b ++ c))%string.
Proof.
  induction a as [|x a IH]; [done|]. by rewrite !string_app_cons, IH.
Qed.

(** A match that starts inside a text ending outside the word class ends
    before that last character, whatever follows the text. *)
Lemma strip_prefix_app ref : forall s t,
  all_word ref = true -> ends_nonword s = true ->
  match strip_prefix ref s with
  | Some rest =>
      strip_prefix ref (s ++ t) = Some (rest ++ t)%string
      /\ rest <> EmptyString /\ String.length ref < String.length s
  | None => strip_prefix ref (s ++ t) = None
  end.
Proof.
  induction ref as [|a ref IH]; intros s t Hw He; simpl.
  - repeat split; [by destruct s | destruct s; simpl; [done | lia]].
  - apply andb_true_iff in Hw as [Ha Hw].
    destruct s as [|b s]; [done|]. simpl.
    destruct (Ascii.eqb_spec a b) as [<-|Hne]; [|done].
    destruct s as [|c s].
    { simpl in He. rewrite Ha in He. done. }
    specialize (IH (String c s) t Hw He).
    destruct (strip_prefix ref (String c s)) as [rest|]; [|done].
    destruct IH as (H1 & H2 & H3). repeat split; [done.. | simpl in *; lia].
Qed.

Lemma matches_here_app ref prev s t :
  all_word ref = true -> ends_nonword s = true ->
  matches_here ref prev (s ++ t) = matches_here ref prev s.
Proof.
  intros Hw He. unfold matches_here. f_equal.
  pose proof (strip_prefix_app ref s t Hw He) as H.
  destruct (strip_prefix ref s) as [rest|].
  - destruct H as (-> & Hne & _). by destruct rest.
  - by rewrite H.
Qed.

Lemma matches_here_length ref prev s :
  all_word ref = true -> ends_nonword s = true ->
  matches_here ref prev s = true -> String.length ref < String.length s.
Proof.
  intros Hw He. unfold matches_here.
  pose proof (strip_prefix_app ref s "" Hw He) as H.
  destruct (strip_prefix ref s) as [rest|]; [|by rewrite andb_false_r].
  intros _. by destruct H as (_ & _ & ?).
Qed.

(** The scan of a text that ends outside the word class does not depend
    on what follows the text. *)
Lemma sub_scan_app ref repl t : forall pre prev skip,
  ref <> EmptyString -> all_word ref = true -> ends_nonword pre = true ->
  skip < String.length pre ->
  sub_scan ref repl prev skip (pre ++ t)
  = (sub_scan ref repl prev skip pre
     ++ sub_scan ref repl (last_char prev pre) 0 t)%string.
Proof.
  intros pre prev skip Hne Hw. revert prev skip.
  induction pre as [|c pre IH]; intros prev skip He Hs; [done|].
  assert (forall k, k < String.length pre ->
            sub_scan ref repl (Some c) k (pre ++ t)
            = (sub_scan ref repl (Some c) k pre
               ++ sub_scan ref repl (last_char (Some c) pre) 0 t)%string) as IH'.
  { intros k Hk. apply IH; [|done]. destruct pre; [simpl in Hk; lia | done]. }
  change (String c pre ++ t)%string with (String c (pre ++ t)).
  destruct skip as [|k].
  - cbn [sub_scan].
    change (String c (pre ++ t)) with (String c pre ++ t)%string.
    rewrite matches_here_app by done.
    destruct (matches_here ref prev (String c pre)) eqn:Hm.
    + apply matches_here_length in Hm; [|done..].
      rewrite IH'; [|destruct ref; simpl in *; [done | lia]].
      by rewrite string_app_assoc.
    + destruct pre as [|d pre]; [done|].
      rewrite IH' by (simpl; lia). done.
  - cbn [sub_scan]. apply IH'. simpl in Hs. lia.
Qed.

(** Behind a word character nothing matches: a run of word characters is
    copied. *)
Lemma sub_scan_word_run ref repl t : forall tok c,
  all_word tok = true -> word_char c = true ->
  sub_scan ref repl (Some c) 0 (tok ++ t)
  = (tok ++ sub_scan ref repl (last_char (Some c) tok) 0 t)%string.
Proof.
  induction tok as [|a tok IH]; intros c Hw Hc; [done|].
  apply andb_true_iff in Hw as [Ha Hw]. rewrite !string_app_cons.
  cbn [sub_scan]. unfold matches_here. simpl. rewrite Hc. simpl.
  f_equal. by apply IH.
Qed.

(** A match at the start of a run of word characters that is followed by
    a boundary is the whole run. *)
Lemma strip_prefix_whole_token ref : forall tok t rest,
  all_word ref = true -> all_word tok = true -> boundary (first_char t) = true ->
  strip_prefix ref (tok ++ t) = Some rest -> boundary (first_char rest) = true ->
  ref = tok.
Proof.
  induction ref as [|a ref IH]; intros tok t rest Hr Ht Hb Hs Hrest; simpl in *.
  - injection Hs as <-. destruct tok as [|b tok]; [done|].
    simpl in *. apply andb_true_iff in Ht as [Hbw _]. by rewrite Hbw in Hrest.
  - apply andb_true_iff in Hr as [Ha Hr].
    destruct tok as [|b tok]; simpl in *.
    + destruct t as [|b t]; [done|]. simpl in *.
      destruct (Ascii.eqb_spec a b) as [<-|]; [|done]. by rewrite Ha in Hb.
    + apply andb_true_iff in Ht as [_ Ht].
      destruct (Ascii.eqb_spec a b) as [<-|]; [|done].
      f_equal. exact (IH tok t rest Hr Ht Hb Hs Hrest).
Qed.

Lemma sub_scan_after_token ref repl t prev :
  ref <> EmptyString -> all_word ref = true -> boundary (first_char t) = true ->
  sub_scan ref repl prev 0 t = sub_scan ref repl None 0 t.
Proof.
  intros Hne Hw Hb. destruct t as [|y t]; [done|]. simpl in *.
  assert (strip_prefix ref (String y t) = None) as Hs.
  { destruct ref as [|a ref]; [done|]. simpl in *.
    apply andb_true_iff in Hw as [Ha _].
    destruct (Ascii.eqb_spec a y) as [<-|]; [|done]. by rewrite Ha in Hb. }
  unfold matches_here. rewrite Hs, !andb_false_r. done.
Qed.

Lemma sub_scan_token ref repl tok post prev :
  ref <> EmptyString -> all_word ref = true -> all_word tok = true ->
  tok <> ref -> boundary (first_char post) = true ->
  sub_scan ref repl prev 0 (tok ++ post)
  = (tok ++ sub_scan ref repl None 0 post)%string.
Proof.
  intros Hne Hw Ht Hdiff Hb.
  destruct tok as [|a tok]; [by apply sub_scan_after_token|].
  assert (matches_here ref prev (String a tok ++ post) = false) as Hm.
  { unfold matches_here. destruct (boundary prev); [simpl|done].
    destruct (strip_prefix ref (String a tok ++ post)) as [rest|] eqn:Hs; [|done].
    destruct (boundary (first_char rest)) eqn:Hr; [|done].
    exfalso. apply Hdiff. symmetry.
    by eapply (strip_prefix_whole_token ref (String a tok) post rest). }
  simpl in Ht. apply andb_true_iff in Ht as [Ha Ht].
  rewrite !string_app_cons in *.
  cbn [sub_scan]. rewrite Hm. f_equal.
  rewrite sub_scan_word_run by done. f_equal.
  by apply sub_scan_after_token.
Qed.

(** A word token other than the reference is left as it is. *)
Lemma sub_bounded_keeps_token ref repl pre tok post :
  ref <> EmptyString -> all_word ref = true -> all_word tok = true ->
  tok <> ref ->
  pre = EmptyString \/ ends_nonword pre = true ->
  boundary (first_char post) = true ->
  sub_bounded ref repl (pre ++ tok ++ post)
  = (sub_bounded ref repl pre ++ tok ++ sub_bounded ref repl post)%string.
Proof.
  intros Hne Hw Ht Hdiff [->|He] Hb; unfold sub_bounded.
  - cbn [sub_scan]. rewrite !string_app_nil. by apply sub_scan_token.
  - rewrite sub_scan_app;
      [|done..|destruct pre; [discriminate He | simpl; lia]].
    f_equal. by apply sub_scan_token.
Qed.

(** ** Sorting by length *)

Lemma insert_by_length_perm x l : insert_by_length x l ≡ₚ x :: l.
Proof.
  induction l as [|y l IH]; simpl; [done|].
  destruct (_ <=? _); [done|]. rewrite IH. apply Permutation_swap.
Qed.

Lemma sort_by_length_desc_perm l : sort_by_length_desc l ≡ₚ l.
Proof.
  induction l as [|x l IH]; simpl; [done|].
  rewrite insert_by_length_perm. by rewrite IH.
Qed.

Lemma insert_by_length_sorted x l :
  StronglySorted longer_first l -> StronglySorted longer_first (insert_by_length x l).
Proof.
  induction 1 as [|y l Hs IH Hy]; simpl.
  - repeat constructor.
  - destruct (Nat.leb_spec (String.length y) (String.length x)) as [Hle|Hgt].
    + constructor; [by constructor|]. constructor; [done|].
      eapply Forall_impl; [exact Hy|]. unfold longer_first. intros z. lia.
    + constructor; [done|].
      rewrite insert_by_length_perm. constructor; [unfold longer_first; lia | done].
Qed.

Lemma sort_by_length_desc_sorted l :
  StronglySorted longer_first (sort_by_length_desc l).
Proof.
  induction l as [|x l IH]; simpl; [constructor | by apply insert_by_length_sorted].
Qed.

(** What holds of the annotation.  Whatever the iteration order of the
    set of references, a registry that gives AA1 the header Total and A1
    the header Qty turns the formula =AA1+A1 into =[Total]+[Qty].  For
    every formula the references are substituted in an order of decreasing
    length that holds each distinct reference once.  The substitution of a
    reference without dollar sign leaves every word token other than the
    reference itself untouched: such a reference is not replaced inside a
    longer alphanumeric token. *)
Theorem annotation_longest_first_and_boundary_anchored
    (set_order : list string -> list string) (sheet_name : string)
    (table_info : TableInfo) :
  set_iteration set_order ->
  find_header_for_cell sheet_name "AA1" table_info = Some "Total" ->
  find_header_for_cell sheet_name "A1" table_info = Some "Qty" ->
  annotate_formula set_order "=AA1+A1" sheet_name table_info
  = Some "=[Total]+[Qty]"
  /\ (forall formula,
        let order := sort_by_length_desc (set_order (extract_references formula)) in
        StronglySorted longer_first order
        /\ order ≡ₚ remove_dups (extract_references formula)
        /\ annotate_formula set_order formula sheet_name table_info
           = foldl (annotate_step sheet_name table_info) (Some formula) order)
  /\ (forall ref repl pre tok post,
        ref <> EmptyString -> all_word ref = true -> all_word tok = true ->
        tok <> ref ->
        pre = EmptyString \/ ends_nonword pre = true ->
        boundary (first_char post) = true ->
        sub_bounded ref repl (pre ++ tok ++ post)
        = (sub_bounded ref repl pre ++ tok ++ sub_bounded ref repl post)%string).
Proof.
  intros Hset Htotal Hqty. split; [|split].
  - unfold annotate_formula.
    assert (extract_references "=AA1+A1" = ["AA1"; "A1"]) as -> by reflexivity.
    assert (sort_by_length_desc (set_order ["AA1"; "A1"]) = ["AA1"; "A1"]) as ->.
    { pose proof (Hset ["AA1"; "A1"]) as Hp.
      assert (remove_dups ["AA1"; "A1"] = ["AA1"; "A1"]) as Hd by reflexivity.
      rewrite Hd in Hp. symmetry in Hp.
      apply Permutation_length_2_inv in Hp as [-> | ->]; reflexivity. }
    assert (annotate_step sheet_name table_info (Some "=AA1+A1") "AA1"
            = Some "=[Total]+A1") as E1.
    { unfold annotate_step. rewrite Htotal. reflexivity. }
    assert (annotate_step sheet_name table_info (Some "=[Total]+A1") "A1"
            = Some "=[Total]+[Qty]") as E2.
    { unfold annotate_step. rewrite Hqty. reflexivity. }
    cbn [foldl]. by rewrite E1, E2.
  - intros formula order. split; [apply sort_by_length_desc_sorted|].
    split; [|done]. unfold order.
    rewrite sort_by_length_desc_perm. apply Hset.
  - intros ref repl pre tok post. apply sub_bounded_keeps_token.
Qed.

Lemma annotation_longest_first_witness :
  set_iteration remove_dups
  /\ find_header_for_cell "Sheet1" "AA1" registry_qty_total = Some "Total"
  /\ find_header_for_cell "Sheet1" "A1" registry_qty_total = Some "Qty"
  /\ annotate_formula remove_dups "=AA1+A1" "Sheet1" registry_qty_total
     = Some "=[Total]+[Qty]".
Proof.
  assert (set_iteration remove_dups) as Hset by (intros l; reflexivity).
  assert (find_header_for_cell "Sheet1" "AA1" registry_qty_total = Some "Total")
    as Htotal by (vm_compute; reflexivity).
  assert (find_header_for_cell "Sheet1" "A1" registry_qty_total = Some "Qty")
    as Hqty by (vm_compute; reflexivity).
  repeat (split; [assumption|]).
  exact (proj1 (annotation_longest_first_and_boundary_anchored
                  remove_dups "Sheet1" registry_qty_total Hset Htotal Hqty)).
Defined.

(** ** The table report: examples *)

Example get_column_letter_examples :
  map get_column_letter [1; 26; 27; 52; 703; 18278]%Z
  = ["A"; "Z"; "AA"; "AZ"; "AAA"; "ZZZ"].
Proof. vm_compute. reflexivity. Qed.

Example report_of_sheet_numbers :
  sheet_report 10 sheet_numbers
  = Some (mkSheetReport []
            [mkImplicitTable "Table 1" "A1:B2" 1 1 2 2 ["1"; "2"]]).
Proof. vm_compute. reflexivity. Qed.

Example report_of_sheet_sales :
  sheet_report 10 sheet_sales
  = Some (mkSheetReport
            [mkExplicitTable "Sales" "Sales" "A1:B2" ["Date"; "Amount"] 1 1 2 2]
            []).
Proof. vm_compute. reflexivity. Qed.

Example report_of_sheet_mixed :
  sheet_report 10 sheet_mixed
  = Some (mkSheetReport
            [mkExplicitTable "Sales" "Sales" "A1:B2" ["Date"; "Amount"] 1 1 2 2]
            [mkImplicitTable "Table 2" "A4:B5" 4 1 5 2 ["Item"; "Qty"]]).
Proof. vm_compute. reflexivity. Qed.

(** ** The header filter *)

Lemma header_rejected_false s : header_rejected s = false -> header_ok s.
Proof.
  unfold header_rejected, header_ok. intros H.
  apply orb_false_iff in H as [H Ha]. apply orb_false_iff in H as [Ht Hb].
  apply negb_false_iff in Ht, Ha. repeat split; [|done..].
  intros ->. discriminate Ht.
Qed.

Lemma declared_headers_ok cols h : h ∈ declared_headers cols -> header_ok h.
Proof.
  unfold declared_headers. intros Hin.
  apply list_elem_of_omap in Hin as ([name|] & _ & Hsome); [|done].
  destruct (truthy name); [|done].
  destruct (header_rejected (strip name)) eqn:Hr; [done|].
  injection Hsome as <-. by apply header_rejected_false.
Qed.

Lemma first_row_headers_ok ws r1 c1 c2 h :
  h ∈ first_row_headers ws r1 c1 c2 -> header_ok h.
Proof.
  unfold first_row_headers. intros Hin.
  apply list_elem_of_omap in Hin as (j & _ & Hsome).
  destruct (column_hidden ws (Z.to_nat j)); [done|].
  destruct (header_rejected _) eqn:Hr; [done|].
  injection Hsome as <-. by apply header_rejected_false.
Qed.

Lemma sanitize_headers_ok ws table_obj r1 c1 r2 c2 h :
  h ∈ sanitize_table_headers_from_tableobj ws table_obj r1 c1 r2 c2 ->
  header_ok h.
Proof.
  unfold sanitize_table_headers_from_tableobj.
  destruct (declared_headers (tableColumns table_obj)) as [|x l] eqn:E.
  - apply first_row_headers_ok.
  - rewrite <- E. apply declared_headers_ok.
Qed.

Lemma filter_implicit_header_elem header h :
  h ∈ filter_implicit_header header ->
  h <> EmptyString /\ starts_with_bracket h = false.
Proof.
  unfold filter_implicit_header. intros Hin.
  apply list_filter_In in Hin as [_ Hp].
  apply andb_true_iff in Hp as [Ht Hb]. apply negb_true_iff in Hb.
  split; [|done]. intros ->. discriminate Ht.
Qed.

Lemma implicit_entries_boxes ws boxes : forall first entries,
  implicit_entries ws first boxes = Some entries ->
  Forall2 (fun box t =>
             box = (it_r1 t, it_r2 t, it_c1 t, it_c2 t)
             /\ exists header body,
                  detect_header_and_body ws (it_r1 t) (it_r2 t) (it_c1 t) (it_c2 t)
                  = Some (header, body)
                  /\ it_header t = filter_implicit_header header)
          boxes entries.
Proof.
  induction boxes as [|box boxes IH]; intros first entries; simpl.
  - intros [= <-]. constructor.
  - destruct (implicit_entry ws first box) as [e|] eqn:He; [|done].
    destruct (implicit_entries ws (S first) boxes) as [es|] eqn:Hes; [|done].
    intros [= <-]. constructor; [|by eapply IH].
    unfold implicit_entry in He. destruct box as [[[r1 r2] c1] c2].
    destruct (detect_header_and_body ws r1 r2 c1 c2) as [[header body]|] eqn:Hd;
      [|done].
    injection He as <-. simpl. split; [done|]. eauto.
Qed.

Lemma report_headers_of fuel ws rep :
  sheet_report fuel ws = Some rep ->
  (forall e, e ∈ rep_explicit rep -> forall h, h ∈ et_headers e -> header_ok h)
  /\ (forall t, t ∈ rep_implicit rep -> forall h, h ∈ it_header t ->
        h <> EmptyString /\ starts_with_bracket h = false).
Proof.
  unfold sheet_report.
  destruct (implicit_boxes fuel ws) as [boxes|]; [|done].
  destruct (implicit_entries ws _ boxes) as [implicit|] eqn:Hi; [|done].
  intros [= <-]. simpl. split.
  - intros e He h Hh. unfold explicit_entries in He.
    apply list_elem_of_lookup in He as [k Hk].
    rewrite list_lookup_imap in Hk.
    destruct (get_explicit_table_regions ws !! k) as [reg|]; [|done].
    destruct reg as [[[[[r1 c1] r2] c2] name] t]. injection Hk as <-.
    simpl in Hh. by eapply sanitize_headers_ok.
  - intros t Ht h Hh. apply implicit_entries_boxes in Hi.
    apply list_elem_of_lookup in Ht as [k Hk].
    destruct (Forall2_lookup_r _ _ _ _ _ Hi Hk) as (box & _ & _ & header & body & _ & Hf).
    rewrite Hf in Hh. by eapply filter_implicit_header_elem.
Qed.

(** C3 (as stated) fails on the code: the header of the implicit table of
    a block of numbers is made of its numbers. *)
Lemma header_filter_as_specified_fails :
  exists rep, sheet_report 10 sheet_numbers = Some rep
              /\ ~ header_filter_as_specified rep.
Proof.
  eexists. split; [vm_compute; reflexivity|].
  intros [_ Himp].
  destruct (Himp _ (list_elem_of_here _ _) "1" (list_elem_of_here _ _))
    as (_ & _ & Halpha).
  discriminate Halpha.
Qed.

(** ** Islands *)

Example report_of_sheet_ring :
  sheet_report 10 sheet_ring
  = Some (mkSheetReport
            [mkExplicitTable "People" "People" "B2:B3" ["Name"] 2 2 3 2]
            [mkImplicitTable "Table 2" "A1:C4" 1 1 4 3 ["a"; "b"; "c"]]).
Proof. vm_compute. reflexivity. Qed.

(** The box of [flood] only grows, and stays on the grid. *)
Lemma flood_loop_box fuel grid : forall stack visited box visited' box',
  flood_loop fuel grid stack visited box = Some (visited', box') ->
  let '(a, b, c, d) := box in
  let '(a', b', c', d') := box' in
  (a' <= a /\ b <= b' /\ c' <= c /\ d <= d')%Z
  /\ ((0 <= a)%Z -> (0 <= a')%Z) /\ ((0 <= c)%Z -> (0 <= c')%Z)
  /\ ((b < Z.of_nat (nrows grid))%Z -> (b' < Z.of_nat (nrows grid))%Z)
  /\ ((d < Z.of_nat (ncols grid))%Z -> (d' < Z.of_nat (ncols grid))%Z).
Proof.
  induction fuel as [|fuel IH]; intros stack visited box visited' box' H.
  - destruct stack as [|[i j] rest]; simpl in H; [|done].
    injection H as <- <-. destruct box as [[[a b] c] d]. lia.
  - destruct stack as [|[i j] rest]; simpl in H.
    { injection H as <- <-. destruct box as [[[a b] c] d]. lia. }
    destruct ((i <? 0)%Z || (Z.of_nat (nrows grid) <=? i)%Z
              || (j <? 0)%Z || (Z.of_nat (ncols grid) <=? j)%Z) eqn:Hout.
    { by apply IH in H. }
    destruct (grid_get visited (Z.to_nat i) (Z.to_nat j)
              || negb (grid_get grid (Z.to_nat i) (Z.to_nat j))).
    { by apply IH in H. }
    destruct box as [[[a b] c] d]. apply IH in H.
    destruct box' as [[[a' b'] c'] d'].
    rewrite !orb_false_iff, !Z.ltb_ge, !Z.leb_gt in Hout. lia.
Qed.

Lemma grid_get_inside g i j :
  grid_wf g -> grid_get g i j = true -> i < nrows g /\ j < ncols g.
Proof.
  intros Hwf H. unfold grid_get in H.
  destruct (cells g !! i) as [row|] eqn:Hrow; [|done].
  destruct (row !! j) as [b|] eqn:Hcell; [|done].
  assert (length row = ncols g) as Hlen by (eapply Forall_lookup_1 in Hwf; eauto).
  apply lookup_lt_Some in Hrow, Hcell. unfold nrows. lia.
Qed.

Lemma island_step_ok grid min_rows min_cols i j visited islands visited' islands' :
  grid_wf grid ->
  island_step grid min_rows min_cols i (Some (visited, islands)) j
  = Some (visited', islands') ->
  Forall (island_ok grid) islands -> Forall (island_ok grid) islands'.
Proof.
  unfold island_step. intros Hwf H Hok.
  destruct (grid_get grid i j && negb (grid_get visited i j)) eqn:Hg;
    [|by injection H as <- <-].
  apply andb_true_iff in Hg as [Hg _].
  destruct (grid_get_inside grid i j Hwf Hg) as [Hi Hj].
  destruct (flood grid visited (Z.of_nat i) (Z.of_nat j))
    as [[v' [[[a b] c] d]]|] eqn:Hf; [|done].
  unfold flood in Hf. apply flood_loop_box in Hf.
  destruct (_ && _)%bool; injection H as <- <-; [|done].
  apply Forall_app. split; [done|]. constructor; [|constructor].
  split; [simpl; lia|]. split; [|simpl; lia].
  exists (Z.of_nat i + 1)%Z, (Z.of_nat j + 1)%Z. split; [simpl; lia|].
  rewrite grid_at_get by lia.
  by replace (Z.to_nat (Z.of_nat i + 1 - 1)) with i by lia;
     replace (Z.to_nat (Z.of_nat j + 1 - 1)) with j by lia.
Qed.

Lemma island_row_ok grid min_rows min_cols i js :
  grid_wf grid ->
  forall st visited' islands',
  foldl (island_step grid min_rows min_cols i) st js = Some (visited', islands') ->
  exists visited islands,
    st = Some (visited, islands)
    /\ (Forall (island_ok grid) islands -> Forall (island_ok grid) islands').
Proof.
  intros Hwf.
  induction js as [|j js IH]; intros st visited' islands' H; simpl in H.
  - subst. eauto.
  - apply IH in H as (v1 & is1 & Hstep & Hok).
    destruct st as [[visited islands]|]; [|done].
    exists visited, islands. split; [done|]. intros Hall.
    apply Hok. by eapply island_step_ok.
Qed.

Lemma flood_fill_rows_ok grid min_rows min_cols rows :
  grid_wf grid ->
  forall st visited' islands',
  foldl (fun st i =>
           foldl (island_step grid min_rows min_cols i) st (seq 0 (ncols grid)))
        st rows = Some (visited', islands') ->
  exists visited islands,
    st = Some (visited, islands)
    /\ (Forall (island_ok grid) islands -> Forall (island_ok grid) islands').
Proof.
  intros Hwf.
  induction rows as [|i rows IH]; intros st visited' islands' H; simpl in H.
  - subst. eauto.
  - apply IH in H as (v1 & is1 & Hrow & Hok).
    apply island_row_ok in Hrow as (visited & islands & -> & Hok'); [|done].
    exists visited, islands. split; [done|]. auto.
Qed.

Lemma flood_fill_islands_ok grid min_rows min_cols islands :
  grid_wf grid ->
  flood_fill_islands grid min_rows min_cols = Some islands ->
  Forall (island_ok grid) islands.
Proof.
  intros Hwf. unfold flood_fill_islands, flood_fill_state.
  destruct (foldl _ _ _) as [[visited' islands']|] eqn:H; [|done].
  intros [= <-].
  apply flood_fill_rows_ok in H as (v & is0 & [= <- <-] & Hok); [|done].
  apply Hok. constructor.
Qed.

(** ** The recursion budget *)

Lemma extend_all_mono {A B} (f g : A -> option (list B)) l out :
  (forall x ys, x ∈ l -> f x = Some ys -> g x = Some ys) ->
  extend_all f l = Some out -> extend_all g l = Some out.
Proof.
  revert out. induction l as [|x l IH]; intros out Hfg; simpl; [done|].
  destruct (f x) as [ys|] eqn:Hf; [|done].
  destruct (extend_all f l) as [rest|] eqn:He; [|done].
  intros [= <-].
  rewrite (Hfg x ys (list_elem_of_here _ _) Hf).
  rewrite (IH rest); [done | | done].
  intros y zs Hy. apply Hfg. by apply list_elem_of_further.
Qed.

(** A result obtained within a budget is obtained within any larger one. *)
Lemma split_fuel_mono grid : forall fuel fuel',
  fuel <= fuel' ->
  (forall b out, split_bbox_on_empty_lines fuel grid b = Some out ->
                 split_bbox_on_empty_lines fuel' grid b = Some out)
  /\ (forall b out, split_bbox_on_empty_rows fuel grid b = Some out ->
                    split_bbox_on_empty_rows fuel' grid b = Some out).
Proof.
  induction fuel as [|fuel IH]; intros fuel' Hle; [by split|].
  destruct fuel' as [|fuel']; [lia|].
  destruct (IH fuel' ltac:(lia)) as [IHl IHr].
  split; intros b out.
  - rewrite !split_lines_unfold.
    destruct (empty_indices (col_sums _)); [done|].
    apply extend_all_mono. intros run ys _. apply IHr.
  - rewrite !split_rows_unfold.
    destruct (empty_indices (row_sums _)); [done|].
    apply extend_all_mono. intros run ys _. apply IHl.
Qed.

(** Whatever the budget, a result of the entry point is a good splitting. *)
Lemma split_result_good grid fuel b out :
  grid_wf grid -> bbox_valid b ->
  split_bbox_on_empty_lines fuel grid b = Some out -> split_good grid b out.
Proof.
  intros Hwf Hv H.
  set (big := Nat.max fuel (S (box_measure b))).
  destruct (proj1 (split_returns_good grid Hwf big) b Hv ltac:(lia))
    as (out' & H' & Hgood).
  apply (proj1 (split_fuel_mono grid fuel big ltac:(lia))) in H.
  congruence.
Qed.

Lemma extend_all_Some_inv {A B} (f : A -> option (list B)) l out :
  extend_all f l = Some out ->
  exists yss, out = concat yss /\ Forall2 (fun x ys => f x = Some ys) l yss.
Proof.
  revert out. induction l as [|x l IH]; intros out; simpl.
  - intros [= <-]. exists []. by split; [|constructor].
  - destruct (f x) as [ys|] eqn:Hf; [|done].
    destruct (extend_all f l) as [rest|] eqn:He; [|done].
    intros [= <-]. destruct (IH rest eq_refl) as (yss & -> & H2).
    exists (ys :: yss). by split; [|constructor].
Qed.

(** ** The grid of a sheet *)

Lemma mark_cell_shape ws mask i row g j :
  grid_wf g -> 
  grid_wf (mark_cell ws mask i row g j)
  /\ nrows (mark_cell ws mask i row g j) = nrows g
  /\ ncols (mark_cell ws mask i row g j) = ncols g.
Proof.
  intros Hwf. rewrite mark_cell_eq. destruct (cell_marked ws mask i row j); [|done].
  repeat split; [by apply grid_wf_set | apply nrows_grid_set].
Qed.

Lemma mark_row_shape ws mask i row js : forall g,
  grid_wf g ->
  let g' := foldl (mark_cell ws mask i row) g js in
  grid_wf g' /\ nrows g' = nrows g /\ ncols g' = ncols g.
Proof.
  induction js as [|j js IH]; intros g Hwf; simpl; [done|].
  destruct (mark_cell_shape ws mask i row g j Hwf) as (Hw & Hn & Hc).
  destruct (IH _ Hw) as (Hw' & Hn' & Hc'). repeat split; [done | congruence..].
Qed.

Lemma build_grid_shape ws regs :
  let g := build_grid_excluding_explicit ws regs in
  grid_wf g /\ nrows g = length (ws_rows ws) /\ ncols g = max_column ws.
Proof.
  unfold build_grid_excluding_explicit.
  set (mask := explicit_mask_of _ _ _). set (C := max_column ws).
  assert (forall l g, grid_wf g ->
            let g' := foldl (fun g '(i, row) =>
                               foldl (mark_cell ws mask i row) g (seq 0 C)) g l in
            grid_wf g' /\ nrows g' = nrows g /\ ncols g' = ncols g) as Hfold.
  { induction l as [|[i row] l IH]; intros g Hwf; simpl; [done|].
    destruct (mark_row_shape ws mask i row (seq 0 C) g Hwf) as (Hw & Hn & Hc).
    destruct (IH _ Hw) as (Hw' & Hn' & Hc'). repeat split; [done | congruence..]. }
  destruct (Hfold (imap pair (ws_rows ws)) (zeros (length (ws_rows ws)) C)
              (grid_wf_zeros _ _)) as (Hw & Hn & Hc).
  repeat split; [done | by rewrite Hn, nrows_zeros | by rewrite Hc].
Qed.

Lemma grid_at_inside g r c :
  grid_wf g -> grid_at g r c = true ->
  (1 <= r <= Z.of_nat (nrows g))%Z /\ (1 <= c <= Z.of_nat (ncols g))%Z.
Proof.
  intros Hwf H. apply grid_at_true in H as (Hr & Hc & row & Hrow & Hcell).
  assert (length row = ncols g) as Hlen by (eapply Forall_lookup_1 in Hwf; eauto).
  apply lookup_lt_Some in Hrow, Hcell. unfold nrows. lia.
Qed.

(** ** Implicit regions and explicit ranges *)

(** A cell marked in the grid lies in no explicit range. *)
Lemma marked_cell_unclaimed ws regs r c :
  Forall region_valid regs ->
  grid_at (build_grid_excluding_explicit ws regs) r c = true ->
  ~ in_any_region regs r c.
Proof.
  intros Hv Hg Hin.
  destruct (build_grid_shape ws regs) as (Hwf & Hn & Hc).
  destruct (grid_at_inside _ r c Hwf Hg) as [Hr Hc'].
  rewrite Hn in Hr. rewrite Hc in Hc'.
  rewrite grid_at_get in Hg by lia.
  rewrite build_grid_get in Hg by lia.
  destruct (ws_rows ws !! Z.to_nat (r - 1)) as [row|]; [|done].
  unfold cell_marked in Hg. rewrite explicit_mask_get in Hg by lia.
  assert (masked (length (ws_rows ws)) (max_column ws) regs
            (Z.to_nat (r - 1)) (Z.to_nat (c - 1)) = true) as Hm.
  { apply masked_in_any_region; [done | lia | lia |].
    by replace (Z.of_nat (Z.to_nat (r - 1)) + 1)%Z with r by lia;
       replace (Z.of_nat (Z.to_nat (c - 1)) + 1)%Z with c by lia. }
  rewrite Hm in Hg. simpl in Hg. by rewrite andb_false_r in Hg.
Qed.

Lemma implicit_boxes_have_cell fuel ws boxes :
  implicit_boxes fuel ws = Some boxes ->
  Forall (has_cell (build_grid_excluding_explicit ws (get_explicit_table_regions ws)))
         boxes.
Proof.
  unfold implicit_boxes.
  set (grid := build_grid_excluding_explicit ws (get_explicit_table_regions ws)).
  destruct (flood_fill_islands grid 2 2) as [islands|] eqn:Hisl; [|done].
  intros He.
  destruct (build_grid_shape ws (get_explicit_table_regions ws)) as (Hwf & _).
  fold grid in Hwf. apply flood_fill_islands_ok in Hisl; [|done].
  apply extend_all_Some_inv in He as (yss & -> & H2).
  induction H2 as [|isl ys islands yss Hsplit _ IH]; simpl; [constructor|].
  apply Forall_cons in Hisl as [(Hvalid & Hcell & _) Hisl].
  apply Forall_app. split; [|by apply IH].
  apply split_result_good in Hsplit; [|done..].
  destruct Hsplit as (_ & _ & _ & _ & Hc). by apply Hc.
Qed.

Lemma explicit_entry_region ws regs e r c :
  e ∈ explicit_entries ws regs -> cell_in (explicit_box e) r c ->
  in_any_region regs r c.
Proof.
  unfold explicit_entries. intros He Hin.
  apply list_elem_of_lookup in He as [k Hk].
  rewrite list_lookup_imap in Hk.
  destruct (regs !! k) as [reg|] eqn:Hreg; [|done].
  apply Exists_exists. exists reg. split; [by eapply list_elem_of_lookup_2|].
  destruct reg as [[[[[r1 c1] r2] c2] name] t]. injection Hk as <-.
  exact Hin.
Qed.

Lemma implicit_regions_of fuel ws rep :
  Forall region_valid (get_explicit_table_regions ws) ->
  sheet_report fuel ws = Some rep ->
  forall t, t ∈ rep_implicit rep ->
    exists r c,
      cell_in (implicit_box t) r c
      /\ grid_at (build_grid_excluding_explicit ws (get_explicit_table_regions ws))
                 r c = true
      /\ forall e, e ∈ rep_explicit rep -> ~ cell_in (explicit_box e) r c.
Proof.
  intros Hv. unfold sheet_report.
  destruct (implicit_boxes fuel ws) as [boxes|] eqn:Hb; [|done].
  destruct (implicit_entries ws _ boxes) as [implicit|] eqn:Hi; [|done].
  intros [= <-] t Ht. simpl in *.
  apply implicit_boxes_have_cell in Hb. apply implicit_entries_boxes in Hi.
  apply list_elem_of_lookup in Ht as [k Hk].
  destruct (Forall2_lookup_r _ _ _ _ _ Hi Hk) as (box & Hbox & -> & _).
  eapply Forall_lookup_1 in Hb; [|exact Hbox].
  destruct Hb as (r & c & Hin & Hg).
  exists r, c. split; [exact Hin|]. split; [exact Hg|].
  intros e He Hc. eapply marked_cell_unclaimed; [exact Hv | exact Hg |].
  by eapply explicit_entry_region.
Qed.

(** C8 (as stated) fails on the code: the implicit region grown from the
    ring around a declared table is the box of the whole ring, and the
    table lies inside it. *)
Lemma regions_disjoint_as_specified_fails :
  exists rep, sheet_report 10 sheet_ring = Some rep
              /\ ~ regions_disjoint_as_specified rep.
Proof.
  eexists. split; [vm_compute; reflexivity|].
  intros [Hdisj _].
  apply (Hdisj _ _ (list_elem_of_here _ _) (list_elem_of_here _ _) 2%Z 2%Z);
    simpl; lia.
Qed.

(** ** The flood fill returns *)

Lemma bool_sum_insert row j :
  row !! j = Some false -> bool_sum (<[j := true]> row) = S (bool_sum row).
Proof.
  revert j. induction row as [|b row IH]; intros j Hj; [done|].
  destruct j as [|j]; simpl in *.
  - by injection Hj as ->.
  - rewrite (IH j Hj). by destruct b.
Qed.

Lemma bool_sum_le row : bool_sum row <= length row.
Proof. induction row as [|[] row IH]; simpl; lia. Qed.

Lemma true_count_set v i j row :
  cells v !! i = Some row -> row !! j = Some false ->
  true_count (grid_set v i j true) = S (true_count v).
Proof.
  unfold true_count, grid_set. simpl. generalize (cells v). clear v.
  intros l. revert i. induction l as [|r l IH]; intros i Hi Hj; [done|].
  destruct i as [|i]; simpl in *.
  - injection Hi as ->. by rewrite bool_sum_insert.
  - change (bool_sum r + sum_list (map bool_sum (alter (<[j := true]>) i l))
            = S (bool_sum r + sum_list (map bool_sum l))).
    by rewrite (IH i Hi Hj), Nat.add_succ_r.
Qed.

Lemma true_count_le v : grid_wf v -> true_count v <= nrows v * ncols v.
Proof.
  unfold true_count, grid_wf, nrows. generalize (ncols v), (cells v).
  intros C l Hwf. induction Hwf as [|r l Hr _ IH]; simpl; [lia|].
  pose proof (bool_sum_le r). lia.
Qed.

(** Every turn of the loop pops one entry; a turn that visits a cell
    pushes four and takes one cell from the unvisited ones. *)
Lemma flood_loop_returns grid : forall fuel stack visited box,
  grid_wf visited -> nrows visited = nrows grid -> ncols visited = ncols grid ->
  length stack + 4 * (nrows grid * ncols grid - true_count visited) <= fuel ->
  exists visited' box',
    flood_loop fuel grid stack visited box = Some (visited', box')
    /\ grid_wf visited' /\ nrows visited' = nrows grid
    /\ ncols visited' = ncols grid.
Proof.
  induction fuel as [|fuel IH]; intros stack visited box Hwf Hn Hc Hm.
  - destruct stack as [|p rest]; [|simpl in Hm; lia]. simpl. eauto 6.
  - destruct stack as [|[i j] rest]; simpl; [eauto 6|]. simpl in Hm.
    destruct ((i <? 0)%Z || (Z.of_nat (nrows grid) <=? i)%Z
              || (j <? 0)%Z || (Z.of_nat (ncols grid) <=? j)%Z) eqn:Hout.
    { apply IH; [done..|lia]. }
    destruct (grid_get visited (Z.to_nat i) (Z.to_nat j)) eqn:Hvis; simpl.
    { apply IH; [done..|lia]. }
    destruct (grid_get grid (Z.to_nat i) (Z.to_nat j)); simpl;
      [|apply IH; [done..|lia]].
    rewrite !orb_false_iff, !Z.ltb_ge, !Z.leb_gt in Hout.
    destruct (lookup_lt_is_Some_2 (cells visited) (Z.to_nat i)
                ltac:(unfold nrows in *; lia)) as [row Hrow].
    assert (length row = ncols visited) as Hlen
      by (eapply Forall_lookup_1 in Hwf; eauto).
    destruct (lookup_lt_is_Some_2 row (Z.to_nat j) ltac:(lia)) as [b Hb].
    assert (b = false) as ->.
    { unfold grid_get in Hvis. by rewrite Hrow, Hb in Hvis. }
    pose proof (true_count_set visited _ _ row Hrow Hb) as Hcount.
    pose proof (grid_wf_set visited (Z.to_nat i) (Z.to_nat j) true Hwf) as Hwf'.
    pose proof (true_count_le _ Hwf') as Hle.
    rewrite nrows_grid_set in Hle. simpl in Hle.
    destruct box as [[[a b'] c] d].
    apply IH; [done | by rewrite nrows_grid_set | done |].
    simpl. rewrite Hcount. rewrite Hn, Hc in Hle. lia.
Qed.

Lemma island_step_returns grid min_rows min_cols i j visited islands :
  grid_wf visited -> nrows visited = nrows grid -> ncols visited = ncols grid ->
  exists visited' islands',
    island_step grid min_rows min_cols i (Some (visited, islands)) j
    = Some (visited', islands')
    /\ grid_wf visited' /\ nrows visited' = nrows grid
    /\ ncols visited' = ncols grid.
Proof.
  intros Hwf Hn Hc. unfold island_step.
  destruct (grid_get grid i j && negb (grid_get visited i j)); [|eauto 7].
  destruct (flood_loop_returns grid (flood_budget grid)
              [(Z.of_nat i, Z.of_nat j)] visited
              (Z.of_nat i, Z.of_nat i, Z.of_nat j, Z.of_nat j) Hwf Hn Hc)
    as (v' & [[[a b] c] d] & Hf & Hwf' & Hn' & Hc').
  { unfold flood_budget. simpl. lia. }
  unfold flood. rewrite Hf. destruct (_ && _)%bool; eauto 7.
Qed.

Lemma flood_fill_islands_returns grid min_rows min_cols :
  exists islands, flood_fill_islands grid min_rows min_cols = Some islands.
Proof.
  unfold flood_fill_islands, flood_fill_state.
  assert (forall js i visited islands,
            grid_wf visited -> nrows visited = nrows grid ->
            ncols visited = ncols grid ->
            exists visited' islands',
              foldl (island_step grid min_rows min_cols i)
                    (Some (visited, islands)) js = Some (visited', islands')
              /\ grid_wf visited' /\ nrows visited' = nrows grid
              /\ ncols visited' = ncols grid) as Hrow.
  { induction js as [|j js IH]; intros i visited islands Hwf Hn Hc; cbn [foldl].
    - eauto 7.
    - destruct (island_step_returns grid min_rows min_cols i j visited islands
                  Hwf Hn Hc) as (v1 & is1 & -> & Hwf1 & Hn1 & Hc1).
      by apply IH. }
  assert (forall rows visited islands,
            grid_wf visited -> nrows visited = nrows grid ->
            ncols visited = ncols grid ->
            exists visited' islands',
              foldl (fun st i =>
                       foldl (island_step grid min_rows min_cols i) st
                             (seq 0 (ncols grid)))
                    (Some (visited, islands)) rows = Some (visited', islands')
              /\ grid_wf visited' /\ nrows visited' = nrows grid
              /\ ncols visited' = ncols grid) as Hrows.
  { induction rows as [|i rows IH]; intros visited islands Hwf Hn Hc; cbn [foldl].
    - eauto 7.
    - destruct (Hrow (seq 0 (ncols grid)) i visited islands Hwf Hn Hc)
        as (v1 & is1 & -> & Hwf1 & Hn1 & Hc1).
      by apply IH. }
  destruct (Hrows (seq 0 (nrows grid)) (zeros (nrows grid) (ncols grid)) []
              (grid_wf_zeros _ _) (nrows_zeros _ _) eq_refl)
    as (v' & islands & -> & _).
  by exists islands.
Qed.

(** ** The report returns *)

Lemma detect_header_rows_returns rows :
  rows <> [] -> is_Some (detect_header_rows rows).
Proof.
  intros Hne. unfold detect_header_rows.
  destruct (header_loop rows _); [done|]. by destruct rows.
Qed.

Lemma implicit_entries_returns ws boxes : forall first,
  Forall bbox_valid boxes -> is_Some (implicit_entries ws first boxes).
Proof.
  induction boxes as [|box boxes IH]; intros first Hv; simpl; [done|].
  apply Forall_cons in Hv as [Hbox Hv].
  destruct (IH (S first) Hv) as [es ->].
  destruct box as [[[r1 r2] c1] c2]. unfold implicit_entry, detect_header_and_body.
  destruct (detect_header_rows_returns (region_rows ws r1 r2 c1 c2))
    as [[header body] ->]; [|done].
  unfold region_rows, py_range_incl. destruct Hbox as [Hr _].
  intros Hnil. apply (f_equal length) in Hnil.
  rewrite length_map, length_seqZ in Hnil. simpl in Hnil. lia.
Qed.

Lemma implicit_boxes_returns fuel ws :
  length (ws_rows ws) + max_column ws < fuel ->
  exists boxes, implicit_boxes fuel ws = Some boxes /\ Forall bbox_valid boxes.
Proof.
  intros Hfuel. unfold implicit_boxes.
  set (grid := build_grid_excluding_explicit ws (get_explicit_table_regions ws)).
  destruct (build_grid_shape ws (get_explicit_table_regions ws)) as (Hwf & Hn & Hc).
  fold grid in Hwf, Hn, Hc.
  destruct (flood_fill_islands_returns grid 2 2) as [islands Hisl].
  rewrite Hisl. apply flood_fill_islands_ok in Hisl; [|done].
  destruct (extend_all_Some (split_bbox_on_empty_lines fuel grid)
              (split_good grid) islands) as (yss & -> & H2).
  { eapply Forall_impl; [exact Hisl|].
    intros [[[r1 r2] c1] c2] (Hv & _ & Hs).
    apply (proj1 (split_returns_good grid Hwf fuel)); [done|].
    simpl in *. lia. }
  eexists. split; [done|].
  clear Hisl. induction H2 as [|isl ys islands yss Hg _ IH]; simpl; [constructor|].
  apply Forall_app. split; [|done]. by destruct Hg as (_ & ? & _).
Qed.

(** With a recursion budget above the number of rows plus the number of
    columns of the sheet, the report of the sheet is produced. *)
Lemma sheet_report_returns fuel ws :
  length (ws_rows ws) + max_column ws < fuel ->
  exists rep, sheet_report fuel ws = Some rep.
Proof.
  intros Hfuel. unfold sheet_report.
  destruct (implicit_boxes_returns fuel ws Hfuel) as (boxes & -> & Hv).
  destruct (implicit_entries_returns ws boxes
              (S (length (get_explicit_table_regions ws))) Hv) as [es ->].
  eauto.
Qed.

(** ** The report of a sheet *)

(** C3 (as the code has it).  With a recursion budget above the number of
    rows plus the number of columns of the sheet the report is produced,
    and in it every header of an explicit table is non-empty, does not
    start with a bracket and holds a letter, while every header of an
    implicit table is non-empty and does not start with a bracket. *)
Theorem report_headers_filtered fuel ws :
  length (ws_rows ws) + max_column ws < fuel ->
  exists rep,
    sheet_report fuel ws = Some rep
    /\ (forall e, e ∈ rep_explicit rep -> forall h, h ∈ et_headers e -> header_ok h)
    /\ (forall t, t ∈ rep_implicit rep -> forall h, h ∈ it_header t ->
          h <> EmptyString /\ starts_with_bracket h = false).
Proof.
  intros Hfuel. destruct (sheet_report_returns fuel ws Hfuel) as [rep Hrep].
  exists rep. split; [done|]. by eapply report_headers_of.
Qed.

Lemma report_headers_filtered_witness :
  length (ws_rows sheet_mixed) + max_column sheet_mixed < 10
  /\ exists rep,
       sheet_report 10 sheet_mixed = Some rep
       /\ (forall e, e ∈ rep_explicit rep ->
                     forall h, h ∈ et_headers e -> header_ok h)
       /\ (forall t, t ∈ rep_implicit rep -> forall h, h ∈ it_header t ->
             h <> EmptyString /\ starts_with_bracket h = false).
Proof.
  assert (length (ws_rows sheet_mixed) + max_column sheet_mixed < 10) as Hfuel
    by (simpl; lia).
  split; [exact Hfuel|].
  exact (report_headers_filtered 10 sheet_mixed Hfuel).
Defined.

(** C8 (as the code has it).  With a recursion budget above the number of
    rows plus the number of columns of the sheet the report is produced,
    and every implicit region of it holds a cell that is marked non-empty
    in the grid and lies in no explicit region of the report.  The
    regions are bounding boxes: they may reach over explicit regions and
    over each other. *)
Theorem implicit_regions_hold_unclaimed_cell fuel ws :
  Forall region_valid (get_explicit_table_regions ws) ->
  length (ws_rows ws) + max_column ws < fuel ->
  exists rep,
    sheet_report fuel ws = Some rep
    /\ forall t, t ∈ rep_implicit rep ->
         exists r c,
           cell_in (implicit_box t) r c
           /\ grid_at (build_grid_excluding_explicit ws
                         (get_explicit_table_regions ws)) r c = true
           /\ forall e, e ∈ rep_explicit rep -> ~ cell_in (explicit_box e) r c.
Proof.
  intros Hv Hfuel. destruct (sheet_report_returns fuel ws Hfuel) as [rep Hrep].
  exists rep. split; [done|]. by eapply implicit_regions_of.
Qed.

Lemma implicit_regions_hold_unclaimed_cell_witness :
  Forall region_valid (get_explicit_table_regions sheet_ring)
  /\ length (ws_rows sheet_ring) + max_column sheet_ring < 10
  /\ exists rep,
       sheet_report 10 sheet_ring = Some rep
       /\ forall t, t ∈ rep_implicit rep ->
            exists r c,
              cell_in (implicit_box t) r c
              /\ grid_at (build_grid_excluding_explicit sheet_ring
                            (get_explicit_table_regions sheet_ring)) r c = true
              /\ forall e, e ∈ rep_explicit rep -> ~ cell_in (explicit_box e) r c.
Proof.
  assert (Forall region_valid (get_explicit_table_regions sheet_ring)) as Hv.
  { constructor; [simpl; lia | constructor]. }
  assert (length (ws_rows sheet_ring) + max_column sheet_ring < 10) as Hfuel
    by (simpl; lia).
  split; [exact Hv|]. split; [exact Hfuel|].
  exact (implicit_regions_hold_unclaimed_cell 10 sheet_ring Hv Hfuel).
Defined.

(** Two implicit regions of one report may share a cell: the boxes of the
    two hooks both hold B2. *)
Example implicit_regions_may_overlap :
  exists rep a b,
    sheet_report 10 sheet_hooks = Some rep
    /\ rep_implicit rep = [a; b]
    /\ cell_in (implicit_box a) 2 2 /\ cell_in (implicit_box b) 2 2.
Proof.
  do 3 eexists. split; [vm_compute; reflexivity|].
  split; [reflexivity|]. simpl. lia.
Qed.

(** ** Where the splitting is complete *)

Section FullLines.
Variable grid : Grid.
Hypothesis Hwf : grid_wf grid.

Lemma row_sums_exact r1 r2 c1 c2 :
  bbox_valid (r1, r2, c1, c2) ->
  bbox_on_sheet (nrows grid) (ncols grid) (r1, r2, c1, c2) ->
  Z.of_nat (length (row_sums (box_subgrid grid (r1, r2, c1, c2))))
  = (r2 - r1 + 1)%Z.
Proof.
  intros [Hr Hc] [Hr2 Hc2].
  unfold row_sums, box_subgrid, subgrid; simpl. rewrite !length_map.
  rewrite py_slice_length by lia. unfold nrows in Hr2. lia.
Qed.

Lemma col_sums_exact r1 r2 c1 c2 :
  bbox_valid (r1, r2, c1, c2) ->
  bbox_on_sheet (nrows grid) (ncols grid) (r1, r2, c1, c2) ->
  Z.of_nat (length (col_sums (box_subgrid grid (r1, r2, c1, c2))))
  = (c2 - c1 + 1)%Z.
Proof.
  intros [Hr Hc] [Hr2 Hc2].
  unfold col_sums, box_subgrid, subgrid; simpl. rewrite length_map, length_seq.
  rewrite slice_len_bound by lia. lia.
Qed.

Lemma rows_full_iff b :
  bbox_valid b -> bbox_on_sheet (nrows grid) (ncols grid) b ->
  empty_indices (row_sums (box_subgrid grid b)) = [] <-> rows_full grid b.
Proof.
  destruct b as [[[r1 r2] c1] c2]. intros Hv Hs.
  pose proof (row_sums_exact r1 r2 c1 c2 Hv Hs) as Hlen.
  rewrite empty_indices_nil. split.
  - intros Hall r Hr.
    destruct (Hall (Z.to_nat (r - r1))) as [Hp|Hnone].
    + apply (row_sums_positive grid r1 r2 c1 c2 Hv) in Hp as [_ Hp].
      by replace (r1 + Z.of_nat (Z.to_nat (r - r1)))%Z with r in Hp by lia.
    + apply lookup_ge_None in Hnone. lia.
  - intros Hfull k.
    destruct (row_sums _ !! k) as [v|] eqn:Hk; [left | by right].
    apply lookup_lt_Some in Hk.
    apply (row_sums_positive grid r1 r2 c1 c2 Hv).
    split; [lia|]. apply Hfull. destruct Hv. lia.
Qed.

Lemma cols_full_iff b :
  bbox_valid b -> bbox_on_sheet (nrows grid) (ncols grid) b ->
  empty_indices (col_sums (box_subgrid grid b)) = [] <-> cols_full grid b.
Proof.
  destruct b as [[[r1 r2] c1] c2]. intros Hv Hs.
  pose proof (col_sums_exact r1 r2 c1 c2 Hv Hs) as Hlen.
  rewrite empty_indices_nil. split.
  - intros Hall c Hc.
    destruct (Hall (Z.to_nat (c - c1))) as [Hp|Hnone].
    + apply (col_sums_positive grid r1 r2 c1 c2 Hv Hwf) in Hp as [_ Hp].
      by replace (c1 + Z.of_nat (Z.to_nat (c - c1)))%Z with c in Hp by lia.
    + apply lookup_ge_None in Hnone. lia.
  - intros Hfull k.
    destruct (col_sums _ !! k) as [v|] eqn:Hk; [left | by right].
    apply lookup_lt_Some in Hk.
    apply (col_sums_positive grid r1 r2 c1 c2 Hv Hwf).
    split; [lia|]. apply Hfull. destruct Hv. lia.
Qed.

(** The boxes cut along the columns have no empty column, and those cut
    along the rows no empty row. *)
Lemma col_boxes_full b :
  bbox_valid b -> bbox_on_sheet (nrows grid) (ncols grid) b ->
  Forall (fun x => bbox_valid x /\ bbox_on_sheet (nrows grid) (ncols grid) x
                   /\ cols_full grid x)
         (map (col_box b) (non_empty_runs (col_sums (box_subgrid grid b)))).
Proof.
  destruct b as [[[r1 r2] c1] c2]. intros Hv Hs.
  destruct (non_empty_runs_spec (col_sums (box_subgrid grid (r1, r2, c1, c2))))
    as (Hpos & _).
  pose proof (col_sums_exact r1 r2 c1 c2 Hv Hs) as Hlen.
  apply Forall_fmap. eapply Forall_impl; [exact Hpos|].
  intros [s e] [Hb Hp]. simpl in *. destruct Hv as [Hr Hc], Hs as [Hr2 Hc2].
  split; [lia|]. split; [lia|]. intros c Hcr.
  destruct (proj1 (col_sums_positive grid r1 r2 c1 c2 (conj Hr Hc) Hwf
                     (Z.to_nat (c - c1)))
              (Hp (Z.to_nat (c - c1)) ltac:(lia))) as [_ Hex].
  by replace (c1 + Z.of_nat (Z.to_nat (c - c1)))%Z with c in Hex by lia.
Qed.

Lemma row_boxes_full b :
  bbox_valid b -> bbox_on_sheet (nrows grid) (ncols grid) b ->
  Forall (fun x => bbox_valid x /\ bbox_on_sheet (nrows grid) (ncols grid) x
                   /\ rows_full grid x)
         (map (row_box b) (non_empty_runs (row_sums (box_subgrid grid b)))).
Proof.
  destruct b as [[[r1 r2] c1] c2]. intros Hv Hs.
  destruct (non_empty_runs_spec (row_sums (box_subgrid grid (r1, r2, c1, c2))))
    as (Hpos & _).
  pose proof (row_sums_exact r1 r2 c1 c2 Hv Hs) as Hlen.
  apply Forall_fmap. eapply Forall_impl; [exact Hpos|].
  intros [s e] [Hb Hp]. simpl in *. destruct Hv as [Hr Hc], Hs as [Hr2 Hc2].
  split; [lia|]. split; [lia|]. intros r Hrr.
  destruct (proj1 (row_sums_positive grid r1 r2 c1 c2 (conj Hr Hc)
                     (Z.to_nat (r - r1)))
              (Hp (Z.to_nat (r - r1)) ltac:(lia))) as [_ Hex].
  by replace (r1 + Z.of_nat (Z.to_nat (r - r1)))%Z with r in Hex by lia.
Qed.

Lemma no_empty_line_full b :
  rows_full grid b -> cols_full grid b -> no_empty_line grid b.
Proof. destruct b as [[[r1 r2] c1] c2]. by split. Qed.

Lemma concat_all_full {A} (f : A -> option (list BBox)) (P : A -> Prop) l out :
  extend_all f l = Some out -> Forall P l ->
  (forall x ys, P x -> f x = Some ys -> Forall (no_empty_line grid) ys) ->
  Forall (no_empty_line grid) out.
Proof.
  intros He HP Hf. apply extend_all_Some_inv in He as (yss & -> & H2).
  induction H2 as [|x ys l yss Hx _ IH]; simpl; [constructor|].
  apply Forall_cons in HP as [Hpx HP]. apply Forall_app. split; eauto.
Qed.

(** The entry point leaves no empty row or column in its results when
    it starts with the columns or has nothing to split; its helper, when
    it starts with the rows or has nothing to split. *)
Lemma split_complete_when_first_branch : forall fuel,
  (forall b out,
      bbox_valid b -> bbox_on_sheet (nrows grid) (ncols grid) b ->
      ~ cols_full grid b \/ rows_full grid b ->
      split_bbox_on_empty_lines fuel grid b = Some out ->
      Forall (no_empty_line grid) out)
  /\ (forall b out,
        bbox_valid b -> bbox_on_sheet (nrows grid) (ncols grid) b ->
        ~ rows_full grid b \/ cols_full grid b ->
        split_bbox_on_empty_rows fuel grid b = Some out ->
        Forall (no_empty_line grid) out).
Proof.
  induction fuel as [|fuel [IHl IHr]]; [by split|].
  split; intros b out Hv Hs Hpre.
  - rewrite split_lines_unfold.
    pose proof (cols_full_iff b Hv Hs) as Hcols.
    pose proof (rows_full_iff b Hv Hs) as Hrows.
    destruct (empty_indices (col_sums _)) as [|i l] eqn:Ec.
    + assert (cols_full grid b) as Hcf by by apply Hcols.
      destruct Hpre as [Hn|Hrf]; [done|].
      apply Hrows in Hrf. rewrite Hrf. intros [= <-].
      constructor; [|constructor].
      apply no_empty_line_full; [by apply Hrows | done].
    + intros He.
      apply (concat_all_full _
               (fun run => bbox_valid (col_box b run)
                           /\ bbox_on_sheet (nrows grid) (ncols grid) (col_box b run)
                           /\ cols_full grid (col_box b run)) _ _ He).
      * apply (Forall_map_inv
                 (fun x => bbox_valid x
                           /\ bbox_on_sheet (nrows grid) (ncols grid) x
                           /\ cols_full grid x) (col_box b)).
        by apply col_boxes_full.
      * intros run ys (Hvr & Hsr & Hcf). apply IHr; auto.
  - rewrite split_rows_unfold.
    pose proof (cols_full_iff b Hv Hs) as Hcols.
    pose proof (rows_full_iff b Hv Hs) as Hrows.
    destruct (empty_indices (row_sums _)) as [|i l] eqn:Er.
    + assert (rows_full grid b) as Hrf by by apply Hrows.
      destruct Hpre as [Hn|Hcf]; [done|].
      apply Hcols in Hcf. rewrite Hcf. intros [= <-].
      constructor; [|constructor].
      apply no_empty_line_full; [done | by apply Hcols].
    + intros He.
      apply (concat_all_full _
               (fun run => bbox_valid (row_box b run)
                           /\ bbox_on_sheet (nrows grid) (ncols grid) (row_box b run)
                           /\ rows_full grid (row_box b run)) _ _ He).
      * apply (Forall_map_inv
                 (fun x => bbox_valid x
                           /\ bbox_on_sheet (nrows grid) (ncols grid) x
                           /\ rows_full grid x) (row_box b)).
        by apply row_boxes_full.
      * intros run ys (Hvr & Hsr & Hrf). apply IHl; auto.
Qed.
End FullLines.

(** ** Islands: size and shape *)

Lemma flood_loop_inv fuel grid : forall stack visited box visited' box',
  flood_loop fuel grid stack visited box = Some (visited', box') ->
  flood_inv grid stack box -> flood_inv grid [] box'.
Proof.
  induction fuel as [|fuel IH]; intros stack visited box visited' box' H Hinv.
  - destruct stack as [|[i j] rest]; simpl in H; [|done].
    by injection H as <- <-.
  - destruct stack as [|[i j] rest]; simpl in H.
    { by injection H as <- <-. }
    assert (flood_inv grid rest box) as Hrest.
    { destruct box as [[[a b] c] d]. destruct Hinv as (Hr & Hc & Hs).
      repeat split; [done..|]. by apply Forall_cons in Hs as [_ Hs]. }
    destruct ((i <? 0)%Z || (Z.of_nat (nrows grid) <=? i)%Z
              || (j <? 0)%Z || (Z.of_nat (ncols grid) <=? j)%Z) eqn:Hout.
    { by apply IH in H. }
    destruct (grid_get visited (Z.to_nat i) (Z.to_nat j)
              || negb (grid_get grid (Z.to_nat i) (Z.to_nat j))) eqn:Hskip.
    { by apply IH in H. }
    destruct box as [[[a b] c] d]. apply IH in H; [done|].
    apply orb_false_iff in Hskip as [_ Hg]. apply negb_false_iff in Hg.
    rewrite !orb_false_iff, !Z.ltb_ge, !Z.leb_gt in Hout.
    assert (grid_at grid (i + 1) (j + 1) = true) as Hat.
    { rewrite grid_at_get by lia.
      by replace (i + 1 - 1)%Z with i by lia; replace (j + 1 - 1)%Z with j by lia. }
    destruct Hinv as (Hr & Hc & Hs).
    apply Forall_cons in Hs as [[Hi Hj] Hs]. simpl in Hi, Hj.
    split; [|split].
    + intros i' Hi'.
      destruct (decide (a <= i' <= b)%Z) as [Hin|Hnin].
      * destruct (Hr i' Hin) as (j' & Hj' & Ht). exists j'. split; [lia|done].
      * exists j. split; [lia|]. by replace i' with i by lia.
    + intros j' Hj'.
      destruct (decide (c <= j' <= d)%Z) as [Hin|Hnin].
      * destruct (Hc j' Hin) as (i' & Hi' & Ht). exists i'. split; [lia|done].
      * exists i. split; [lia|]. by replace j' with j by lia.
    + repeat (apply Forall_cons; split; [simpl; lia|]).
      eapply Forall_impl; [exact Hs|]. intros [x y]; simpl. lia.
Qed.

(** The box of a flood started on a marked cell has no empty row and no
    empty column. *)
Lemma flood_box_full grid visited i j visited' a b c d :
  grid_get grid i j = true ->
  flood grid visited (Z.of_nat i) (Z.of_nat j) = Some (visited', (a, b, c, d)) ->
  no_empty_line grid (a + 1, b + 1, c + 1, d + 1)%Z.
Proof.
  intros Hg Hf. unfold flood in Hf. apply flood_loop_inv in Hf.
  - destruct Hf as (Hr & Hc & _). split.
    + intros r Hr'. destruct (Hr (r - 1)%Z ltac:(lia)) as (j' & Hj' & Ht).
      exists (j' + 1)%Z. split; [lia|]. by replace r with (r - 1 + 1)%Z by lia.
    + intros c' Hc'. destruct (Hc (c' - 1)%Z ltac:(lia)) as (i' & Hi' & Ht).
      exists (i' + 1)%Z. split; [lia|]. by replace c' with (c' - 1 + 1)%Z by lia.
  - assert (grid_at grid (Z.of_nat i + 1) (Z.of_nat j + 1) = true) as Hat.
    { rewrite grid_at_get by lia.
      by replace (Z.to_nat (Z.of_nat i + 1 - 1)) with i by lia;
         replace (Z.to_nat (Z.of_nat j + 1 - 1)) with j by lia. }
    split; [|split].
    + intros i' Hi'. exists (Z.of_nat j). split; [lia|].
      by replace i' with (Z.of_nat i) by lia.
    + intros j' Hj'. exists (Z.of_nat i). split; [lia|].
      by replace j' with (Z.of_nat j) by lia.
    + constructor; [simpl; lia|constructor].
Qed.

(** A property of every box a flood can give, when it passes the size
    test, is a property of every island. *)
Lemma flood_fill_islands_all grid min_rows min_cols (P : BBox -> Prop) :
  (forall visited i j visited' a b c d,
     grid_get grid i j = true ->
     flood grid visited (Z.of_nat i) (Z.of_nat j) = Some (visited', (a, b, c, d)) ->
     (min_rows <= b - a + 1)%Z -> (min_cols <= d - c + 1)%Z ->
     P (a + 1, b + 1, c + 1, d + 1)%Z) ->
  forall islands,
    flood_fill_islands grid min_rows min_cols = Some islands -> Forall P islands.
Proof.
  intros HP.
  assert (forall i j visited islands visited' islands',
            island_step grid min_rows min_cols i (Some (visited, islands)) j
            = Some (visited', islands') ->
            Forall P islands -> Forall P islands') as Hstep.
  { unfold island_step. intros i j visited islands visited' islands' H Hok.
    destruct (grid_get grid i j && negb (grid_get visited i j)) eqn:Hg;
      [|by injection H as <- <-].
    apply andb_true_iff in Hg as [Hg _].
    destruct (flood grid visited (Z.of_nat i) (Z.of_nat j))
      as [[v' [[[a b] c] d]]|] eqn:Hf; [|done].
    destruct ((min_rows <=? b - a + 1)%Z && (min_cols <=? d - c + 1)%Z) eqn:Hsz;
      injection H as <- <-; [|done].
    apply andb_true_iff in Hsz as [Hh Hw]. apply Z.leb_le in Hh, Hw.
    apply Forall_app. split; [done|]. constructor; [|constructor].
    by eapply HP. }
  assert (forall i js st visited' islands',
            foldl (island_step grid min_rows min_cols i) st js
            = Some (visited', islands') ->
            exists visited islands,
              st = Some (visited, islands)
              /\ (Forall P islands -> Forall P islands')) as Hrow.
  { intros i. induction js as [|j js IH]; intros st visited' islands' H; simpl in H.
    - subst. eauto.
    - apply IH in H as (v1 & is1 & Hs & Hok).
      destruct st as [[visited islands]|]; [|done].
      exists visited, islands. split; [done|]. intros Hall.
      apply Hok. by eapply Hstep. }
  assert (forall rows st visited' islands',
            foldl (fun st i =>
                     foldl (island_step grid min_rows min_cols i) st
                           (seq 0 (ncols grid)))
                  st rows = Some (visited', islands') ->
            exists visited islands,
              st = Some (visited, islands)
              /\ (Forall P islands -> Forall P islands')) as Hrows.
  { induction rows as [|i rows IH]; intros st visited' islands' H; simpl in H.
    - subst. eauto.
    - apply IH in H as (v1 & is1 & Hr & Hok).
      apply Hrow in Hr as (visited & islands & -> & Hok').
      exists visited, islands. split; [done|]. auto. }
  intros islands. unfold flood_fill_islands, flood_fill_state.
  destruct (foldl _ _ _) as [[visited' islands']|] eqn:H; [|done].
  intros [= <-].
  apply Hrows in H as (v & is0 & [= <- <-] & Hok).
  apply Hok. constructor.
Qed.

Lemma flood_fill_islands_full grid min_rows min_cols islands :
  flood_fill_islands grid min_rows min_cols = Some islands ->
  Forall (no_empty_line grid) islands.
Proof.
  apply (flood_fill_islands_all grid min_rows min_cols (no_empty_line grid)).
  intros visited i j visited' a b c d Hg Hf _ _.
  by eapply flood_box_full.
Qed.

Lemma flood_fill_islands_size grid min_rows min_cols islands :
  flood_fill_islands grid min_rows min_cols = Some islands ->
  Forall (island_size_ok min_rows min_cols) islands.
Proof.
  apply (flood_fill_islands_all grid min_rows min_cols
           (island_size_ok min_rows min_cols)).
  intros visited i j visited' a b c d _ _ Hh Hw. simpl. lia.
Qed.

(** X1.  The flood fill always returns, and every island it returns is a
    box of the data model that ends on the grid and spans at least
    [min_rows] rows and [min_cols] columns. *)
Theorem islands_on_grid_and_of_minimum_size grid min_rows min_cols :
  grid_wf grid ->
  exists islands,
    flood_fill_islands grid min_rows min_cols = Some islands
    /\ Forall (fun b => bbox_valid b
                        /\ bbox_on_sheet (nrows grid) (ncols grid) b
                        /\ island_size_ok min_rows min_cols b) islands.
Proof.
  intros Hwf.
  destruct (flood_fill_islands_returns grid min_rows min_cols) as [islands H].
  exists islands. split; [done|].
  pose proof (flood_fill_islands_ok grid min_rows min_cols islands Hwf H) as Hok.
  pose proof (flood_fill_islands_size grid min_rows min_cols islands H) as Hsz.
  apply Forall_forall. intros b Hb.
  rewrite Forall_forall in Hok, Hsz. destruct (Hok b Hb) as (Hv & _ & Hon).
  split; [done|]. split; [done|]. by apply Hsz.
Qed.

Lemma islands_on_grid_and_of_minimum_size_witness :
  grid_wf grid_block
  /\ exists islands,
       flood_fill_islands grid_block 2 2 = Some islands
       /\ Forall (fun b => bbox_valid b
                           /\ bbox_on_sheet (nrows grid_block) (ncols grid_block) b
                           /\ island_size_ok 2 2 b) islands.
Proof.
  split; [exact grid_block_wf|].
  exact (islands_on_grid_and_of_minimum_size grid_block 2 2 grid_block_wf).
Defined.

(** X2.  No island of the flood fill has an empty row or an empty column:
    each row and each column of its box holds a marked cell of the box. *)
Theorem islands_have_no_empty_line grid min_rows min_cols :
  exists islands,
    flood_fill_islands grid min_rows min_cols = Some islands
    /\ Forall (no_empty_line grid) islands.
Proof.
  destruct (flood_fill_islands_returns grid min_rows min_cols) as [islands H].
  exists islands. split; [done|]. by eapply flood_fill_islands_full.
Qed.

(** ** Islands in the report *)

(** A box with no empty row and no empty column is not split. *)
Lemma split_full_box grid b fuel :
  grid_wf grid -> bbox_valid b -> no_empty_line grid b ->
  split_bbox_on_empty_lines (S fuel) grid b = Some [b].
Proof.
  intros Hwf Hv Hne. rewrite split_lines_unfold.
  destruct b as [[[r1 r2] c1] c2]. destruct Hne as [Hrows Hcols].
  assert (empty_indices (col_sums (box_subgrid grid (r1, r2, c1, c2))) = []) as ->.
  { apply empty_indices_nil. intros k.
    destruct (col_sums _ !! k) as [v|] eqn:Hk; [left | by right].
    apply lookup_lt_Some in Hk.
    pose proof (col_sums_length grid r1 r2 c1 c2 Hv) as Hlen.
    apply (col_sums_positive grid r1 r2 c1 c2 Hv Hwf).
    split; [lia|]. apply Hcols. destruct Hv. lia. }
  assert (empty_indices (row_sums (box_subgrid grid (r1, r2, c1, c2))) = []) as ->.
  { apply empty_indices_nil. intros k.
    destruct (row_sums _ !! k) as [v|] eqn:Hk; [left | by right].
    apply lookup_lt_Some in Hk.
    pose proof (row_sums_length grid r1 r2 c1 c2 Hv) as Hlen.
    apply (row_sums_positive grid r1 r2 c1 c2 Hv).
    split; [lia|]. apply Hrows. destruct Hv. lia. }
  done.
Qed.

Lemma extend_all_singletons {A} (f : A -> option (list A)) l :
  Forall (fun x => f x = Some [x]) l -> extend_all f l = Some l.
Proof.
  induction 1 as [|x l Hx _ IH]; simpl; [done|].
  by rewrite Hx, IH.
Qed.

Lemma split_of_islands grid min_rows min_cols islands fuel :
  grid_wf grid ->
  flood_fill_islands grid min_rows min_cols = Some islands ->
  extend_all (split_bbox_on_empty_lines (S fuel) grid) islands = Some islands.
Proof.
  intros Hwf H. apply extend_all_singletons.
  pose proof (flood_fill_islands_ok grid min_rows min_cols islands Hwf H) as Hok.
  pose proof (flood_fill_islands_full grid min_rows min_cols islands H) as Hfull.
  rewrite Forall_forall in Hok, Hfull. apply Forall_forall. intros b Hb.
  destruct (Hok b Hb) as (Hv & _). apply split_full_box; auto.
Qed.

(** X3.  In the report of a sheet the splitting changes nothing: with any
    positive budget, the boxes of the implicit tables are the islands of
    the flood fill, in the order the flood fill found them. *)
Theorem implicit_boxes_are_the_islands fuel ws :
  implicit_boxes (S fuel) ws
  = flood_fill_islands
      (build_grid_excluding_explicit ws (get_explicit_table_regions ws)) 2 2.
Proof.
  unfold implicit_boxes.
  destruct (build_grid_shape ws (get_explicit_table_regions ws)) as (Hwf & _).
  destruct (flood_fill_islands _ 2 2) as [islands|] eqn:H; [|done].
  by eapply split_of_islands.
Qed.

Lemma implicit_boxes_shape fuel ws :
  exists boxes,
    implicit_boxes (S fuel) ws = Some boxes
    /\ Forall (fun b => bbox_valid b
                        /\ bbox_on_sheet (length (ws_rows ws)) (max_column ws) b
                        /\ island_size_ok 2 2 b) boxes.
Proof.
  unfold implicit_boxes.
  destruct (build_grid_shape ws (get_explicit_table_regions ws)) as (Hwf & Hn & Hc).
  destruct (flood_fill_islands_returns
              (build_grid_excluding_explicit ws (get_explicit_table_regions ws)) 2 2)
    as [islands H].
  rewrite H. exists islands. split; [by eapply split_of_islands|].
  pose proof (flood_fill_islands_ok _ 2 2 islands Hwf H) as Hok.
  pose proof (flood_fill_islands_size _ 2 2 islands H) as Hsz.
  rewrite Forall_forall in Hok, Hsz. apply Forall_forall. intros b Hb.
  destruct (Hok b Hb) as (Hv & _ & Hon). rewrite Hn, Hc in Hon.
  split; [done|]. split; [done|]. by apply Hsz.
Qed.

(** X4.  With any positive budget the report of a sheet is produced, and
    every implicit table in it spans at least two rows and two columns of
    the sheet. *)
Theorem implicit_tables_span_two_rows_and_columns fuel ws :
  exists rep,
    sheet_report (S fuel) ws = Some rep
    /\ forall t, t ∈ rep_implicit rep ->
         (1 <= it_r1 t)%Z
         /\ (it_r1 t < it_r2 t <= Z.of_nat (length (ws_rows ws)))%Z
         /\ (1 <= it_c1 t)%Z
         /\ (it_c1 t < it_c2 t <= Z.of_nat (max_column ws))%Z.
Proof.
  unfold sheet_report.
  destruct (implicit_boxes_shape fuel ws) as (boxes & -> & Hall).
  destruct (implicit_entries_returns ws boxes
              (S (length (get_explicit_table_regions ws))))
    as [implicit Hi].
  { eapply Forall_impl; [exact Hall|]. by intros b (Hv & _). }
  rewrite Hi. eexists. split; [done|]. simpl. intros t Ht.
  apply implicit_entries_boxes in Hi.
  apply list_elem_of_lookup in Ht as [k Hk].
  destruct (Forall2_lookup_r _ _ _ _ _ Hi Hk) as (box & Hbox & -> & _).
  apply list_elem_of_lookup_2 in Hbox.
  rewrite Forall_forall in Hall. destruct (Hall _ Hbox) as (Hv & Hon & Hsz).
  simpl in Hv, Hon, Hsz. lia.
Qed.

Lemma flood_fill_of_empty_grid grid min_rows min_cols :
  (forall i j, grid_get grid i j = false) ->
  flood_fill_islands grid min_rows min_cols = Some [].
Proof.
  intros Hg. unfold flood_fill_islands, flood_fill_state.
  assert (forall i js st, foldl (island_step grid min_rows min_cols i) (Some st) js
                          = Some st) as Hrow.
  { intros i. induction js as [|j js IH]; intros [visited islands]; cbn [foldl]; [done|].
    unfold island_step at 2. rewrite Hg. simpl. apply IH. }
  assert (forall rows st,
            foldl (fun st i =>
                     foldl (island_step grid min_rows min_cols i) st
                           (seq 0 (ncols grid)))
                  (Some st) rows = Some st) as Hrows.
  { induction rows as [|i rows IH]; intros st; cbn [foldl]; [done|].
    rewrite Hrow. apply IH. }
  by rewrite Hrows.
Qed.

(** X5.  A sheet none of whose cells holds a value has no implicit table,
    whatever the budget; its declared tables are reported all the same. *)
Theorem sheet_without_values_has_no_implicit_table fuel ws :
  Forall (Forall (fun v : option CellValue => v = None)) (ws_rows ws) ->
  sheet_report fuel ws
  = Some (mkSheetReport
            (explicit_entries ws (get_explicit_table_regions ws)) []).
Proof.
  intros Hnone. unfold sheet_report, implicit_boxes.
  rewrite flood_fill_of_empty_grid; [done|].
  intros i j.
  destruct (build_grid_shape ws (get_explicit_table_regions ws)) as (Hwf & Hn & Hc).
  destruct (grid_get _ i j) eqn:Hg; [|done].
  destruct (grid_get_inside _ i j Hwf Hg) as [Hi Hj].
  rewrite Hn in Hi. rewrite Hc in Hj.
  rewrite build_grid_get in Hg by done.
  destruct (ws_rows ws !! i) as [row|] eqn:Hrow; [|done].
  unfold cell_marked in Hg.
  assert (row_value row j = None) as Hv.
  { unfold row_value. destruct (row !! j) as [v|] eqn:Hcell; [|done].
    eapply Forall_lookup_1 in Hnone; [|exact Hrow].
    by eapply Forall_lookup_1 in Hnone; [|exact Hcell]. }
  rewrite Hv in Hg. rewrite bool_decide_eq_false_2 in Hg; [|by intros [x Hx]].
  by rewrite andb_false_r in Hg.
Qed.

Lemma sheet_without_values_witness :
  Forall (Forall (fun v : option CellValue => v = None))
         (ws_rows (mkWorksheet "S" [[None; None]; [None]] 2
                     (fun _ => false) (fun _ => false) [] [sales_table]))
  /\ sheet_report 0 (mkWorksheet "S" [[None; None]; [None]] 2
                       (fun _ => false) (fun _ => false) [] [sales_table])
     = Some (mkSheetReport
               (explicit_entries
                  (mkWorksheet "S" [[None; None]; [None]] 2
                     (fun _ => false) (fun _ => false) [] [sales_table])
                  (get_explicit_table_regions
                     (mkWorksheet "S" [[None; None]; [None]] 2
                        (fun _ => false) (fun _ => false) [] [sales_table]))) []).
Proof.
  assert (Forall (Forall (fun v : option CellValue => v = None))
                 (ws_rows (mkWorksheet "S" [[None; None]; [None]] 2
                             (fun _ => false) (fun _ => false) [] [sales_table])))
    as H by (repeat constructor).
  split; [exact H|].
  exact (sheet_without_values_has_no_implicit_table 0 _ H).
Defined.

(** ** Names and headers in the report *)

Lemma table_label_inj n m : table_label n = table_label m -> n = m.
Proof.
  unfold table_label. rewrite !string_app_cons, !string_app_nil.
  intros [= H]. by apply (inj pretty).
Qed.

Lemma implicit_entries_names ws boxes : forall first entries,
  implicit_entries ws first boxes = Some entries ->
  forall k t, entries !! k = Some t -> it_table_name t = table_label (first + k).
Proof.
  induction boxes as [|box boxes IH]; intros first entries; simpl.
  - by intros [= <-] k t.
  - destruct (implicit_entry ws first box) as [e|] eqn:He; [|done].
    destruct (implicit_entries ws (S first) boxes) as [es|] eqn:Hes; [|done].
    intros [= <-] [|k] t Hk; simpl in Hk.
    + injection Hk as <-. unfold implicit_entry in He.
      destruct box as [[[r1 r2] c1] c2].
      destruct (detect_header_and_body ws r1 r2 c1 c2) as [[header body]|]; [|done].
      injection He as <-. simpl. by rewrite Nat.add_0_r.
    + rewrite (IH (S first) es Hes k t Hk). f_equal. lia.
Qed.

(** X6.  One counter names the tables of a sheet: the explicit table at
    place [k] (from 0) keeps its display name, or is called "Table k+1"
    when it has none; the implicit table at place [k] is called
    "Table n+k+1", [n] being the number of explicit tables, named or not.
    The names of the implicit tables are pairwise different, and differ
    from every name made up for an explicit table. *)
Theorem report_names_follow_one_counter fuel ws rep :
  sheet_report fuel ws = Some rep ->
  (forall k e, rep_explicit rep !! k = Some e ->
     exists t, ws_tables ws !! k = Some t
               /\ et_name e = displayName t
               /\ et_table_name e
                  = if truthy (displayName t) then displayName t
                    else table_label (S k))
  /\ (forall k t, rep_implicit rep !! k = Some t ->
        it_table_name t = table_label (S (length (ws_tables ws) + k)))
  /\ NoDup (it_table_name <$> rep_implicit rep)
  /\ (forall k e t, rep_explicit rep !! k = Some e -> et_name e = EmptyString ->
        t ∈ rep_implicit rep -> et_table_name e <> it_table_name t).
Proof.
  unfold sheet_report.
  destruct (implicit_boxes fuel ws) as [boxes|]; [|done].
  destruct (implicit_entries ws _ boxes) as [implicit|] eqn:Hi; [|done].
  intros [= <-]. simpl.
  pose proof (implicit_entries_names ws boxes _ implicit Hi) as Hnames.
  unfold get_explicit_table_regions in Hnames. rewrite length_map in Hnames.
  assert (forall k e, explicit_entries ws (get_explicit_table_regions ws) !! k = Some e ->
            exists t, ws_tables ws !! k = Some t
                      /\ et_name e = displayName t
                      /\ et_table_name e
                         = if truthy (displayName t) then displayName t
                           else table_label (S k)) as Hexp.
  { intros k e Hk. unfold explicit_entries, get_explicit_table_regions in Hk.
    rewrite list_lookup_imap, list_lookup_fmap in Hk.
    destruct (ws_tables ws !! k) as [t|] eqn:Ht; [|done].
    exists t. split; [done|]. simpl in Hk.
    destruct (ref_bounds t) as [[[min_col min_row] max_col] max_row].
    by injection Hk as <-. }
  split; [exact Hexp|]. split; [exact Hnames|]. split.
  - apply NoDup_alt. intros i j name Hi' Hj'.
    rewrite list_lookup_fmap in Hi', Hj'.
    destruct (implicit !! i) as [ti|] eqn:Hti; [|done].
    destruct (implicit !! j) as [tj|] eqn:Htj; [|done].
    injection Hi' as <-. injection Hj' as Heq.
    rewrite (Hnames i ti Hti), (Hnames j tj Htj) in Heq.
    apply table_label_inj in Heq. lia.
  - intros k e t Hk Hname Ht Heq.
    destruct (Hexp k e Hk) as (tb & Htb & Hdn & Hen).
    apply list_elem_of_lookup in Ht as [j Hj].
    rewrite (Hnames j t Hj) in Heq. rewrite Hen in Heq.
    rewrite Hname in Hdn. rewrite <- Hdn in Heq. simpl in Heq.
    apply table_label_inj in Heq. apply lookup_lt_Some in Htb. lia.
Qed.

Lemma report_names_follow_one_counter_witness :
  sheet_report 10 sheet_mixed
  = Some (mkSheetReport
            [mkExplicitTable "Sales" "Sales" "A1:B2" ["Date"; "Amount"] 1 1 2 2]
            [mkImplicitTable "Table 2" "A4:B5" 4 1 5 2 ["Item"; "Qty"]])
  /\ (forall k e,
        [mkExplicitTable "Sales" "Sales" "A1:B2" ["Date"; "Amount"] 1 1 2 2] !! k
        = Some e ->
        exists t, ws_tables sheet_mixed !! k = Some t
                  /\ et_name e = displayName t
                  /\ et_table_name e
                     = if truthy (displayName t) then displayName t
                       else table_label (S k))
  /\ (forall k t,
        [mkImplicitTable "Table 2" "A4:B5" 4 1 5 2 ["Item"; "Qty"]] !! k = Some t ->
        it_table_name t = table_label (S (length (ws_tables sheet_mixed) + k)))
  /\ NoDup (it_table_name
              <$> [mkImplicitTable "Table 2" "A4:B5" 4 1 5 2 ["Item"; "Qty"]])
  /\ (forall k e t,
        [mkExplicitTable "Sales" "Sales" "A1:B2" ["Date"; "Amount"] 1 1 2 2] !! k
        = Some e ->
        et_name e = EmptyString ->
        t ∈ [mkImplicitTable "Table 2" "A4:B5" 4 1 5 2 ["Item"; "Qty"]] ->
        et_table_name e <> it_table_name t).
Proof.
  split; [exact report_of_sheet_mixed|].
  exact (report_names_follow_one_counter 10 sheet_mixed _ report_of_sheet_mixed).
Defined.

Lemma detect_header_rows_elem rows header body :
  detect_header_rows rows = Some (header, body) -> header ∈ rows.
Proof.
  unfold detect_header_rows.
  destruct rows as [|first rest]; [done|].
  pose proof (header_loop_spec (first :: rest) (length (first :: rest) - 1) 0) as Hs.
  destruct (header_loop _ _) as [idx|].
  - intros [= <- _]. destruct Hs as ([_ Hidx] & _); [simpl; lia|].
    destruct (lookup_lt_is_Some_2 (first :: rest) idx) as [row Hrow];
      [simpl in *; lia|].
    change (nth idx (first :: rest) [] ∈ first :: rest).
    rewrite (nth_lookup_Some _ _ _ _ Hrow). by eapply list_elem_of_lookup_2.
  - intros [= <- _]. apply list_elem_of_here.
Qed.

Lemma implicit_boxes_valid fuel ws boxes :
  implicit_boxes fuel ws = Some boxes -> Forall bbox_valid boxes.
Proof.
  unfold implicit_boxes.
  set (grid := build_grid_excluding_explicit ws (get_explicit_table_regions ws)).
  destruct (flood_fill_islands grid 2 2) as [islands|] eqn:Hisl; [|done].
  intros He.
  destruct (build_grid_shape ws (get_explicit_table_regions ws)) as (Hwf & _).
  fold grid in Hwf. apply flood_fill_islands_ok in Hisl; [|done].
  apply extend_all_Some_inv in He as (yss & -> & H2).
  induction H2 as [|isl ys islands yss Hsplit _ IH]; simpl; [constructor|].
  apply Forall_cons in Hisl as [[Hv _] Hisl].
  apply Forall_app. split; [|by apply IH].
  apply split_result_good in Hsplit; [|done..].
  by destruct Hsplit as (_ & Hvalid & _).
Qed.

(** X7.  The header of an implicit table is read from one row of its
    range: it is the list of the stripped texts of that row's cells, taken
    through the merge lookup, without the empty ones and the ones that
    start with a bracket.  So it has no more entries than the range has
    columns. *)
Theorem implicit_header_is_a_filtered_row fuel ws rep :
  sheet_report fuel ws = Some rep ->
  forall t, t ∈ rep_implicit rep ->
    (exists i, (it_r1 t <= i <= it_r2 t)%Z
       /\ it_header t
          = filter_implicit_header
              (map (fun j => cell_text (get_merged_cell_value ws i j))
                   (py_range_incl (it_c1 t) (it_c2 t))))
    /\ (Z.of_nat (length (it_header t)) <= it_c2 t - it_c1 t + 1)%Z.
Proof.
  unfold sheet_report.
  destruct (implicit_boxes fuel ws) as [boxes|] eqn:Hb; [|done].
  destruct (implicit_entries ws _ boxes) as [implicit|] eqn:Hi; [|done].
  intros [= <-] t Ht. simpl in Ht.
  apply implicit_boxes_valid in Hb. apply implicit_entries_boxes in Hi.
  apply list_elem_of_lookup in Ht as [k Hk].
  destruct (Forall2_lookup_r _ _ _ _ _ Hi Hk)
    as (box & Hbox & -> & header & body & Hd & Hh).
  apply list_elem_of_lookup_2 in Hbox.
  rewrite Forall_forall in Hb. pose proof (Hb _ Hbox) as [Hr Hc].
  apply detect_header_rows_elem in Hd. unfold region_rows in Hd.
  apply list_elem_of_fmap in Hd as (i & Hrow & Hin).
  unfold py_range_incl in Hin. apply elem_of_seqZ in Hin.
  assert (exists i, (it_r1 t <= i <= it_r2 t)%Z
            /\ it_header t
               = filter_implicit_header
                   (map (fun j => cell_text (get_merged_cell_value ws i j))
                        (py_range_incl (it_c1 t) (it_c2 t)))) as Hex.
  { exists i. split; [lia|]. by rewrite Hh, Hrow. }
  split; [exact Hex|].
  destruct Hex as (i' & _ & ->). unfold filter_implicit_header.
  pose proof (List.filter_length_le
                (fun h => truthy h && negb (starts_with_bracket h))
                (map (fun j => cell_text (get_merged_cell_value ws i' j))
                     (py_range_incl (it_c1 t) (it_c2 t)))) as Hle.
  rewrite length_map in Hle. unfold py_range_incl in Hle |- *.
  rewrite length_seqZ in Hle. lia.
Qed.

Lemma implicit_header_is_a_filtered_row_witness :
  sheet_report 10 sheet_mixed
  = Some (mkSheetReport
            [mkExplicitTable "Sales" "Sales" "A1:B2" ["Date"; "Amount"] 1 1 2 2]
            [mkImplicitTable "Table 2" "A4:B5" 4 1 5 2 ["Item"; "Qty"]])
  /\ forall t, t ∈ [mkImplicitTable "Table 2" "A4:B5" 4 1 5 2 ["Item"; "Qty"]] ->
       (exists i, (it_r1 t <= i <= it_r2 t)%Z
          /\ it_header t
             = filter_implicit_header
                 (map (fun j => cell_text (get_merged_cell_value sheet_mixed i j))
                      (py_range_incl (it_c1 t) (it_c2 t))))
       /\ (Z.of_nat (length (it_header t)) <= it_c2 t - it_c1 t + 1)%Z.
Proof.
  split; [exact report_of_sheet_mixed|].
  exact (implicit_header_is_a_filtered_row 10 sheet_mixed _ report_of_sheet_mixed).
Defined.

(** ** Merged cells *)

(** X8.  When no two merged ranges of a sheet share a cell, every cell of
    a merged range reads the value of the range's top-left cell, and a
    cell of no merged range reads its own value. *)
Theorem merged_cells_read_the_anchor ws :
  (forall m1 m2 r c, m1 ∈ merged_ranges ws -> m2 ∈ merged_ranges ws ->
                     in_merge m1 r c -> in_merge m2 r c -> m1 = m2) ->
  (forall min_col min_row max_col max_row r c,
     (min_col, min_row, max_col, max_row) ∈ merged_ranges ws ->
     in_merge (min_col, min_row, max_col, max_row) r c ->
     get_merged_cell_value ws r c = cell_value ws min_row min_col)
  /\ (forall r c, (forall m, m ∈ merged_ranges ws -> ~ in_merge m r c) ->
                  get_merged_cell_value ws r c = cell_value ws r c).
Proof.
  intros Hdisj.
  assert (forall m r c,
            (let '(min_col, min_row, max_col, max_row) := m in
             (min_row <=? r)%Z && (r <=? max_row)%Z
             && (min_col <=? c)%Z && (c <=? max_col)%Z) = true
            <-> in_merge m r c) as Htest.
  { intros [[[a b] c'] d] r c. simpl.
    rewrite !andb_true_iff, !Z.leb_le. tauto. }
  split.
  - intros min_col min_row max_col max_row r c Hin Hm.
    unfold get_merged_cell_value.
    destruct (List.find _ (merged_ranges ws)) as [[[[a b] c'] d]|] eqn:Hf.
    + apply List.find_some in Hf as [Hin' Ht].
      apply list_elem_of_In in Hin'.
      apply (Htest (a, b, c', d) r c) in Ht.
      by injection (Hdisj _ _ r c Hin Hin' Hm Ht) as -> -> _ _.
    + exfalso. apply list_elem_of_In in Hin.
      pose proof (List.find_none _ _ Hf _ Hin) as Hno.
      apply (Htest (min_col, min_row, max_col, max_row) r c) in Hm.
      simpl in Hno, Hm. congruence.
  - intros r c Hnone. unfold get_merged_cell_value.
    destruct (List.find _ (merged_ranges ws)) as [[[[a b] c'] d]|] eqn:Hf; [|done].
    apply List.find_some in Hf as [Hin' Ht].
    apply list_elem_of_In in Hin'.
    apply (Htest (a, b, c', d) r c) in Ht. by destruct (Hnone _ Hin').
Qed.

Lemma merged_cells_read_the_anchor_witness :
  (forall m1 m2 r c, m1 ∈ merged_ranges sheet_merged ->
                     m2 ∈ merged_ranges sheet_merged ->
                     in_merge m1 r c -> in_merge m2 r c -> m1 = m2)
  /\ (forall min_col min_row max_col max_row r c,
        (min_col, min_row, max_col, max_row) ∈ merged_ranges sheet_merged ->
        in_merge (min_col, min_row, max_col, max_row) r c ->
        get_merged_cell_value sheet_merged r c
        = cell_value sheet_merged min_row min_col)
  /\ (forall r c, (forall m, m ∈ merged_ranges sheet_merged -> ~ in_merge m r c) ->
                  get_merged_cell_value sheet_merged r c
                  = cell_value sheet_merged r c).
Proof.
  assert (forall m1 m2 r c, m1 ∈ merged_ranges sheet_merged ->
                            m2 ∈ merged_ranges sheet_merged ->
                            in_merge m1 r c -> in_merge m2 r c -> m1 = m2) as H.
  { intros m1 m2 r c H1 H2 _ _. simpl in H1, H2.
    apply list_elem_of_singleton in H1, H2. congruence. }
  split; [exact H|]. exact (merged_cells_read_the_anchor sheet_merged H).
Defined.

(** ** The shape of a reference *)

Lemma span_max_spec p n : forall s,
  s = ((span_max p n s).1 ++ (span_max p n s).2)%string
  /\ all_char p (span_max p n s).1 = true
  /\ String.length (span_max p n s).1 <= n.
Proof.
  induction n as [|n IH]; intros s; simpl.
  - split; [done|]. split; [done|lia].
  - destruct s as [|c rest]; [split; [done|]; split; [done|simpl; lia]|].
    destruct (p c) eqn:Hp; [|split; [done|]; split; [done|simpl; lia]].
    destruct (IH rest) as (Heq & Hall & Hlen).
    destruct (span_max p n rest) as [m r]. simpl in *.
    rewrite Hp, Hall. split; [by rewrite string_app_cons, <- Heq|].
    split; [done|lia].
Qed.

Lemma span_spec p : forall s,
  s = ((span p s).1 ++ (span p s).2)%string /\ all_char p (span p s).1 = true.
Proof.
  induction s as [|c rest IH]; simpl; [done|].
  destruct (p c) eqn:Hp; [|done].
  destruct IH as (Heq & Hall). destruct (span p rest) as [m r]. simpl in *.
  rewrite Hp, Hall. by rewrite string_app_cons, <- Heq.
Qed.

Lemma span_max_app p : forall m n r,
  all_char p m = true -> String.length m <= n ->
  String.length m = n \/ stops p r ->
  span_max p n (m ++ r) = (m, r).
Proof.
  induction m as [|a m IH]; intros n r Hall Hlen Hstop.
  - rewrite string_app_nil. destruct n as [|n]; [by destruct r|].
    destruct Hstop as [Hn|Hstop]; [done|].
    destruct r as [|c r]; simpl in *; [done|]. by rewrite Hstop.
  - simpl in Hall. apply andb_true_iff in Hall as [Ha Hall].
    destruct n as [|n]; [simpl in Hlen; lia|].
    rewrite string_app_cons. simpl. rewrite Ha.
    rewrite (IH n r Hall); [done | simpl in Hlen; lia |].
    destruct Hstop as [Hn|Hstop]; [left; simpl in Hn; lia | by right].
Qed.

Lemma span_app p : forall m r,
  all_char p m = true -> stops p r -> span p (m ++ r) = (m, r).
Proof.
  induction m as [|a m IH]; intros r Hall Hstop.
  - rewrite string_app_nil. destruct r as [|c r]; simpl in *; [done|].
    by rewrite Hstop.
  - simpl in Hall. apply andb_true_iff in Hall as [Ha Hall].
    rewrite string_app_cons. simpl. by rewrite Ha, (IH r Hall Hstop).
Qed.

Lemma isalpha_not_dollar c : isalpha c = true -> Ascii.eqb c "$" = false.
Proof. destruct c as [[] [] [] [] [] [] [] []]; by vm_compute. Qed.

Lemma isdigit_not_dollar c : isdigit c = true -> Ascii.eqb c "$" = false.
Proof. destruct c as [[] [] [] [] [] [] [] []]; by vm_compute. Qed.

Lemma isdigit_not_alpha c : isdigit c = true -> isalpha c = false.
Proof. destruct c as [[] [] [] [] [] [] [] []]; by vm_compute. Qed.

Lemma opt_dollar_other c s :
  Ascii.eqb c "$" = false -> opt_dollar (String c s) = (EmptyString, String c s).
Proof. destruct c as [[] [] [] [] [] [] [] []]; by vm_compute. Qed.

Lemma opt_dollar_spec s :
  s = ((opt_dollar s).1 ++ (opt_dollar s).2)%string
  /\ remove_dollars (opt_dollar s).1 = EmptyString.
Proof.
  destruct s as [|c s]; [done|].
  destruct (Ascii.eqb c "$") eqn:Hc.
  - apply Ascii.eqb_eq in Hc as ->. done.
  - by rewrite opt_dollar_other.
Qed.

Lemma remove_dollars_app (a b : string) :
  remove_dollars (a ++ b) = (remove_dollars a ++ remove_dollars b)%string.
Proof.
  induction a as [|c a IH]; [done|].
  rewrite string_app_cons. simpl. destruct (Ascii.eqb c "$"); [done|].
  by rewrite string_app_cons, IH.
Qed.

Lemma remove_dollars_none p s :
  (forall c, p c = true -> Ascii.eqb c "$" = false) ->
  all_char p s = true -> remove_dollars s = s.
Proof.
  intros Hp. induction s as [|c s IH]; simpl; [done|].
  intros [Hc Hall]%andb_true_iff. by rewrite (Hp c Hc), IH.
Qed.

Lemma remove_dollars_idemp s : remove_dollars (remove_dollars s) = remove_dollars s.
Proof.
  induction s as [|c s IH]; simpl; [done|].
  destruct (Ascii.eqb c "$") eqn:Hc; [done|]. simpl. by rewrite Hc, IH.
Qed.

(** The parts of a match of the reference pattern. *)
Lemma match_reference_parts s m rest :
  match_reference s = Some (m, rest) ->
  exists col digits,
    remove_dollars m = (col ++ digits)%string
    /\ all_char isalpha col = true /\ 1 <= String.length col <= 3
    /\ all_char isdigit digits = true /\ digits <> EmptyString.
Proof.
  unfold match_reference, match_letters_digits.
  destruct (opt_dollar_spec s) as (_ & Hd0).
  destruct (opt_dollar s) as [d0 r0]. simpl in Hd0.
  destruct (span_max_spec isalpha 3 r0) as (_ & Hall & Hlen).
  destruct (span_max isalpha 3 r0) as [letters r1]. simpl in Hall, Hlen.
  destruct (truthy letters) eqn:Hl; [|done].
  destruct (opt_dollar_spec r1) as (_ & Hd1).
  destruct (opt_dollar r1) as [d1 r2]. simpl in Hd1.
  destruct (span_spec isdigit r2) as (_ & Halld).
  destruct (span isdigit r2) as [digits r3]. simpl in Halld.
  destruct (truthy digits) eqn:Hdg; [|done].
  intros [= <- <-]. exists letters, digits.
  rewrite !remove_dollars_app, Hd0, Hd1, !string_app_nil.
  rewrite (remove_dollars_none isalpha letters isalpha_not_dollar Hall).
  rewrite (remove_dollars_none isdigit digits isdigit_not_dollar Halld).
  split; [done|]. split; [done|]. split; [|split; [done|]].
  - destruct letters; [done|]. simpl in *. lia.
  - by destruct digits.
Qed.

Lemma findall_references_elem ref : forall s skip,
  ref ∈ findall_references skip s ->
  exists s' rest, match_reference s' = Some (ref, rest).
Proof.
  induction s as [|c s IH]; intros skip; simpl; [by intros ?%elem_of_nil|].
  destruct skip as [|k]; [|apply IH].
  destruct (match_reference (String c s)) as [[m rest]|] eqn:Hm; [|apply IH].
  intros [->|Hin]%elem_of_cons; [by eauto|]. by eapply IH.
Qed.

Lemma coordinate_of_parts col digits :
  all_char isalpha col = true -> 1 <= String.length col <= 3 ->
  all_char isdigit digits = true -> digits <> EmptyString ->
  coordinate_from_string (col ++ digits)
  = if (int_of_digits digits =? 0)%Z then None
    else Some (col, int_of_digits digits).
Proof.
  intros Hall Hlen Halld Hne. unfold coordinate_from_string.
  destruct col as [|a col]; [simpl in Hlen; lia|].
  destruct digits as [|d digits]; [done|].
  pose proof Hall as Hall'. pose proof Halld as Halld'.
  simpl in Hall', Halld'.
  apply andb_true_iff in Hall' as [Ha _]. apply andb_true_iff in Halld' as [Hd _].
  rewrite string_app_cons, (opt_dollar_other a _ (isalpha_not_dollar a Ha)).
  rewrite <- string_app_cons.
  rewrite (span_max_app isalpha (String a col) 3 (String d digits) Hall);
    [|lia|right; simpl; by apply isdigit_not_alpha].
  rewrite (opt_dollar_other d _ (isdigit_not_dollar d Hd)).
  replace (String d digits) with (String d digits ++ "")%string at 1
    by (clear; induction (String d digits) as [|x s IH];
        [done | by rewrite string_app_cons, IH]).
  by rewrite (span_app isdigit (String d digits) "" Halld).
Qed.

Lemma remove_dollars_length s :
  String.length (remove_dollars s) <= String.length s.
Proof.
  induction s as [|c s IH]; simpl; [done|].
  destruct (Ascii.eqb c "$"); simpl; lia.
Qed.

Lemma string_length_app (a b : string) :
  String.length (a ++ b) = String.length a + String.length b.
Proof.
  induction a as [|c a IH]; [done|]. rewrite string_app_cons. simpl. by rewrite IH.
Qed.

(** X9.  Every reference of at most 4300 characters that
    [extract_references] finds in a formula is, once its dollar signs are
    removed, one to three letters followed by fewer than 4300 digits, and
    [coordinate_from_string] reads it as that column and that row: the
    lookup of the header of such a reference can fail at the parsing only
    when the row number is 0. *)
Theorem extracted_references_parse formula ref :
  ref ∈ extract_references formula ->
  String.length ref <= 4300 ->
  exists col digits,
    remove_dollars ref = (col ++ digits)%string
    /\ all_char isalpha col = true /\ 1 <= String.length col <= 3
    /\ all_char isdigit digits = true /\ digits <> EmptyString
    /\ String.length digits < 4300
    /\ coordinate_from_string (remove_dollars ref)
       = if (int_of_digits digits =? 0)%Z then None
         else Some (col, int_of_digits digits).
Proof.
  intros Hin Hlen. apply findall_references_elem in Hin as (s' & rest & Hm).
  apply match_reference_parts in Hm as (col & digits & Heq & Hc & Hl & Hd & Hne).
  exists col, digits.
  pose proof (remove_dollars_length ref) as Hrd.
  rewrite Heq, string_length_app in Hrd.
  rewrite Heq. repeat split; try done; try lia.
  by apply coordinate_of_parts.
Qed.

Lemma extracted_references_parse_witness :
  "$B$2" ∈ extract_references "=SUM($A$1,$B$2)"
  /\ String.length "$B$2" <= 4300
  /\ exists col digits,
       remove_dollars "$B$2" = (col ++ digits)%string
       /\ all_char isalpha col = true /\ 1 <= String.length col <= 3
       /\ all_char isdigit digits = true /\ digits <> EmptyString
       /\ String.length digits < 4300
       /\ coordinate_from_string (remove_dollars "$B$2")
          = if (int_of_digits digits =? 0)%Z then None
            else Some (col, int_of_digits digits).
Proof.
  assert ("$B$2" ∈ extract_references "=SUM($A$1,$B$2)") as H.
  { vm_compute. apply list_elem_of_further, list_elem_of_here. }
  assert (String.length "$B$2" <= 4300) as Hlen by (simpl; lia).
  split; [exact H|]. split; [exact Hlen|].
  exact (extracted_references_parse "=SUM($A$1,$B$2)" "$B$2" H Hlen).
Defined.

(** ** The header of a cell *)

Lemma header_among_app a b row_idx col_idx :
  header_among (a ++ b) row_idx col_idx
  = match header_among a row_idx col_idx with
    | Some h => Some h
    | None => header_among b row_idx col_idx
    end.
Proof.
  induction a as [|t a IH]; simpl; [done|].
  destruct (_ && _)%bool; [|done].
  by destruct (t_headers t !! _).
Qed.

Lemma header_among_spec tables row_idx col_idx h :
  header_among tables row_idx col_idx = Some h
  <-> exists k t,
        tables !! k = Some t /\ header_found t row_idx col_idx h
        /\ forall j t' h', j < k -> tables !! j = Some t' ->
                           ~ header_found t' row_idx col_idx h'.
Proof.
  induction tables as [|t tables IH]; simpl.
  - split; [done|]. by intros (k & t & Hk & _).
  - assert (((t_r1 t <=? row_idx)%Z && (row_idx <=? t_r2 t)%Z
             && (t_c1 t <=? col_idx)%Z && (col_idx <=? t_c2 t)%Z) = true
            <-> (t_r1 t <= row_idx <= t_r2 t)%Z /\ (t_c1 t <= col_idx <= t_c2 t)%Z)
      as Htest by (rewrite !andb_true_iff, !Z.leb_le; tauto).
    destruct (_ && _)%bool eqn:Hin.
    + destruct (proj1 Htest eq_refl) as [Hr0 Hc0].
      destruct (t_headers t !! Z.to_nat (col_idx - t_c1 t)) as [h0|] eqn:Hh.
      * split.
        -- intros [= ->]. exists 0, t. split; [done|].
           split; [by split|]. intros j t' h' Hj. lia.
        -- intros ([|k] & t0 & Hk & Hf & Hfirst).
           ++ injection Hk as <-. destruct Hf as (_ & _ & Hf). congruence.
           ++ exfalso. apply (Hfirst 0 t h0 ltac:(lia) eq_refl). by split.
      * rewrite IH. split.
        -- intros (k & t0 & Hk & Hf & Hfirst). exists (S k), t0.
           split; [done|]. split; [done|].
           intros [|j] t' h' Hj Hl; simpl in Hl.
           ++ injection Hl as <-. intros (_ & _ & Hf'). congruence.
           ++ apply (Hfirst j t' h'); [lia|done].
        -- intros ([|k] & t0 & Hk & Hf & Hfirst).
           ++ injection Hk as <-. destruct Hf as (_ & _ & Hf). congruence.
           ++ exists k, t0. split; [done|]. split; [done|].
              intros j t' h' Hj Hl. apply (Hfirst (S j) t' h'); [lia|done].
    + assert (forall h', ~ header_found t row_idx col_idx h') as Hout.
      { intros h' (Hr & Hc & _). discriminate (proj2 Htest (conj Hr Hc)). }
      rewrite IH. split.
      * intros (k & t0 & Hk & Hf & Hfirst). exists (S k), t0.
        split; [done|]. split; [done|].
        intros [|j] t' h' Hj Hl; simpl in Hl.
        -- injection Hl as <-. apply Hout.
        -- apply (Hfirst j t' h'); [lia|done].
      * intros ([|k] & t0 & Hk & Hf & Hfirst).
        -- injection Hk as <-. by destruct (Hout h).
        -- exists k, t0. split; [done|]. split; [done|].
           intros j t' h' Hj Hl. apply (Hfirst (S j) t' h'); [lia|done].
Qed.

(** X10.  [find_header_for_cell] returns a header exactly when the
    reference parses, the sheet is in the registry, and some table of the
    sheet holds the cell and has a header at the cell's column offset; the
    header returned is then that of the first such table, the explicit
    tables coming before the implicit ones. *)
Theorem header_lookup_takes_first_table sheet_name cell_ref table_info h :
  find_header_for_cell sheet_name cell_ref table_info = Some h
  <-> exists col row_idx tables k t,
        coordinate_from_string (remove_dollars cell_ref) = Some (col, row_idx)
        /\ table_info !! sheet_name = Some tables
        /\ (explicit_tables tables ++ implicit_tables tables) !! k = Some t
        /\ header_found t row_idx (column_index_from_string col) h
        /\ forall j t' h', j < k ->
             (explicit_tables tables ++ implicit_tables tables) !! j = Some t' ->
             ~ header_found t' row_idx (column_index_from_string col) h'.
Proof.
  unfold find_header_for_cell.
  destruct (coordinate_from_string (remove_dollars cell_ref))
    as [[col row_idx]|] eqn:Hc.
  - destruct (table_info !! sheet_name) as [tables|] eqn:Ht.
    + pose proof (header_among_app (explicit_tables tables) (implicit_tables tables)
                    row_idx (column_index_from_string col)) as Happ.
      rewrite <- Happ, header_among_spec. split.
      * intros (k & t & Hk & Hf & Hfirst). by exists col, row_idx, tables, k, t.
      * intros (col' & row' & tables' & k & t & [= <- <-] & [= <-] & Hk & Hf & Hfirst).
        by exists k, t.
    + split; [done|]. by intros (? & ? & ? & ? & ? & _ & ? & _).
  - split; [done|]. by intros (? & ? & ? & ? & ? & ? & _).
Qed.

(** X11.  The dollar signs of a reference play no part in the lookup of
    its header: a reference and the same reference without them get the
    same answer. *)
Theorem header_lookup_ignores_dollars sheet_name cell_ref table_info :
  find_header_for_cell sheet_name (remove_dollars cell_ref) table_info
  = find_header_for_cell sheet_name cell_ref table_info.
Proof. unfold find_header_for_cell. by rewrite remove_dollars_idemp. Qed.

(** ** Annotation and the order of the references *)

Lemma set_iteration_forward : set_iteration order_forward.
Proof. intros l. reflexivity. Defined.

Lemma set_iteration_backward : set_iteration order_backward.
Proof. intros l. unfold order_backward. symmetry. apply Permutation_rev. Defined.

Lemma sorted_references_elem set_order formula ref :
  set_iteration set_order ->
  ref ∈ sort_by_length_desc (set_order (extract_references formula)) ->
  ref ∈ extract_references formula.
Proof.
  intros Hset Hin. rewrite sort_by_length_desc_perm, (Hset _) in Hin.
  by rewrite elem_of_remove_dups in Hin.
Qed.

Lemma annotate_steps_unchanged sheet_name table_info refs text :
  (forall ref, ref ∈ refs ->
     find_header_for_cell sheet_name ref table_info = None
     \/ find_header_for_cell sheet_name ref table_info = Some EmptyString) ->
  foldl (annotate_step sheet_name table_info) (Some text) refs = Some text.
Proof.
  induction refs as [|ref refs IH]; intros H; cbn [foldl]; [done|].
  assert (annotate_step sheet_name table_info (Some text) ref = Some text) as ->.
  { unfold annotate_step.
    by destruct (H ref (list_elem_of_here _ _)) as [-> | ->]. }
  apply IH. intros r Hr. apply H. by apply list_elem_of_further.
Qed.

(** X12.  When no reference of a formula has a header, or only an empty
    one, the annotation returns the formula as it is, whatever the
    iteration order of the set. *)
Theorem annotation_without_headers_is_identity
    set_order formula sheet_name table_info :
  set_iteration set_order ->
  (forall ref, ref ∈ extract_references formula ->
     find_header_for_cell sheet_name ref table_info = None
     \/ find_header_for_cell sheet_name ref table_info = Some EmptyString) ->
  annotate_formula set_order formula sheet_name table_info = Some formula.
Proof.
  intros Hset H. unfold annotate_formula. apply annotate_steps_unchanged.
  intros ref Hin. apply H. by eapply sorted_references_elem.
Qed.

Lemma annotation_without_headers_witness :
  set_iteration order_forward
  /\ (forall ref, ref ∈ extract_references "=A1+B2" ->
        find_header_for_cell "Sheet2" ref registry_qty_total = None
        \/ find_header_for_cell "Sheet2" ref registry_qty_total = Some EmptyString)
  /\ annotate_formula order_forward "=A1+B2" "Sheet2" registry_qty_total
     = Some "=A1+B2".
Proof.
  assert (forall ref, ref ∈ extract_references "=A1+B2" ->
            find_header_for_cell "Sheet2" ref registry_qty_total = None
            \/ find_header_for_cell "Sheet2" ref registry_qty_total
               = Some EmptyString) as H.
  { intros ref _. left. unfold find_header_for_cell.
    by destruct (coordinate_from_string _) as [[col row_idx]|]. }
  split; [exact set_iteration_forward|]. split; [exact H|].
  exact (annotation_without_headers_is_identity order_forward "=A1+B2" "Sheet2"
           registry_qty_total set_iteration_forward H).
Defined.

(** Two lists sorted by decreasing length that hold the same entries are
    equal when entries of equal length are equal. *)
Lemma sorted_by_length_unique : forall l1 l2 : list string,
  l1 ≡ₚ l2 ->
  StronglySorted longer_first l1 -> StronglySorted longer_first l2 ->
  (forall a b, a ∈ l1 -> b ∈ l1 -> String.length a = String.length b -> a = b) ->
  l1 = l2.
Proof.
  induction l1 as [|x l1 IH]; intros l2 Hp Hs1 Hs2 Hlen.
  - by apply Permutation_nil_l in Hp.
  - destruct l2 as [|y l2]; [by apply Permutation_nil_r in Hp|].
    apply StronglySorted_inv in Hs1 as [Hs1 Hx].
    apply StronglySorted_inv in Hs2 as [Hs2 Hy].
    rewrite List.Forall_forall in Hx, Hy.
    assert (x ∈ y :: l2) as Hxin by (rewrite <- Hp; apply list_elem_of_here).
    assert (y ∈ x :: l1) as Hyin by (rewrite Hp; apply list_elem_of_here).
    assert (x = y) as <-.
    { apply elem_of_cons in Hxin as [?|Hxin]; [done|].
      pose proof Hyin as Hyin'.
      apply elem_of_cons in Hyin as [?|Hyin]; [done|].
      apply list_elem_of_In in Hxin, Hyin.
      pose proof (Hx y Hyin) as H1. pose proof (Hy x Hxin) as H2.
      unfold longer_first in H1, H2.
      apply Hlen; [apply list_elem_of_here | done | lia]. }
    f_equal. apply IH; [by apply Permutation_cons_inv in Hp | done | done |].
    intros a b Ha Hb. apply Hlen; by apply list_elem_of_further.
Qed.

(** X13.  When the references of a formula that differ have different
    lengths, the annotation does not depend on the iteration order of the
    set: the sorting by length leaves one order only. *)
Theorem annotation_order_free_when_lengths_differ
    order1 order2 formula sheet_name table_info :
  set_iteration order1 -> set_iteration order2 ->
  (forall a b, a ∈ extract_references formula -> b ∈ extract_references formula ->
               String.length a = String.length b -> a = b) ->
  annotate_formula order1 formula sheet_name table_info
  = annotate_formula order2 formula sheet_name table_info.
Proof.
  intros H1 H2 Hlen. unfold annotate_formula.
  rewrite (sorted_by_length_unique
             (sort_by_length_desc (order1 (extract_references formula)))
             (sort_by_length_desc (order2 (extract_references formula))));
    [done | | apply sort_by_length_desc_sorted..|].
  - by rewrite !sort_by_length_desc_perm, (H1 _), (H2 _).
  - intros a b Ha Hb. apply Hlen; by eapply (sorted_references_elem order1).
Qed.

Lemma annotation_order_free_witness :
  set_iteration order_forward /\ set_iteration order_backward
  /\ (forall a b, a ∈ extract_references "=AA1+A1*AA1" ->
                  b ∈ extract_references "=AA1+A1*AA1" ->
                  String.length a = String.length b -> a = b)
  /\ annotate_formula order_forward "=AA1+A1*AA1" "Sheet1" registry_qty_total
     = annotate_formula order_backward "=AA1+A1*AA1" "Sheet1" registry_qty_total.
Proof.
  assert (forall a b, a ∈ extract_references "=AA1+A1*AA1" ->
                      b ∈ extract_references "=AA1+A1*AA1" ->
                      String.length a = String.length b -> a = b) as H.
  { intros a b Ha Hb.
    assert (extract_references "=AA1+A1*AA1" = ["AA1"; "A1"; "AA1"]) as E
      by (vm_compute; reflexivity).
    rewrite E in Ha, Hb.
    repeat (apply elem_of_cons in Ha as [->|Ha]);
      repeat (apply elem_of_cons in Hb as [->|Hb]);
      try (by apply elem_of_nil in Ha); try (by apply elem_of_nil in Hb);
      simpl; intros; done. }
  split; [exact set_iteration_forward|].
  split; [exact set_iteration_backward|]. split; [exact H|].
  exact (annotation_order_free_when_lengths_differ order_forward order_backward
           "=AA1+A1*AA1" "Sheet1" registry_qty_total
           set_iteration_forward set_iteration_backward H).
Defined.

Example annotation_of_quarters :
  annotate_formula order_forward "=B2+Q1" "Sheet1" registry_quarters
  = Some "=[[Total]]+[Total]"
  /\ annotate_formula order_backward "=B2+Q1" "Sheet1" registry_quarters
     = Some "=[Q1]+[Total]".
Proof. split; vm_compute; reflexivity. Qed.

(** X14.  The annotation is not determined by the formula, the sheet and
    the registry: when the header of one reference reads like another
    reference of the formula, of the same length, two iteration orders of
    the set of references give two different results.  With column B
    headed Q1 and column Q headed Total, the formula =B2+Q1 becomes
    =[[Total]]+[Total] or =[Q1]+[Total]. *)
Theorem annotation_can_depend_on_set_order :
  exists order1 order2 formula sheet_name table_info,
    set_iteration order1 /\ set_iteration order2
    /\ annotate_formula order1 formula sheet_name table_info
       <> annotate_formula order2 formula sheet_name table_info.
Proof.
  exists order_forward, order_backward, "=B2+Q1", "Sheet1", registry_quarters.
  split; [exact set_iteration_forward|].
  split; [exact set_iteration_backward|].
  destruct annotation_of_quarters as [-> ->]. discriminate.
Qed.

(** ** Range strings read back *)

Lemma int_of_digits_value s : int_of_digits s = digits_value 0 s.
Proof. reflexivity. Qed.

Lemma digits_value_app (a b : string) : forall acc,
  digits_value acc (a ++ b) = digits_value (digits_value acc a) b.
Proof.
  induction a as [|c a IH]; intros acc; [done|].
  rewrite string_app_cons. simpl. apply IH.
Qed.

Lemma all_char_app p (a b : string) :
  all_char p (a ++ b) = all_char p a && all_char p b.
Proof.
  induction a as [|c a IH]; [done|].
  rewrite string_app_cons. simpl. by rewrite IH, andb_assoc.
Qed.

Lemma pretty_N_char_digit y :
  (y < 10)%N ->
  isdigit (pretty_N_char y) = true
  /\ (Z.of_nat (nat_of_ascii (pretty_N_char y)) - 48)%Z = Z.of_N y.
Proof.
  intros Hy.
  assert (y = 0 \/ y = 1 \/ y = 2 \/ y = 3 \/ y = 4 \/ y = 5 \/ y = 6
          \/ y = 7 \/ y = 8 \/ y = 9)%N as H by lia.
  repeat (destruct H as [->|H]); try subst y; by vm_compute.
Qed.

(** What [pretty] puts in front of [s] for the number [x]: its decimal
    digits. *)
Lemma pretty_N_go_digits x : forall s,
  exists d,
    pretty_N_go x s = (d ++ s)%string
    /\ all_char isdigit d = true
    /\ (forall acc, digits_value acc d
                    = (acc * 10 ^ Z.of_nat (String.length d) + Z.of_N x)%Z)
    /\ ((0 < x)%N -> d <> EmptyString).
Proof.
  induction (N.lt_wf_0 x) as [x _ IH]; intros s.
  assert (x = 0 \/ 0 < x)%N as [->|Hpos] by lia.
  - exists EmptyString. rewrite pretty_N_go_0. repeat split; [|lia].
    intros acc. simpl. lia.
  - rewrite pretty_N_go_step by done.
    destruct (IH (x `div` 10)%N ltac:(by apply N.div_lt)
                 (String (pretty_N_char (x `mod` 10)) s))
      as (d & Heq & Hall & Hval & _).
    destruct (pretty_N_char_digit (x `mod` 10)%N) as [Hdig Hcode];
      [by apply N.mod_lt|].
    exists (d ++ String (pretty_N_char (x `mod` 10)) "")%string.
    split; [by rewrite Heq, string_app_assoc|].
    split; [rewrite all_char_app, Hall; simpl; by rewrite Hdig|].
    split; [|by destruct d].
    intros acc. rewrite digits_value_app, Hval. simpl. rewrite Hcode.
    assert (String.length (d ++ String (pretty_N_char (x `mod` 10)) "")
            = S (String.length d)) as ->.
    { clear. induction d as [|c d IHd]; [done|].
      rewrite string_app_cons. simpl. by rewrite IHd. }
    rewrite Nat2Z.inj_succ, Z.pow_succ_r by lia.
    pose proof (N.div_mod x 10 ltac:(done)) as Hdm.
    rewrite N2Z.inj_div, N2Z.inj_mod.
    pose proof (Z.div_mod (Z.of_N x) 10 ltac:(done)) as Hzdm.
    change (Z.of_N 10) with 10%Z. lia.
Qed.

(** [int(str(r))] is [r] for a row number. *)
Lemma pretty_row_digits (r : Z) :
  (1 <= r)%Z ->
  all_char isdigit (pretty r) = true /\ pretty r <> EmptyString
  /\ int_of_digits (pretty r) = r.
Proof.
  intros Hr. destruct r as [|p|p]; [lia| |lia].
  unfold pretty, pretty_Z, pretty, pretty_positive, pretty, pretty_N.
  destruct (decide (N.pos p = 0%N)) as [|_]; [done|].
  destruct (pretty_N_go_digits (N.pos p) "") as (d & Heq & Hall & Hval & Hne).
  assert ((d ++ "")%string = d) as Hd.
  { clear. induction d as [|c d IHd]; [done|].
    by rewrite string_app_cons, IHd. }
  rewrite Heq, Hd. split; [done|]. split; [by apply Hne|].
  rewrite int_of_digits_value, Hval. simpl. lia.
Qed.

Lemma column_letters_checked :
  forallb (fun n =>
             let s := get_column_letter n in
             (column_index_from_string s =? n)%Z && all_char isalpha s
             && (1 <=? String.length s) && (String.length s <=? 3))
          column_range = true.
Proof. vm_compute. reflexivity. Qed.

Lemma column_letter_spec n :
  (1 <= n <= 18278)%Z ->
  column_index_from_string (get_column_letter n) = n
  /\ all_char isalpha (get_column_letter n) = true
  /\ 1 <= String.length (get_column_letter n) <= 3.
Proof.
  intros Hn. pose proof column_letters_checked as H.
  rewrite forallb_forall in H. specialize (H n).
  cbv beta zeta in H. rewrite !andb_true_iff in H.
  destruct H as [[[H1 H2] H3] H4].
  { apply list_elem_of_In. unfold column_range. apply elem_of_seqZ. lia. }
  apply Z.eqb_eq in H1. apply Nat.leb_le in H3, H4. by repeat split.
Qed.

Lemma corner_read_back c r :
  (1 <= c <= 18278)%Z -> (1 <= r)%Z ->
  coordinate_from_string (get_column_letter c ++ pretty r)
  = Some (get_column_letter c, r).
Proof.
  intros Hc Hr.
  destruct (column_letter_spec c Hc) as (_ & Hall & Hlen).
  destruct (pretty_row_digits r Hr) as (Hd & Hne & Hv).
  rewrite (coordinate_of_parts _ _ Hall Hlen Hd Hne), Hv.
  by destruct (Z.eqb_spec r 0); [lia|].
Qed.

(** X15.  The two corners that [bbox_to_range_str] writes are read back
    by [coordinate_from_string] and [column_index_from_string] as the
    rows and columns they were written from, for rows from 1 and columns
    from 1 to 18278. *)
Theorem range_string_corners_read_back r1 r2 c1 c2 :
  (1 <= r1)%Z -> (1 <= r2)%Z ->
  (1 <= c1 <= 18278)%Z -> (1 <= c2 <= 18278)%Z ->
  exists a1 a2 col1 col2,
    bbox_to_range_str r1 r2 c1 c2 = (a1 ++ ":" ++ a2)%string
    /\ coordinate_from_string a1 = Some (col1, r1)
    /\ column_index_from_string col1 = c1
    /\ coordinate_from_string a2 = Some (col2, r2)
    /\ column_index_from_string col2 = c2.
Proof.
  intros Hr1 Hr2 Hc1 Hc2.
  exists (get_column_letter c1 ++ pretty r1)%string,
         (get_column_letter c2 ++ pretty r2)%string,
         (get_column_letter c1), (get_column_letter c2).
  split; [unfold bbox_to_range_str; by rewrite !string_app_assoc|].
  split; [by apply corner_read_back|].
  split; [by apply column_letter_spec|].
  split; [by apply corner_read_back|]. by apply column_letter_spec.
Qed.

Lemma range_string_corners_read_back_witness :
  (1 <= 4)%Z /\ (1 <= 5)%Z /\ (1 <= 1 <= 18278)%Z /\ (1 <= 28 <= 18278)%Z
  /\ exists a1 a2 col1 col2,
       bbox_to_range_str 4 5 1 28 = (a1 ++ ":" ++ a2)%string
       /\ coordinate_from_string a1 = Some (col1, 4%Z)
       /\ column_index_from_string col1 = 1%Z
       /\ coordinate_from_string a2 = Some (col2, 5%Z)
       /\ column_index_from_string col2 = 28%Z.
Proof.
  split; [lia|]. split; [lia|]. split; [lia|]. split; [lia|].
  exact (range_string_corners_read_back 4 5 1 28
           ltac:(lia) ltac:(lia) ltac:(lia) ltac:(lia)).
Defined.

(** ** Escaping for COPY *)

Lemma replace_char_app c repl (a b : string) :
  replace_char c repl (a ++ b)
  = (replace_char c repl a ++ replace_char c repl b)%string.
Proof.
  induction a as [|x a IH]; [done|].
  rewrite string_app_cons. simpl. destruct (Ascii.eqb x c).
  - by rewrite IH, string_app_assoc.
  - by rewrite IH, string_app_cons.
Qed.

Lemma escape_csv_cons c v :
  escape_csv (Some (String c v)) = (escape_char c ++ escape_csv (Some v))%string.
Proof.
  unfold escape_csv, escape_char. cbn [replace_char].
  destruct (Ascii.eqb c "\") eqn:E1.
  - by rewrite !replace_char_app.
  - cbn [replace_char]. destruct (Ascii.eqb c newline) eqn:E2.
    + by rewrite !replace_char_app.
    + cbn [replace_char]. by destruct (Ascii.eqb c "|") eqn:E3.
Qed.

Lemma escape_csv_text_inj : forall a b,
  escape_csv (Some a) = escape_csv (Some b) -> a = b.
Proof.
  induction a as [|x a IH]; intros [|y b].
  - done.
  - rewrite escape_csv_cons. unfold escape_char.
    destruct (Ascii.eqb y "\"), (Ascii.eqb y newline), (Ascii.eqb y "|"); done.
  - rewrite escape_csv_cons. unfold escape_char.
    destruct (Ascii.eqb x "\"), (Ascii.eqb x newline), (Ascii.eqb x "|"); done.
  - rewrite !escape_csv_cons. unfold escape_char.
    destruct (Ascii.eqb_spec x "\") as [->|Hx1];
      [|destruct (Ascii.eqb_spec x newline) as [->|Hx2];
        [|destruct (Ascii.eqb_spec x "|") as [->|Hx3]]];
    (destruct (Ascii.eqb_spec y "\") as [->|Hy1];
      [|destruct (Ascii.eqb_spec y newline) as [->|Hy2];
        [|destruct (Ascii.eqb_spec y "|") as [->|Hy3]]]);
    rewrite ?string_app_cons, ?string_app_nil; intros H;
    try discriminate H; injection H as H; subst;
    try congruence; f_equal; by apply IH.
Qed.

Lemma escape_csv_no_newline v c :
  c ∈ list_ascii_of_string (escape_csv (Some v)) -> c <> newline.
Proof.
  induction v as [|x v IH]; [by intros ?%elem_of_nil|].
  rewrite escape_csv_cons. unfold escape_char.
  destruct (Ascii.eqb_spec x "\") as [->|Hx1];
    [|destruct (Ascii.eqb_spec x newline) as [->|Hx2];
      [|destruct (Ascii.eqb_spec x "|") as [->|Hx3]]];
    rewrite ?string_app_cons, ?string_app_nil; simpl;
    rewrite ?elem_of_cons; intros H; destruct_or?; subst; auto; done.
Qed.

(** X20.  [escape_csv] sends different values to different texts, the
    missing value included: the marker of the missing value is the text
    of no value. *)
Theorem escape_csv_is_injective a b :
  escape_csv a = escape_csv b -> a = b.
Proof.
  intros H.
  destruct a as [a|], b as [b|]; [|exfalso..|done].
  - f_equal. by apply escape_csv_text_inj.
  - destruct a as [|x a]; [done|]. rewrite escape_csv_cons in H.
    unfold escape_char in H. simpl in H.
    destruct (Ascii.eqb_spec x "\") as [->|Hx1];
      [|destruct (Ascii.eqb_spec x newline) as [->|Hx2];
        [|destruct (Ascii.eqb_spec x "|") as [->|Hx3]]];
      rewrite ?string_app_cons, ?string_app_nil in H;
      try discriminate H; injection H as H; congruence.
  - destruct b as [|x b]; [done|]. rewrite escape_csv_cons in H.
    unfold escape_char in H. simpl in H.
    destruct (Ascii.eqb_spec x "\") as [->|Hx1];
      [|destruct (Ascii.eqb_spec x newline) as [->|Hx2];
        [|destruct (Ascii.eqb_spec x "|") as [->|Hx3]]];
      rewrite ?string_app_cons, ?string_app_nil in H;
      try discriminate H; injection H as H; congruence.
Qed.

Lemma escape_csv_is_injective_witness :
  escape_csv (Some "a|b\c") = escape_csv (Some "a|b\c")
  /\ Some "a|b\c" = Some "a|b\c".
Proof.
  split; [reflexivity|].
  exact (escape_csv_is_injective (Some "a|b\c") (Some "a|b\c") eq_refl).
Defined.

Lemma copy_read_escaped v : forall tail,
  copy_read_field (escape_csv (Some v) ++ tail)
  = ((v ++ (copy_read_field tail).1)%string, (copy_read_field tail).2).
Proof.
  induction v as [|x v IH]; intros tail.
  - simpl. rewrite !string_app_nil. by destruct (copy_read_field tail).
  - rewrite escape_csv_cons, string_app_assoc. unfold escape_char.
    destruct (Ascii.eqb_spec x "\") as [->|Hx1];
      [|destruct (Ascii.eqb_spec x newline) as [->|Hx2];
        [|destruct (Ascii.eqb_spec x "|") as [->|Hx3]]];
      rewrite ?string_app_cons, ?string_app_nil; cbn [copy_read_field];
      rewrite ?IH; simpl; try done.
    apply Ascii.eqb_neq in Hx1, Hx3. by rewrite Hx1, Hx3.
Qed.

(** X21.  A text escaped by [escape_csv] holds no line feed.  Followed by
    the separator it is read back, by the rules of COPY's text format, as
    the text it was made from, and the reading stops at that separator;
    at the end of a line it is read back whole.  So a bar, a backslash or
    a line feed in a field moves no boundary of a field or of a record. *)
Theorem escaped_field_reads_back v rest :
  (forall c, c ∈ list_ascii_of_string (escape_csv (Some v)) -> c <> newline)
  /\ copy_read_field (escape_csv (Some v) ++ String "|" rest) = (v, Some rest)
  /\ copy_read_field (escape_csv (Some v)) = (v, None).
Proof.
  assert (forall s : string, (s ++ "")%string = s) as Hnil.
  { induction s as [|c s IH]; [done|]. by rewrite string_app_cons, IH. }
  split; [apply escape_csv_no_newline|]. split.
  - rewrite copy_read_escaped. simpl. by rewrite Hnil.
  - rewrite <- (Hnil (escape_csv (Some v))), copy_read_escaped. simpl.
    by rewrite Hnil.
Qed.

(** ** Dictionaries *)

Lemma dict_set_keys {V} k (v : V) d :
  map fst (dict_set k v d)
  = if bool_decide (k ∈ map fst d) then map fst d else map fst d ++ [k].
Proof.
  induction d as [|[k0 v0] d IH]; simpl; [done|].
  - destruct (String.eqb_spec k0 k) as [->|Hne]; simpl.
    + by rewrite bool_decide_eq_true_2 by apply list_elem_of_here.
    + rewrite IH. case_bool_decide as Hin.
      * by rewrite bool_decide_eq_true_2 by (by apply list_elem_of_further).
      * rewrite bool_decide_eq_false_2; [done|].
        intros [?|?]%elem_of_cons; [congruence|done].
Qed.

Lemma dict_get_set {V} k k' (v : V) d :
  dict_get k' (dict_set k v d)
  = if String.eqb k k' then Some v else dict_get k' d.
Proof.
  induction d as [|[k0 v0] d IH]; simpl; [done|].
  destruct (String.eqb_spec k0 k) as [->|Hne]; simpl.
  - by destruct (String.eqb k k').
  - rewrite IH. destruct (String.eqb_spec k0 k') as [->|Hne'].
    + by rewrite (proj2 (String.eqb_neq k k')) by congruence.
    + done.
Qed.

Lemma dict_fromkeys_snoc l k :
  dict_fromkeys (l ++ [k])
  = if bool_decide (k ∈ dict_fromkeys l) then dict_fromkeys l
    else dict_fromkeys l ++ [k].
Proof. unfold dict_fromkeys. by rewrite foldl_snoc. Qed.

Lemma dict_fromkeys_first l : dict_fromkeys l = first_occurrences l.
Proof.
  unfold dict_fromkeys. rewrite dict_fromkeys_fold. simpl.
  induction (first_occurrences l) as [|x xs IH]; simpl; [done|].
  by rewrite IH.
Qed.

Lemma dict_fromkeys_elem l k : k ∈ dict_fromkeys l <-> k ∈ l.
Proof. rewrite dict_fromkeys_first. apply first_occurrences_elem. Qed.

Lemma dict_fromkeys_NoDup l : NoDup (dict_fromkeys l).
Proof. rewrite dict_fromkeys_first. apply first_occurrences_NoDup. Qed.

(** ** The rows stored for a table *)

Section DataRowsFacts.
Variable serializable : CellValue -> CellValue.
Variable ws : Worksheet.

Lemma data_row_snoc row_idx c1 headers h :
  data_row serializable ws row_idx c1 (headers ++ [h])
  = let '(row_dict, is_empty) := data_row serializable ws row_idx c1 headers in
    match get_merged_cell_value ws row_idx (c1 + Z.of_nat (length headers)) with
    | Some value => (dict_set h (Some (serializable value)) row_dict, false)
    | None => (dict_set h None row_dict, is_empty)
    end.
Proof.
  unfold data_row. rewrite imap_app, foldl_app. simpl.
  by rewrite Nat.add_0_r.
Qed.

Lemma data_row_spec row_idx c1 headers :
  map fst (data_row serializable ws row_idx c1 headers).1 = dict_fromkeys headers
  /\ ((data_row serializable ws row_idx c1 headers).2 = false
      <-> row_has_value ws row_idx c1 (length headers))
  /\ forall k h, last_place headers k h ->
       dict_get h (data_row serializable ws row_idx c1 headers).1
       = Some (serializable <$> get_merged_cell_value ws row_idx (c1 + Z.of_nat k)).
Proof.
  induction headers as [|h headers IH] using rev_ind.
  - split; [done|]. split.
    + split; [done|]. intros (k & Hk & _). simpl in Hk. lia.
    + by intros k h [Hk _].
  - destruct IH as (Hkeys & Hempty & Hval). rewrite data_row_snoc.
    destruct (data_row serializable ws row_idx c1 headers) as [d e].
    simpl in Hkeys, Hempty, Hval.
    assert (forall (v : option CellValue) (e' : bool),
              map fst (dict_set h v d, e').1 = dict_fromkeys (headers ++ [h]))
      as Hkeys'.
    { intros v e'. simpl. by rewrite dict_set_keys, dict_fromkeys_snoc, Hkeys. }
    assert (forall (v : option CellValue) (e' : bool),
              v = serializable
                    <$> get_merged_cell_value ws row_idx
                          (c1 + Z.of_nat (length headers)) ->
              forall k h', last_place (headers ++ [h]) k h' ->
                dict_get h' (dict_set h v d, e').1
                = Some (serializable
                          <$> get_merged_cell_value ws row_idx (c1 + Z.of_nat k)))
      as Hval'.
    { intros v e' Hv k h' [Hk Hlast]. simpl. rewrite dict_get_set.
      apply lookup_snoc_Some in Hk as [[Hlt Hk]|[-> ->]].
      - destruct (String.eqb_spec h h') as [->|Hne].
        + destruct (Hlast (length headers) Hlt). apply list_lookup_middle. done.
        + apply Hval. split; [done|]. intros k' Hk' Hh.
          apply (Hlast k' Hk'). by rewrite lookup_app_l by by eapply lookup_lt_Some.
      - by rewrite String.eqb_refl, Hv. }
    rewrite length_app. simpl.
    destruct (get_merged_cell_value ws row_idx (c1 + Z.of_nat (length headers)))
      as [value|] eqn:Hg.
    + split; [apply Hkeys'|]. split; [|by apply Hval'].
      split; [|done]. intros _. exists (length headers). split; [lia|].
      by rewrite Hg.
    + split; [apply Hkeys'|]. split; [|by apply Hval'].
      simpl. rewrite Hempty. split.
      * intros (k & Hk & Hs). exists k. split; [lia|done].
      * intros (k & Hk & Hs).
        destruct (decide (k = length headers)) as [->|Hne].
        -- rewrite Hg in Hs. by destruct Hs.
        -- exists k. split; [lia|done].
Qed.

Lemma data_rows_loop c1 headers l : forall acc,
  foldl (fun data_rows row_idx =>
           if row_hidden ws (Z.to_nat row_idx) then data_rows
           else
             let '(row_dict, is_empty) :=
               data_row serializable ws row_idx c1 headers in
             if is_empty then data_rows else data_rows ++ [row_dict])
        acc l
  = acc ++ map (fun row_idx => (data_row serializable ws row_idx c1 headers).1)
               (List.filter
                  (fun row_idx =>
                     negb (row_hidden ws (Z.to_nat row_idx)
                           || (data_row serializable ws row_idx c1 headers).2))
                  l).
Proof.
  induction l as [|row_idx l IH]; intros acc; simpl; [by rewrite app_nil_r|].
  rewrite IH. destruct (row_hidden ws (Z.to_nat row_idx)); simpl; [done|].
  destruct (data_row serializable ws row_idx c1 headers) as [d e] eqn:E.
  destruct e; simpl; [done|]. rewrite E. simpl. by rewrite <- app_assoc.
Qed.

Lemma extract_data_rows r1 r2 c1 c2 headers :
  extract_data_from_excel serializable ws r1 r2 c1 c2 headers
  = map (fun row_idx => (data_row serializable ws row_idx c1 headers).1)
        (List.filter
           (fun row_idx =>
              negb (row_hidden ws (Z.to_nat row_idx)
                    || (data_row serializable ws row_idx c1 headers).2))
           (seqZ (r1 + 1) (r2 + 1 - (r1 + 1)))).
Proof. unfold extract_data_from_excel. by rewrite data_rows_loop. Qed.

End DataRowsFacts.

(** X18.  For a range of the report, the rows that
    [extract_data_from_excel] stores are those of the rows below the
    first row of the range, down to its last row, that are not hidden
    and hold a value in one of the columns that have a header: the
    header row, a hidden row and a row without a value are never
    stored.  There is at most one stored row for each row below the first,
    and none when the header list is empty. *)
Theorem stored_rows_are_visible_rows_with_a_value
    serializable ws r1 r2 c1 c2 headers :
  (0 <= r1)%Z -> (1 <= c1)%Z ->
  (forall d,
     d ∈ extract_data_from_excel serializable ws r1 r2 c1 c2 headers
     <-> exists row_idx,
           (r1 < row_idx <= r2)%Z
           /\ row_hidden ws (Z.to_nat row_idx) = false
           /\ row_has_value ws row_idx c1 (length headers)
           /\ d = (data_row serializable ws row_idx c1 headers).1)
  /\ (Z.of_nat (length (extract_data_from_excel serializable ws r1 r2 c1 c2 headers))
      <= Z.max 0 (r2 - r1))%Z
  /\ (headers = [] ->
      extract_data_from_excel serializable ws r1 r2 c1 c2 headers = []).
Proof.
  intros _ _. rewrite extract_data_rows.
  assert (forall d,
            d ∈ map (fun row_idx => (data_row serializable ws row_idx c1 headers).1)
                  (List.filter
                     (fun row_idx =>
                        negb (row_hidden ws (Z.to_nat row_idx)
                              || (data_row serializable ws row_idx c1 headers).2))
                     (seqZ (r1 + 1) (r2 + 1 - (r1 + 1))))
            <-> exists row_idx,
                  (r1 < row_idx <= r2)%Z
                  /\ row_hidden ws (Z.to_nat row_idx) = false
                  /\ row_has_value ws row_idx c1 (length headers)
                  /\ d = (data_row serializable ws row_idx c1 headers).1) as Hiff.
  { intros d. rewrite list_elem_of_fmap. split.
    - intros (row_idx & -> & Hin). exists row_idx.
      apply list_filter_In in Hin as [Hin Hkeep]. apply elem_of_seqZ in Hin.
      apply negb_true_iff, orb_false_iff in Hkeep as [Hh He].
      split; [lia|]. split; [done|]. split; [|done].
      by apply (data_row_spec serializable ws row_idx c1 headers).
    - intros (row_idx & Hr & Hh & Hv & ->). exists row_idx. split; [done|].
      apply list_filter_In. split; [apply elem_of_seqZ; lia|].
      apply (data_row_spec serializable ws row_idx c1 headers) in Hv.
      by rewrite Hh, Hv. }
  split; [exact Hiff|]. split.
  - rewrite length_map.
    pose proof (List.filter_length_le
                  (fun row_idx =>
                     negb (row_hidden ws (Z.to_nat row_idx)
                           || (data_row serializable ws row_idx c1 headers).2))
                  (seqZ (r1 + 1) (r2 + 1 - (r1 + 1)))) as Hle.
    rewrite length_seqZ in Hle. lia.
  - intros ->.
    destruct (map _ _) as [|d rest] eqn:Hm; [done|].
    destruct (proj1 (Hiff d) (list_elem_of_here _ _)) as (r & _ & _ & (k & Hk & _) & _).
    simpl in Hk. lia.
Qed.

Lemma stored_rows_witness :
  (0 <= 1)%Z /\ (1 <= 1)%Z
  /\ (forall d,
        d ∈ extract_data_from_excel id sheet_mixed 1 2 1 2 ["Date"; "Amount"]
        <-> exists row_idx,
              (1 < row_idx <= 2)%Z
              /\ row_hidden sheet_mixed (Z.to_nat row_idx) = false
              /\ row_has_value sheet_mixed row_idx 1 (length ["Date"; "Amount"])
              /\ d = (data_row id sheet_mixed row_idx 1 ["Date"; "Amount"]).1)
  /\ (Z.of_nat (length (extract_data_from_excel id sheet_mixed 1 2 1 2
                          ["Date"; "Amount"]))
      <= Z.max 0 (2 - 1))%Z
  /\ (["Date"; "Amount"] = [] ->
      extract_data_from_excel id sheet_mixed 1 2 1 2 ["Date"; "Amount"] = []).
Proof.
  split; [lia|]. split; [lia|].
  exact (stored_rows_are_visible_rows_with_a_value id sheet_mixed 1 2 1 2
           ["Date"; "Amount"] ltac:(lia) ltac:(lia)).
Defined.

Example extract_data_of_sheet_mixed :
  extract_data_from_excel id sheet_mixed 1 2 1 2 ["Date"; "Amount"]
  = [[("Date", Some (VStr "Mon")); ("Amount", Some (VInt 3))]].
Proof. vm_compute. reflexivity. Qed.

(** X19.  The keys of a stored row are the headers without their repeats,
    each at the place of its first occurrence, and the value under a
    header is that of the last column the header stands for: of two
    columns with the same header the row keeps the later one only. *)
Theorem stored_row_keeps_last_column_of_a_header
    serializable ws row_idx c1 headers :
  map fst (data_row serializable ws row_idx c1 headers).1 = dict_fromkeys headers
  /\ forall k h, last_place headers k h ->
       dict_get h (data_row serializable ws row_idx c1 headers).1
       = Some (serializable
                 <$> get_merged_cell_value ws row_idx (c1 + Z.of_nat k)).
Proof.
  destruct (data_row_spec serializable ws row_idx c1 headers) as (Hk & _ & Hv).
  by split.
Qed.

(** ** Grouping *)

Lemma dict_get_map {V} (g : string -> V) k keys :
  dict_get k (map (fun k' => (k', g k')) keys)
  = if bool_decide (k ∈ keys) then Some (g k) else None.
Proof.
  induction keys as [|k0 keys IH]; simpl; [done|].
  destruct (String.eqb_spec k0 k) as [->|Hne].
  - by rewrite bool_decide_eq_true_2 by apply list_elem_of_here.
  - rewrite IH. case_bool_decide as Hin.
    + by rewrite bool_decide_eq_true_2 by (by apply list_elem_of_further).
    + rewrite bool_decide_eq_false_2; [done|].
      intros [?|?]%elem_of_cons; [congruence|done].
Qed.

Lemma dict_set_absent {V} k (v : V) d :
  k ∉ map fst d -> dict_set k v d = d ++ [(k, v)].
Proof.
  induction d as [|[k0 v0] d IH]; simpl; intros Hk; [done|].
  destruct (String.eqb_spec k0 k) as [->|Hne].
  - destruct Hk. apply list_elem_of_here.
  - rewrite IH; [done|]. intros Hin. apply Hk. by apply list_elem_of_further.
Qed.

Lemma dict_set_map {V} (g : string -> V) k v keys :
  NoDup keys -> k ∈ keys ->
  dict_set k v (map (fun k' => (k', g k')) keys)
  = map (fun k' => (k', if String.eqb k' k then v else g k')) keys.
Proof.
  induction 1 as [|k0 keys Hnin Hnd IH]; simpl; [by intros ?%elem_of_nil|].
  intros Hk. destruct (String.eqb_spec k0 k) as [->|Hne].
  - f_equal. apply map_ext_in. intros k' Hk'. apply list_elem_of_In in Hk'.
    destruct (String.eqb_spec k' k) as [->|]; done.
  - f_equal. apply IH. apply elem_of_cons in Hk as [?|?]; [congruence|done].
Qed.

Lemma group_step_spec {A} (key : A -> string) l x :
  dict_set (key x) (default [] (dict_get (key x) (groups_of key l)) ++ [x])
           (groups_of key l)
  = groups_of key (l ++ [x]).
Proof.
  unfold groups_of. rewrite dict_get_map, map_app. simpl.
  rewrite dict_fromkeys_snoc.
  pose proof (dict_fromkeys_NoDup (map key l)) as Hnd.
  case_bool_decide as Hin; simpl.
  - rewrite dict_set_map by done. apply map_ext. intros k.
    rewrite List.filter_app. simpl.
    destruct (String.eqb_spec k (key x)) as [->|Hne].
    + by rewrite String.eqb_refl.
    + rewrite (proj2 (String.eqb_neq (key x) k)) by congruence.
      by rewrite app_nil_r.
  - rewrite dict_set_absent.
    2:{ rewrite map_map. simpl. by rewrite map_id. }
    rewrite map_app. simpl. f_equal.
    + apply map_ext_in. intros k Hk. apply list_elem_of_In in Hk.
      rewrite List.filter_app. simpl.
      rewrite (proj2 (String.eqb_neq (key x) k)) by (intros <-; done).
      by rewrite app_nil_r.
    + rewrite List.filter_app. simpl. rewrite String.eqb_refl.
      assert (List.filter (fun x0 => String.eqb (key x0) (key x)) l = []) as ->;
        [|done].
      destruct (List.filter _ l) as [|y ys] eqn:Hf; [done|].
      assert (y ∈ List.filter (fun x0 => String.eqb (key x0) (key x)) l) as Hy
        by (rewrite Hf; apply list_elem_of_here).
      apply list_filter_In in Hy as [Hy Heq]. apply String.eqb_eq in Heq.
      destruct Hin. apply dict_fromkeys_elem. rewrite <- Heq.
      by apply list_elem_of_fmap_2.
Qed.

Lemma group_loop {A} (key : A -> string) l :
  foldl (fun groups x =>
           dict_set (key x) (default [] (dict_get (key x) groups) ++ [x]) groups)
        [] l
  = groups_of key l.
Proof.
  induction l as [|x l IH] using rev_ind; [done|].
  by rewrite foldl_snoc, IH, group_step_spec.
Qed.

Lemma groups_of_keys {A} (key : A -> string) l :
  map fst (groups_of key l) = dict_fromkeys (map key l).
Proof. unfold groups_of. rewrite map_map. simpl. apply map_id. Qed.

(** Every group holds an entry, and every entry of a group has the key of
    the group and comes from the list. *)
Lemma groups_of_group {A} (key : A -> string) l k instances :
  (k, instances) ∈ groups_of key l ->
  instances <> []
  /\ instances = List.filter (fun x => String.eqb (key x) k) l.
Proof.
  unfold groups_of. intros (k' & [= -> ->] & Hk)%list_elem_of_fmap.
  split; [|done].
  apply dict_fromkeys_elem, list_elem_of_fmap in Hk as (x & -> & Hx).
  intros Hnil.
  assert (x ∈ List.filter (fun x0 => String.eqb (key x0) (key x)) l) as Hin.
  { apply list_filter_In. split; [done|]. apply String.eqb_refl. }
  rewrite Hnil in Hin. by apply elem_of_nil in Hin.
Qed.

Lemma indicator_sum (k0 : string) keys :
  NoDup keys ->
  sum_list (map (fun k => if String.eqb k0 k then 1 else 0) keys)
  = if bool_decide (k0 ∈ keys) then 1 else 0.
Proof.
  induction 1 as [|k keys Hnin Hnd IH]; simpl; [done|].
  rewrite IH. destruct (String.eqb_spec k0 k) as [->|Hne].
  - rewrite (bool_decide_eq_true_2 (k ∈ k :: keys)) by apply list_elem_of_here.
    by rewrite (bool_decide_eq_false_2 (k ∈ keys)).
  - apply (f_equal (fun b : bool => if b then 1 else 0)).
    apply bool_decide_ext. rewrite elem_of_cons. split; [auto|].
    intros [?|?]; [congruence|done].
Qed.

Lemma group_sizes_sum {A} (key : A -> string) keys l :
  NoDup keys -> (forall x, x ∈ l -> key x ∈ keys) ->
  sum_list (map (fun k => length (List.filter (fun x => String.eqb (key x) k) l))
                keys)
  = length l.
Proof.
  intros Hnd. induction l as [|x l IH]; intros Hall; simpl.
  - clear. induction keys as [|k keys IH]; simpl; [done|]. by rewrite IH.
  - rewrite <- IH by (intros y Hy; apply Hall; by apply list_elem_of_further).
    pose proof (indicator_sum (key x) keys Hnd) as Hind.
    rewrite bool_decide_eq_true_2 in Hind by apply Hall, list_elem_of_here.
    change (S ?n) with (1 + n). rewrite <- Hind. clear.
    induction keys as [|k keys IH]; simpl; [done|].
    destruct (String.eqb (key x) k); simpl; lia.
Qed.

(** X22.  [group_formulas_by_pattern] makes one group for each pattern
    key, the keys in the order of their first occurrence; a group holds
    the objects of its key, all of them, in the order of the list.  So no
    group is empty and every object is in one group. *)
Theorem pattern_groups_partition_the_formulas formulas :
  group_formulas_by_pattern formulas = groups_of pattern_key formulas
  /\ Forall (fun g : string * list FormulaObj => g.2 <> []) 
            (group_formulas_by_pattern formulas)
  /\ sum_list (map (fun g : string * list FormulaObj => length g.2)
                   (group_formulas_by_pattern formulas))
     = length formulas.
Proof.
  assert (group_formulas_by_pattern formulas = groups_of pattern_key formulas)
    as Heq by apply (group_loop pattern_key).
  split; [exact Heq|]. rewrite Heq. split.
  - apply Forall_forall. intros [k instances] Hin.
    by apply groups_of_group in Hin as [Hne _].
  - unfold groups_of. rewrite map_map. simpl.
    apply group_sizes_sum; [apply dict_fromkeys_NoDup|].
    intros x Hx. apply dict_fromkeys_elem. by apply list_elem_of_fmap_2.
Qed.

Lemma group_by_sheet_step (sheets : list (string * list FormulaObj)) k x :
  (let sheets' :=
     if bool_decide (k ∈ map fst sheets) then sheets else dict_set k [] sheets in
   dict_set k (default [] (dict_get k sheets') ++ [x]) sheets')
  = dict_set k (default [] (dict_get k sheets) ++ [x]) sheets.
Proof.
  cbv zeta. case_bool_decide as Hin; [done|].
  assert (dict_get k sheets = None) as ->.
  { clear x. induction sheets as [|[k0 v0] d IH]; simpl; [done|].
    destruct (String.eqb_spec k0 k) as [->|Hne].
    - destruct Hin. apply list_elem_of_here.
    - apply IH. intros H. apply Hin. by apply list_elem_of_further. }
  rewrite (dict_set_absent k [] sheets Hin), (dict_set_absent k _ sheets Hin).
  simpl. induction sheets as [|[k0 v0] d IH]; simpl.
  - by rewrite String.eqb_refl.
  - destruct (String.eqb_spec k0 k) as [->|Hne].
    + destruct Hin. apply list_elem_of_here.
    + f_equal. apply IH. intros H. apply Hin. by apply list_elem_of_further.
Qed.

(** X23.  [group_by_sheet] makes one group for each sheet name, the names
    in the order of their first occurrence, the name Unknown standing for
    a missing one; a group holds the objects of its sheet, all of them, in
    the order of the list. *)
Theorem sheet_groups_partition_the_formulas formulas :
  group_by_sheet formulas = groups_of sheet_key formulas
  /\ sum_list (map (fun g : string * list FormulaObj => length g.2)
                   (group_by_sheet formulas))
     = length formulas.
Proof.
  assert (group_by_sheet formulas = groups_of sheet_key formulas) as Heq.
  { rewrite <- group_loop. unfold group_by_sheet.
    generalize (@nil (string * list FormulaObj)).
    induction formulas as [|x l IH]; intros acc; simpl; [done|].
    rewrite <- IH. f_equal. apply group_by_sheet_step. }
  split; [exact Heq|]. rewrite Heq.
  unfold groups_of. rewrite map_map. simpl.
  apply group_sizes_sum; [apply dict_fromkeys_NoDup|].
  intros x Hx. apply dict_fromkeys_elem. by apply list_elem_of_fmap_2.
Qed.

(** ** The summary of the patterns *)

Lemma summary_of_groups (groups : list (string * list FormulaObj)) :
  Forall (fun g : string * list FormulaObj =>
            g.2 <> []
            /\ Forall (fun fo => is_Some (fo_cell fo) /\ is_Some (fo_formula fo)) g.2)
         groups ->
  exists unique_formulas,
    create_unique_formula_summary groups = Some unique_formulas
    /\ map uf_pattern unique_formulas = map fst groups
    /\ map uf_occurrence_count unique_formulas
       = map (fun g : string * list FormulaObj => length g.2) groups
    /\ Forall (fun u => 0 < uf_occurrence_count u
                        /\ length (uf_cells u) = uf_occurrence_count u)
              unique_formulas.
Proof.
  unfold create_unique_formula_summary.
  induction 1 as [|[pattern instances] groups [Hne Hall] _ IH].
  - exists []. by repeat split.
  - destruct IH as (us & Hus & Hp & Hc & Hok). simpl in Hne, Hall.
    destruct instances as [|representative rest]; [done|].
    destruct (mapM_is_Some_2 fo_cell (representative :: rest)) as [cells Hcells].
    { eapply Forall_impl; [exact Hall|]. by intros fo [? _]. }
    assert (is_Some (fo_formula representative)) as [formula Hf].
    { by apply Forall_cons in Hall as [[_ ?] _]. }
    pose proof (length_mapM _ _ _ Hcells) as Hlen.
    assert (unique_formula pattern (representative :: rest)
            = Some (mkUniqueFormula pattern formula
                      (default pattern (fo_readable_formula representative))
                      cells (length (representative :: rest))
                      (default [] (fo_dependencies representative))
                      (fo_context representative))) as Hu.
    { unfold unique_formula. by rewrite Hcells, Hf. }
    eexists (_ :: us). cbn [mapM]. rewrite Hu. simpl. rewrite Hus. simpl.
    split; [done|]. split; [by rewrite Hp|]. split; [by rewrite Hc|].
    constructor; [|done]. simpl in *. split; lia.
Qed.

(** X24.  When every formula object has its cell and its formula, the
    summary of the pattern groups is produced: one entry for each pattern
    key, in the order of first occurrence; the occurrence count of an
    entry is positive and is the number of its cells; the counts add up to
    the number of formula objects. *)
Theorem summary_counts_every_formula_once formulas :
  Forall (fun fo => is_Some (fo_cell fo) /\ is_Some (fo_formula fo)) formulas ->
  exists unique_formulas,
    create_unique_formula_summary (group_formulas_by_pattern formulas)
    = Some unique_formulas
    /\ map uf_pattern unique_formulas = dict_fromkeys (map pattern_key formulas)
    /\ Forall (fun u => 0 < uf_occurrence_count u
                        /\ length (uf_cells u) = uf_occurrence_count u)
              unique_formulas
    /\ sum_list (map uf_occurrence_count unique_formulas) = length formulas.
Proof.
  intros Hall.
  assert (group_formulas_by_pattern formulas = groups_of pattern_key formulas)
    as Heq by apply (group_loop pattern_key).
  destruct (summary_of_groups (group_formulas_by_pattern formulas))
    as (us & Hus & Hp & Hc & Hok).
  { rewrite Heq. apply Forall_forall. intros [k instances] Hin.
    apply groups_of_group in Hin as [Hne ->]. simpl. split; [done|].
    apply Forall_forall. intros fo [Hfo _]%list_filter_In.
    rewrite Forall_forall in Hall. by apply Hall. }
  exists us. split; [done|].
  split; [by rewrite Hp, Heq, groups_of_keys|]. split; [done|].
  rewrite Hc, Heq. unfold groups_of. rewrite map_map. simpl.
  apply group_sizes_sum; [apply dict_fromkeys_NoDup|].
  intros x Hx. apply dict_fromkeys_elem. by apply list_elem_of_fmap_2.
Qed.

Lemma summary_counts_every_formula_once_witness :
  Forall (fun fo => is_Some (fo_cell fo) /\ is_Some (fo_formula fo)) formulas_three
  /\ exists unique_formulas,
       create_unique_formula_summary (group_formulas_by_pattern formulas_three)
       = Some unique_formulas
       /\ map uf_pattern unique_formulas
          = dict_fromkeys (map pattern_key formulas_three)
       /\ Forall (fun u => 0 < uf_occurrence_count u
                           /\ length (uf_cells u) = uf_occurrence_count u)
                 unique_formulas
       /\ sum_list (map uf_occurrence_count unique_formulas)
          = length formulas_three.
Proof.
  assert (Forall (fun fo => is_Some (fo_cell fo) /\ is_Some (fo_formula fo))
                 formulas_three) as H.
  { repeat constructor; simpl; by eexists. }
  split; [exact H|]. exact (summary_counts_every_formula_once formulas_three H).
Defined.

Example summary_of_formulas_three :
  create_unique_formula_summary (group_formulas_by_pattern formulas_three)
  = Some [mkUniqueFormula "=[Actual]-[Budget]" "=A2-B2" "=[Actual]-[Budget]"
            ["C2"; "C3"] 2 ["A2"; "B2"]
            (Some (mkContext (Some "P&L") (Some "C2") (Some (VInt 4))));
          mkUniqueFormula "=SUM(D2:D8)" "=SUM(D2:D8)" "=SUM(D2:D8)"
            ["D9"] 1 ["D2:D8"]
            (Some (mkContext (Some "P&L") (Some "D9") (Some (VInt 9))))].
Proof. vm_compute. reflexivity. Qed.

(** ** The region splitter: what is kept, and where it is complete *)

(** X16.  With a recursion budget above the height plus the width of the
    box, [split_bbox_on_empty_lines] returns boxes of the data model that
    together hold every marked cell of the input box; when the input box
    holds a marked cell, so does each box returned. *)
Theorem split_keeps_cells_and_returns_no_empty_box grid b fuel :
  grid_wf grid -> bbox_valid b -> box_measure b < fuel ->
  exists out,
    split_bbox_on_empty_lines fuel grid b = Some out
    /\ Forall bbox_valid out
    /\ covers grid b out
    /\ (has_cell grid b -> Forall (has_cell grid) out).
Proof.
  intros Hwf Hv Hm.
  destruct (proj1 (split_returns_good grid Hwf fuel) b Hv Hm)
    as (out & He & _ & Hvalid & _ & Hc & Hcell).
  by exists out.
Qed.

Lemma split_keeps_cells_witness :
  grid_wf grid_corners /\ bbox_valid (1, 3, 1, 3)%Z
  /\ box_measure (1, 3, 1, 3)%Z < 10
  /\ exists out,
       split_bbox_on_empty_lines 10 grid_corners (1, 3, 1, 3)%Z = Some out
       /\ Forall bbox_valid out
       /\ covers grid_corners (1, 3, 1, 3)%Z out
       /\ (has_cell grid_corners (1, 3, 1, 3)%Z -> Forall (has_cell grid_corners) out).
Proof.
  assert (bbox_valid (1, 3, 1, 3)%Z) as Hv by (simpl; lia).
  assert (box_measure (1, 3, 1, 3)%Z < 10) as Hm by (simpl; lia).
  split; [exact grid_corners_wf|]. split; [exact Hv|]. split; [exact Hm|].
  exact (split_keeps_cells_and_returns_no_empty_box grid_corners (1, 3, 1, 3)%Z 10
           grid_corners_wf Hv Hm).
Defined.

(** X17.  When the box has an empty column, or has no empty row, every
    box that [split_bbox_on_empty_lines] returns is free of empty rows and
    empty columns.  An empty line can be left in a result only when the
    box has no empty column and is cut along its empty rows. *)
Theorem split_is_complete_unless_rows_are_cut_first grid b fuel out :
  grid_wf grid -> bbox_valid b ->
  bbox_on_sheet (nrows grid) (ncols grid) b ->
  ~ cols_full grid b \/ rows_full grid b ->
  split_bbox_on_empty_lines fuel grid b = Some out ->
  Forall (no_empty_line grid) out.
Proof.
  intros Hwf Hv Hs Hpre He.
  exact (proj1 (split_complete_when_first_branch grid Hwf fuel) b out Hv Hs Hpre He).
Qed.

Lemma split_is_complete_witness :
  grid_wf grid_corners /\ bbox_valid (1, 3, 1, 3)%Z
  /\ bbox_on_sheet (nrows grid_corners) (ncols grid_corners) (1, 3, 1, 3)%Z
  /\ (~ cols_full grid_corners (1, 3, 1, 3)%Z \/ rows_full grid_corners (1, 3, 1, 3)%Z)
  /\ split_bbox_on_empty_lines 10 grid_corners (1, 3, 1, 3)%Z
     = Some [(1, 1, 1, 1)%Z; (3, 3, 3, 3)%Z]
  /\ Forall (no_empty_line grid_corners) [(1, 1, 1, 1)%Z; (3, 3, 3, 3)%Z].
Proof.
  assert (bbox_valid (1, 3, 1, 3)%Z) as Hv by (simpl; lia).
  assert (bbox_on_sheet (nrows grid_corners) (ncols grid_corners) (1, 3, 1, 3)%Z)
    as Hs by (vm_compute; split; discriminate).
  assert (~ cols_full grid_corners (1, 3, 1, 3)%Z \/ rows_full grid_corners (1, 3, 1, 3)%Z)
    as Hpre.
  { left. intros Hc. destruct (Hc 2%Z ltac:(lia)) as (r & Hr & Hg).
    assert (r = 1 \/ r = 2 \/ r = 3)%Z as [-> | [-> | ->]] by lia; discriminate Hg. }
  assert (split_bbox_on_empty_lines 10 grid_corners (1, 3, 1, 3)%Z
          = Some [(1, 1, 1, 1)%Z; (3, 3, 3, 3)%Z]) as He
    by (vm_compute; reflexivity).
  split; [exact grid_corners_wf|]. split; [exact Hv|]. split; [exact Hs|].
  split; [exact Hpre|]. split; [exact He|].
  exact (split_is_complete_unless_rows_are_cut_first grid_corners (1, 3, 1, 3)%Z 10 _
           grid_corners_wf Hv Hs Hpre He).
Defined.

(** ** Headers are trimmed *)

Lemma rstrip_idemp s : rstrip (rstrip s) = rstrip s.
Proof.
  induction s as [|c s IH]; simpl; [done|].
  destruct (rstrip s) as [|d r] eqn:E.
  - destruct (isspace c) eqn:Hc; simpl; [done|]. by rewrite Hc.
  - replace (rstrip (String c (String d r)))
      with (match rstrip (String d r) with
            | EmptyString => if isspace c then EmptyString else String c EmptyString
            | String x y => String c (String x y)
            end) by reflexivity.
    by rewrite IH.
Qed.

Lemma lstrip_start s :
  lstrip s = EmptyString
  \/ exists c r, lstrip s = String c r /\ isspace c = false.
Proof.
  induction s as [|c s IH]; simpl; [by left|].
  destruct (isspace c) eqn:Hc; [done|]. right. by exists c, s.
Qed.

Lemma rstrip_start c r :
  isspace c = false -> exists r', rstrip (String c r) = String c r'.
Proof.
  intros Hc. simpl. destruct (rstrip r); [|by eexists].
  rewrite Hc. by eexists.
Qed.

Lemma strip_idemp s : strip (strip s) = strip s.
Proof.
  unfold strip.
  assert (lstrip (rstrip (lstrip s)) = rstrip (lstrip s)) as ->.
  { destruct (lstrip_start s) as [->|(c & r & -> & Hc)]; [done|].
    destruct (rstrip_start c r Hc) as [r' ->]. simpl. by rewrite Hc. }
  apply rstrip_idemp.
Qed.

Lemma cell_text_trimmed v : strip (cell_text v) = cell_text v.
Proof. destruct v as [v|]; [apply strip_idemp | done]. Qed.

Lemma sanitize_headers_trimmed ws table_obj r1 c1 r2 c2 h :
  h ∈ sanitize_table_headers_from_tableobj ws table_obj r1 c1 r2 c2 ->
  strip h = h.
Proof.
  unfold sanitize_table_headers_from_tableobj.
  assert (forall cols, h ∈ declared_headers cols -> strip h = h) as Hd.
  { unfold declared_headers. intros cols Hin.
    apply list_elem_of_omap in Hin as ([name|] & _ & Hsome); [|done].
    destruct (truthy name); [|done].
    destruct (header_rejected (strip name)); [done|].
    injection Hsome as <-. apply strip_idemp. }
  destruct (declared_headers (tableColumns table_obj)) as [|x l] eqn:E.
  - unfold first_row_headers. intros Hin.
    apply list_elem_of_omap in Hin as (j & _ & Hsome).
    destruct (column_hidden ws (Z.to_nat j)); [done|].
    destruct (header_rejected _); [done|].
    injection Hsome as <-. apply cell_text_trimmed.
  - rewrite <- E. apply Hd.
Qed.

(** X25.  Every header of a report is trimmed: no header of an explicit
    or of an implicit table starts or ends with white space, whether it
    comes from a declared column name or from a cell. *)
Theorem report_headers_are_trimmed fuel ws rep :
  sheet_report fuel ws = Some rep ->
  (forall e, e ∈ rep_explicit rep -> forall h, h ∈ et_headers e -> strip h = h)
  /\ (forall t, t ∈ rep_implicit rep -> forall h, h ∈ it_header t -> strip h = h).
Proof.
  unfold sheet_report.
  destruct (implicit_boxes fuel ws) as [boxes|]; [|done].
  destruct (implicit_entries ws _ boxes) as [implicit|] eqn:Hi; [|done].
  intros [= <-]. simpl. split.
  - intros e He h Hh. unfold explicit_entries in He.
    apply list_elem_of_lookup in He as [k Hk].
    rewrite list_lookup_imap in Hk.
    destruct (get_explicit_table_regions ws !! k)
      as [[[[[[r1 c1] r2] c2] name] table_obj]|]; [|done].
    injection Hk as <-. simpl in Hh. by eapply sanitize_headers_trimmed.
  - intros t Ht h Hh. apply implicit_entries_boxes in Hi.
    apply list_elem_of_lookup in Ht as [k Hk].
    destruct (Forall2_lookup_r _ _ _ _ _ Hi Hk)
      as (box & _ & _ & header & body & Hd & Hhd).
    rewrite Hhd in Hh. unfold filter_implicit_header in Hh.
    apply list_filter_In in Hh as [Hh _].
    apply detect_header_rows_elem in Hd. unfold region_rows in Hd.
    apply list_elem_of_fmap in Hd as (i & -> & _).
    apply list_elem_of_fmap in Hh as (j & -> & _). apply cell_text_trimmed.
Qed.

Lemma report_headers_are_trimmed_witness :
  sheet_report 10 sheet_mixed
  = Some (mkSheetReport
            [mkExplicitTable "Sales" "Sales" "A1:B2" ["Date"; "Amount"] 1 1 2 2]
            [mkImplicitTable "Table 2" "A4:B5" 4 1 5 2 ["Item"; "Qty"]])
  /\ (forall e,
        e ∈ [mkExplicitTable "Sales" "Sales" "A1:B2" ["Date"; "Amount"] 1 1 2 2] ->
        forall h, h ∈ et_headers e -> strip h = h)
  /\ (forall t,
        t ∈ [mkImplicitTable "Table 2" "A4:B5" 4 1 5 2 ["Item"; "Qty"]] ->
        forall h, h ∈ it_header t -> strip h = h).
Proof.
  split; [exact report_of_sheet_mixed|].
  exact (report_headers_are_trimmed 10 sheet_mixed _ report_of_sheet_mixed).
Defined.

(** ** Dependencies with inputs *)

(** X26.  The dependency list of a formula cell holds no entry twice,
    whichever way it is computed.  Computed from the inputs of the formula
    model, its entries are, for each input, the first range found in the
    input, or the input itself when it holds no range; computed from the
    formula, they are the references of the formula. *)
Theorem dependencies_never_repeat inputs formula :
  NoDup (formula_dependencies inputs formula)
  /\ forall d,
       d ∈ formula_dependencies inputs formula
       <-> match inputs with
           | Some deps =>
               exists d0, d0 ∈ deps
                          /\ d = match search_range d0 with
                                 | Some m => m
                                 | None => d0
                                 end
           | None => d ∈ extract_references formula
           end.
Proof.
  unfold formula_dependencies. destruct inputs as [deps|].
  - split; [apply dict_fromkeys_NoDup|]. intros d.
    rewrite dict_fromkeys_elem, list_elem_of_fmap. split.
    + intros (d0 & -> & Hd0). by exists d0.
    + intros (d0 & Hd0 & ->). by exists d0.
  - split; [apply dict_fromkeys_NoDup|]. intros d. apply dict_fromkeys_elem.
Qed.

(** ** A reference after a dollar sign *)

(** C4 (the code at the failing input).  Let A1 have the header Qty.  In
    the formula that joins the text constant cost$A1 to the cell A1,
    [extract_references] finds the references $A1 and A1.  Whatever the
    iteration order of the set, the longer one, $A1, is treated first and
    is not replaced, because a letter stands before it; then A1 is
    replaced at both places, the first of which lies inside the reference
    $A1: the shorter reference has matched inside the longer one. *)
Theorem annotation_replaces_inside_dollar_reference
    (set_order : list string -> list string) :
  set_iteration set_order ->
  extract_references formula_cost = ["$A1"; "A1"]
  /\ find_header_for_cell "Sheet1" "$A1" registry_qty_total = Some "Qty"
  /\ find_header_for_cell "Sheet1" "A1" registry_qty_total = Some "Qty"
  /\ sort_by_length_desc (set_order (extract_references formula_cost))
     = ["$A1"; "A1"]
  /\ sub_bounded "$A1" "[Qty]" formula_cost = formula_cost
  /\ annotate_formula set_order formula_cost "Sheet1" registry_qty_total
     = Some formula_cost_annotated.
Proof.
  intros Hset.
  assert (extract_references formula_cost = ["$A1"; "A1"]) as Hrefs
    by (vm_compute; reflexivity).
  assert (sort_by_length_desc (set_order (extract_references formula_cost))
          = ["$A1"; "A1"]) as Hsort.
  { rewrite Hrefs. pose proof (Hset ["$A1"; "A1"]) as Hp.
    assert (remove_dups ["$A1"; "A1"] = ["$A1"; "A1"]) as Hd by reflexivity.
    rewrite Hd in Hp. symmetry in Hp.
    apply Permutation_length_2_inv in Hp as [-> | ->]; reflexivity. }
  split; [exact Hrefs|]. split; [vm_compute; reflexivity|].
  split; [vm_compute; reflexivity|]. split; [exact Hsort|].
  split; [vm_compute; reflexivity|].
  unfold annotate_formula. rewrite Hsort. vm_compute. reflexivity.
Qed.

Lemma annotation_replaces_inside_dollar_reference_witness :
  set_iteration order_backward
  /\ extract_references formula_cost = ["$A1"; "A1"]
  /\ find_header_for_cell "Sheet1" "$A1" registry_qty_total = Some "Qty"
  /\ find_header_for_cell "Sheet1" "A1" registry_qty_total = Some "Qty"
  /\ sort_by_length_desc (order_backward (extract_references formula_cost))
     = ["$A1"; "A1"]
  /\ sub_bounded "$A1" "[Qty]" formula_cost = formula_cost
  /\ annotate_formula order_backward formula_cost "Sheet1" registry_qty_total
     = Some formula_cost_annotated.
Proof.
  split; [exact set_iteration_backward|].
  exact (annotation_replaces_inside_dollar_reference order_backward
           set_iteration_backward).
Defined.

(** ** The splitting of the boxes the program passes *)



Example islands_of_grid_block :
  flood_fill_islands grid_block 2 2 = Some [(1, 2, 1, 2)%Z].
Proof. vm_compute. reflexivity. Qed.

